(** * The DOM reconciler of miojo (the [DOMDiff] module)

    A shallow embedding of [createVNode], [parseHTML], [sameVNode],
    [updateAttributes], [patchChildren], [createElementFromVNode], [patch]
    and [diff], over a functional model of the live document tree.

    The live tree is mutated in place by the JavaScript code.  Here every
    operation takes the node it works on and returns the node (or the
    nodes) standing in its place afterwards, together with the list of
    live mutations it issued.  An exception is an outcome of its own, so
    that the [try]/[catch] of [diff] can be written out. *)

From Stdlib Require Import List String Ascii Bool Arith Lia.
Import ListNotations.
Open Scope string_scope.
Open Scope list_scope.
Open Scope nat_scope.

Set Implicit Arguments.
Set Warnings "-register-all".

(** ** JavaScript strings

    A string is held as the bytes of its UTF-8 encoding. *)

Module JsString.

(** The white space [String.prototype.trim] removes, by the bytes of
    the character.  In one byte: TAB, LF, VT, FF, CR and SPACE. *)
Definition isWhiteSpace (c : ascii) : bool :=
  let n := nat_of_ascii c in
  ((9 <=? n) && (n <=? 13)) || (n =? 32).

(** In two bytes: U+00A0. *)
Definition isWhiteSpace2 (c d : ascii) : bool :=
  (nat_of_ascii c =? 194) && (nat_of_ascii d =? 160).

(** In three bytes: U+1680, U+2000 to U+200A, U+2028, U+2029, U+202F,
    U+205F, U+3000 and U+FEFF. *)
Definition isWhiteSpace3 (c d e : ascii) : bool :=
  let a := nat_of_ascii c in
  let b := nat_of_ascii d in
  let k := nat_of_ascii e in
  ((a =? 225) && (b =? 154) && (k =? 128))
  || ((a =? 226) && (b =? 128)
      && (((128 <=? k) && (k <=? 138)) || (k =? 168) || (k =? 169) || (k =? 175)))
  || ((a =? 226) && (b =? 129) && (k =? 159))
  || ((a =? 227) && (b =? 128) && (k =? 128))
  || ((a =? 239) && (b =? 187) && (k =? 191)).

Fixpoint trimStart (s : string) : string :=
  match s with
  | EmptyString => EmptyString
  | String c s1 =>
      if isWhiteSpace c then trimStart s1
      else
        match s1 with
        | EmptyString => s
        | String d s2 =>
            if isWhiteSpace2 c d then trimStart s2
            else
              match s2 with
              | EmptyString => s
              | String e s3 => if isWhiteSpace3 c d e then trimStart s3 else s
              end
        end
  end.

(** Nothing but white space. *)
Fixpoint blank (s : string) : bool :=
  match s with
  | EmptyString => true
  | String c s1 =>
      if isWhiteSpace c then blank s1
      else
        match s1 with
        | EmptyString => false
        | String d s2 =>
            if isWhiteSpace2 c d then blank s2
            else
              match s2 with
              | EmptyString => false
              | String e s3 => isWhiteSpace3 c d e && blank s3
              end
        end
  end.

Fixpoint trimEnd (s : string) : string :=
  match s with
  | EmptyString => EmptyString
  | String c s' => if blank s then EmptyString else String c (trimEnd s')
  end.

Definition trim (s : string) : string := trimEnd (trimStart s).

(** [toLowerCase] and [toUpperCase] on the letters of ASCII, which are
    the letters of the tag and attribute names considered. *)
Definition lowerChar (c : ascii) : ascii :=
  let n := nat_of_ascii c in
  if (65 <=? n) && (n <=? 90) then ascii_of_nat (n + 32) else c.

Definition upperChar (c : ascii) : ascii :=
  let n := nat_of_ascii c in
  if (97 <=? n) && (n <=? 122) then ascii_of_nat (n - 32) else c.

Fixpoint mapChars (f : ascii -> ascii) (s : string) : string :=
  match s with
  | EmptyString => EmptyString
  | String c s' => String (f c) (mapChars f s')
  end.

Definition toLowerCase : string -> string := mapChars lowerChar.
Definition toUpperCase : string -> string := mapChars upperChar.

(** A string is truthy when it is not empty. *)
Definition truthy (s : string) : bool :=
  match s with EmptyString => false | _ => true end.

(** Nothing but white space of one byte. *)
Fixpoint allWhiteSpace (s : string) : bool :=
  match s with
  | EmptyString => true
  | String c s' => isWhiteSpace c && allWhiteSpace s'
  end.

End JsString.

(** ** String-keyed collections

    A [Map] with string keys and an element's attribute list keep their
    entries in insertion order and take any string as a key. *)

Module Assoc.

Definition t := list (string * string).

Definition empty : t := [].

Fixpoint get (key : string) (o : t) : option string :=
  match o with
  | [] => None
  | (k, v) :: o' => if String.eqb key k then Some v else get key o'
  end.

(** An entry that is there keeps its place, a new one goes last. *)
Fixpoint set (key v : string) (o : t) : t :=
  match o with
  | [] => [(key, v)]
  | (k, w) :: o' =>
      if String.eqb key k then (k, v) :: o' else (k, w) :: set key v o'
  end.

Definition has (key : string) (o : t) : bool :=
  match get key o with Some _ => true | None => false end.

Definition keys (o : t) : list string := map fst o.

Fixpoint remove (key : string) (o : t) : t :=
  match o with
  | [] => []
  | (k, v) :: o' =>
      if String.eqb key k then remove key o' else (k, v) :: remove key o'
  end.

End Assoc.

(** ** Objects used as string-keyed maps

    [vnode.attrs] is a plain object (an object literal) filled by
    assignment, read by [obj[key]], tested by [key in obj] and walked by
    [Object.keys].  Its own properties are kept in insertion order;
    array-index keys, which [Object.keys] lists first, are not names of
    the documents considered.  The object inherits from
    [Object.prototype]: [key in obj] holds for the names of its members
    too, [obj[key]] gives the inherited member for such a name that is
    not an own property, and an assignment to [__proto__] goes to the
    accessor of the prototype, which stores nothing for a string. *)

Module JsObject.

Abbreviation t := Assoc.t.

Abbreviation empty := Assoc.empty.

(** [Object.keys(o)] *)
Abbreviation keys := Assoc.keys.

(** The own property [key] of [o]: what [o[key]] gives for an own key and
    for a name that [Object.prototype] does not have. *)
Abbreviation get := Assoc.get.

(** The members of [Object.prototype]. *)
Definition prototypeNames : list string :=
  ["constructor"; "__defineGetter__"; "__defineSetter__"; "hasOwnProperty";
   "__lookupGetter__"; "__lookupSetter__"; "isPrototypeOf";
   "propertyIsEnumerable"; "toString"; "valueOf"; "__proto__";
   "toLocaleString"].

Definition inherited (key : string) : bool :=
  existsb (String.eqb key) prototypeNames.

(** [o[key] = v] for a string [v]. *)
Definition set (key v : string) (o : t) : t :=
  if String.eqb key "__proto__" then o else Assoc.set key v o.

(** [key in o] *)
Definition has (key : string) (o : t) : bool :=
  Assoc.has key o || inherited key.

(** [o[key]] for any key: a string, [undefined], or a member of
    [Object.prototype]. *)
Inductive Value :=
| Str (s : string)
| Undefined
| Member.

Definition read (key : string) (o : t) : Value :=
  match Assoc.get key o with
  | Some s => Str s
  | None => if inherited key then Member else Undefined
  end.

(** [s === x] for a string [s] *)
Definition isString (s : string) (x : Value) : bool :=
  match x with
  | Str s' => String.eqb s s'
  | _ => false
  end.

End JsObject.

(** Strict equality of two values that are a string or [undefined]. *)
Definition strictEq (a b : option string) : bool :=
  match a, b with
  | Some x, Some y => String.eqb x y
  | None, None => true
  | _, _ => false
  end.

(** Truthiness of a value that is a string or [undefined]. *)
Definition truthyValue (a : option string) : bool :=
  match a with
  | Some s => JsString.truthy s
  | None => false
  end.

(** ** The live document tree *)

(** What the code reads and writes on an element besides its children.
    [dirtyValue] is the value last given to the [value] property (typed
    by the user or assigned by a script), as it was given and [None]
    while none was; an input whose [value] property is in value mode
    shows it, sanitized as its type requires, in place of its [value]
    attribute.  [hasFocus] says whether the element is
    [document.activeElement]. *)
Record ElementProps := mkProps {
  tagName : string;
  attributes : Assoc.t;
  dirtyValue : option string;
  checked : bool;
  hasFocus : bool
}.

(** Character-data nodes that are not text nodes. *)
Inductive OtherKind := CommentKind | ProcessingInstructionKind | CDataSectionKind.

Inductive DomNode :=
| TextNode (data : string)
| OtherNode (kind : OtherKind) (data : string)
| ElementNode (props : ElementProps) (childNodes : list DomNode).

Definition ELEMENT_NODE : nat := 1.
Definition TEXT_NODE : nat := 3.

Definition nodeType (n : DomNode) : nat :=
  match n with
  | ElementNode _ _ => 1
  | TextNode _ => 3
  | OtherNode CDataSectionKind _ => 4
  | OtherNode ProcessingInstructionKind _ => 7
  | OtherNode CommentKind _ => 8
  end.

(** [node.childNodes]: character data has an empty child list. *)
Definition childNodesOf (n : DomNode) : list DomNode :=
  match n with
  | ElementNode _ cs => cs
  | _ => []
  end.

(** Getter of [node.textContent]. *)
Fixpoint textContent (n : DomNode) : string :=
  match n with
  | TextNode d => d
  | OtherNode _ d => d
  | ElementNode _ cs =>
      (fix go (l : list DomNode) : string :=
         match l with
         | [] => ""
         | TextNode d :: l' => String.append d (go l')
         | OtherNode _ _ :: l' => go l'
         | (ElementNode _ _ as c) :: l' => String.append (textContent c) (go l')
         end) cs
  end.

(** The live mutations the reconciler can issue. *)
Inductive Mutation :=
| RemoveAttribute (key : string)
| SetAttribute (key value : string)
| SetValue (value : string)
| SetChecked (b : bool)
| SetTextContent (value : string)
| RemoveChild (index : nat)
| AppendChild (nodes : list DomNode)
| ReplaceChild (nodes : list DomNode)
| SetInnerHTML (html : string).

(** ** Outcomes: a value or an exception, with the mutations issued so far *)

Inductive Exn :=
| TypeError
| HierarchyRequestError
| InvalidCharacterError
| InvalidStateError.

Inductive Outcome (A : Type) :=
| Return (a : A) (log : list Mutation)
| Throw (e : Exn) (log : list Mutation).

Arguments Return {A} a log.
Arguments Throw {A} e log.

Definition ret {A} (a : A) : Outcome A := Return a [].

Definition raise {A} (e : Exn) : Outcome A := Throw e [].

Definition bind {A B} (m : Outcome A) (f : A -> Outcome B) : Outcome B :=
  match m with
  | Return a l =>
      match f a with
      | Return b l' => Return b (l ++ l')
      | Throw e l' => Throw e (l ++ l')
      end
  | Throw e l => Throw e l
  end.

(** A step that mutates the live tree: its result with the mutation logged. *)
Definition emit {A} (m : Mutation) (a : A) : Outcome A := Return a [m].

Definition logOf {A} (m : Outcome A) : list Mutation :=
  match m with
  | Return _ l => l
  | Throw _ l => l
  end.

Declare Scope outcome_scope.
Delimit Scope outcome_scope with outcome.
Notation "x <- m ;; k" := (bind m (fun x => k))
  (at level 100, m at next level, right associativity) : outcome_scope.
Open Scope outcome_scope.

(** ** Virtual nodes *)

Inductive VNode :=
| VText (value : string)
| VElement (tag : string) (attrs : JsObject.t) (children : list VNode)
| VFragment (children : list VNode).

Inductive VType := TypeText | TypeElement | TypeFragment.

Definition VType_eqb (a b : VType) : bool :=
  match a, b with
  | TypeText, TypeText | TypeElement, TypeElement | TypeFragment, TypeFragment => true
  | _, _ => false
  end.

(** [vnode.type], [vnode.tag], [vnode.attrs] and [vnode.children]; a field
    the object does not have reads as [undefined]. *)
Definition vtype (v : VNode) : VType :=
  match v with
  | VText _ => TypeText
  | VElement _ _ _ => TypeElement
  | VFragment _ => TypeFragment
  end.

Definition vtag (v : VNode) : option string :=
  match v with VElement t _ _ => Some t | _ => None end.

Definition vattrs (v : VNode) : option JsObject.t :=
  match v with VElement _ a _ => Some a | _ => None end.

Definition vchildren (v : VNode) : option (list VNode) :=
  match v with
  | VElement _ _ c => Some c
  | VFragment c => Some c
  | VText _ => None
  end.

Definition vvalue (v : VNode) : option string :=
  match v with VText s => Some s | _ => None end.

(** [a.attrs?.key] *)
Definition keyOf (v : VNode) : option string :=
  match vattrs v with
  | Some a => JsObject.get "key" a
  | None => None
  end.

(** ** The host: what the document does for the reconciler

    [parseFragment context html] is the child list an element with tag
    name [context] gets when its [innerHTML] is set to [html].  The two
    name tests say which names [createElement] and [setAttribute] accept
    (they throw [InvalidCharacterError] on the others). *)
Record Browser := mkBrowser {
  parseFragment : string -> string -> list DomNode;
  validElementName : string -> bool;
  validAttributeName : string -> bool
}.

(** ** DOM operations

    Each takes the receiver as the code has it: a node, or [None] where
    the JavaScript value is [undefined] (an index past the end of
    [childNodes]).  Reading a property of [undefined], or calling a method
    the node does not have, throws [TypeError].  Elements are HTML
    elements of an HTML document: [setAttribute] and [removeAttribute]
    put the name they are given in ASCII lower case. *)

Definition withAttributes (p : ElementProps) (a : Assoc.t) : ElementProps :=
  mkProps (tagName p) a (dirtyValue p) (checked p) (hasFocus p).

Definition withValue (p : ElementProps) (v : string) : ElementProps :=
  mkProps (tagName p) (attributes p) (Some v) (checked p) (hasFocus p).

Definition withChecked (p : ElementProps) (b : bool) : ElementProps :=
  mkProps (tagName p) (attributes p) (dirtyValue p) b (hasFocus p).

(** [el.removeAttribute(key)] *)
Definition removeAttribute (el : option DomNode) (key : string)
  : Outcome (option DomNode) :=
  match el with
  | Some (ElementNode p cs) =>
      emit (RemoveAttribute key)
           (Some (ElementNode
                    (withAttributes p (Assoc.remove (JsString.toLowerCase key)
                                                    (attributes p))) cs))
  | _ => raise TypeError
  end.

(** [el.setAttribute(key, value)] *)
Definition setAttribute (B : Browser) (el : option DomNode) (key value : string)
  : Outcome (option DomNode) :=
  match el with
  | Some (ElementNode p cs) =>
      if validAttributeName B key then
        emit (SetAttribute key value)
             (Some (ElementNode
                      (withAttributes p (Assoc.set (JsString.toLowerCase key) value
                                                   (attributes p))) cs))
      else raise InvalidCharacterError
  | _ => raise TypeError
  end.

(** [el.tagName === name] *)
Definition tagNameIs (el : option DomNode) (name : string) : Outcome bool :=
  match el with
  | None => raise TypeError
  | Some (ElementNode p _) => ret (String.eqb (tagName p) name)
  | Some _ => ret false
  end.

(** [document.activeElement !== el] *)
Definition notActiveElement (el : option DomNode) : bool :=
  match el with
  | Some (ElementNode p _) => negb (hasFocus p)
  | _ => true
  end.

(** The mode of the [value] property of an [input], which its [type]
    attribute decides: the keyword is matched without regard to case, and
    a missing or unknown one is [text]. *)
Inductive ValueMode := ModeValue | ModeDefault | ModeDefaultOn | ModeFilename.

Definition inputType (p : ElementProps) : string :=
  match Assoc.get "type" (attributes p) with
  | Some t => JsString.toLowerCase t
  | None => EmptyString
  end.

Definition valueMode (p : ElementProps) : ValueMode :=
  let t := inputType p in
  if existsb (String.eqb t) ["hidden"; "submit"; "image"; "reset"; "button"]
  then ModeDefault
  else if existsb (String.eqb t) ["checkbox"; "radio"] then ModeDefaultOn
  else if String.eqb t "file" then ModeFilename
  else ModeValue.

(** What [el.value = value] does to an element, [None] where the setter
    throws [InvalidStateError].  On an [input] in value mode the value is
    set; in the two default modes the [value] attribute is written; a
    file input takes the empty string only, which empties its selection.
    On another element the assignment is kept as it is.  The value
    assigned is recorded in each case. *)
Definition assignValue (p : ElementProps) (value : string) : option ElementProps :=
  if String.eqb (tagName p) "INPUT" then
    match valueMode p with
    | ModeValue => Some (withValue p value)
    | ModeDefault | ModeDefaultOn =>
        Some (withValue (withAttributes p (Assoc.set "value" value (attributes p)))
                        value)
    | ModeFilename =>
        if String.eqb value EmptyString then Some (withValue p value) else None
    end
  else Some (withValue p value).

(** [el.value = value]; on character data this only adds a script
    property, which nothing reads. *)
Definition setValue (el : option DomNode) (value : string) : Outcome (option DomNode) :=
  match el with
  | None => raise TypeError
  | Some (ElementNode p cs) =>
      match assignValue p value with
      | Some p' => emit (SetValue value) (Some (ElementNode p' cs))
      | None => raise InvalidStateError
      end
  | Some n => emit (SetValue value) (Some n)
  end.

(** [el.checked = b] *)
Definition setChecked (el : option DomNode) (b : bool) : Outcome (option DomNode) :=
  match el with
  | None => raise TypeError
  | Some (ElementNode p cs) => emit (SetChecked b) (Some (ElementNode (withChecked p b) cs))
  | Some n => emit (SetChecked b) (Some n)
  end.

(** [el.textContent = value]: an element has its children replaced by one
    text node (by none for the empty string). *)
Definition setTextContent (el : option DomNode) (value : string)
  : Outcome (option DomNode) :=
  match el with
  | None => raise TypeError
  | Some (TextNode _) => emit (SetTextContent value) (Some (TextNode value))
  | Some (OtherNode k _) => emit (SetTextContent value) (Some (OtherNode k value))
  | Some (ElementNode p _) =>
      emit (SetTextContent value)
           (Some (ElementNode p (if JsString.truthy value then [TextNode value] else [])))
  end.

(** [parent.childNodes[i]] *)
Definition childAt (parent : option DomNode) (i : nat) : Outcome (option DomNode) :=
  match parent with
  | None => raise TypeError
  | Some p => ret (nth_error (childNodesOf p) i)
  end.

(** [parent.removeChild(childEl)] for [childEl = parent.childNodes[i]] *)
Definition removeChild (parent : option DomNode) (i : nat) : Outcome (option DomNode) :=
  match parent with
  | Some (ElementNode p cs) =>
      emit (RemoveChild i) (Some (ElementNode p (firstn i cs ++ skipn (S i) cs)))
  | _ => raise TypeError
  end.

(** [parent.appendChild(newEl)]; a document fragment gives its children,
    so [nodes] is what gets inserted.  Character data takes no child. *)
Definition appendChild (parent : option DomNode) (nodes : list DomNode)
  : Outcome (option DomNode) :=
  match parent with
  | None => raise TypeError
  | Some (ElementNode p cs) => emit (AppendChild nodes) (Some (ElementNode p (cs ++ nodes)))
  | Some _ => raise HierarchyRequestError
  end.

(** [el.parentNode?.replaceChild(newEl, el)]: the nodes in the place of
    [el] afterwards.  [attached] says whether [el] has a parent. *)
Definition replaceSelf (attached : bool) (el : option DomNode) (nodes : list DomNode)
  : Outcome (list DomNode) :=
  match el with
  | None => raise TypeError
  | Some n => if attached then emit (ReplaceChild nodes) nodes else ret [n]
  end.

(** The child at index [i] is now [nodes] (the child was patched in place
    or replaced, which the child's own step has logged). *)
Definition putChild (parent : option DomNode) (i : nat) (nodes : list DomNode)
  : option DomNode :=
  match parent with
  | Some (ElementNode p cs) => Some (ElementNode p (firstn i cs ++ nodes ++ skipn (S i) cs))
  | other => other
  end.

(** The nodes standing where [el] stands. *)
Definition slot (el : option DomNode) : list DomNode :=
  match el with
  | Some n => [n]
  | None => []
  end.

(** [container.innerHTML = html] *)
Definition setInnerHTML (B : Browser) (container : DomNode) (html : string)
  : Outcome DomNode :=
  match container with
  | ElementNode p _ =>
      emit (SetInnerHTML html) (ElementNode p (parseFragment B (tagName p) html))
  | n => emit (SetInnerHTML html) n
  end.

(** Work on a node that is not in the document yet is no live mutation. *)
Definition detached {A} (m : Outcome A) : Outcome A :=
  match m with
  | Return a _ => Return a []
  | Throw e _ => Throw e []
  end.

(** [list.forEach(key => ...)] over a receiver that each step may change. *)
Fixpoint forEach {K S : Type} (l : list K) (f : K -> S -> Outcome S) (s : S)
  : Outcome S :=
  match l with
  | [] => ret s
  | k :: l' => s' <- f k s ;; forEach l' f s'
  end.

(** ** The reconciler *)

(** [createVNode]: a text node gives a text vnode, any node that is not
    an element gives [null], an element gives an element vnode with its
    attributes copied and the non-null vnodes of its children. *)
Fixpoint createVNode (el : DomNode) : option VNode :=
  match el with
  | TextNode _ => Some (VText (textContent el))
  | OtherNode _ _ => None
  | ElementNode p cs =>
      Some (VElement
              (JsString.toLowerCase (tagName p))
              (fold_left (fun o attr => JsObject.set (fst attr) (snd attr) o)
                         (attributes p) JsObject.empty)
              (flat_map (fun child =>
                           match createVNode child with
                           | Some childVNode => [childVNode]
                           | None => []
                           end) cs))
  end.

(** The loop shared by [createVNode] and [parseHTML]:
    [if (vnode) children.push(vnode)]. *)
Definition pushVNodes (nodes : list DomNode) : list VNode :=
  flat_map (fun child =>
              match createVNode child with
              | Some vnode => [vnode]
              | None => []
              end) nodes.

(** [sameVNode]; either argument may be [null]. *)
Definition sameVNode (a b : option VNode) : bool :=
  match a, b with
  | Some a, Some b =>
      if negb (VType_eqb (vtype a) (vtype b)) then false
      else if VType_eqb (vtype a) TypeText then true
      else if negb (strictEq (vtag a) (vtag b)) then false
      else
        let aKey := keyOf a in
        let bKey := keyOf b in
        if truthyValue aKey || truthyValue bKey then strictEq aKey bKey
        else true
  | _, _ => false
  end.

(** [newValue === 'true' || newValue === 'checked'] *)
Definition checkedOf (newValue : string) : bool :=
  String.eqb newValue "true" || String.eqb newValue "checked".

(** One turn of the second loop of [updateAttributes]. *)
Definition updateAttribute (B : Browser) (oldAttrs newAttrs : JsObject.t)
    (key : string) (el : option DomNode) : Outcome (option DomNode) :=
  match JsObject.get key newAttrs with
  | None => ret el
  | Some newValue =>
      let oldValue := JsObject.read key oldAttrs in
      if negb (JsObject.isString newValue oldValue) then
        isInputValue <- (if String.eqb key "value" then tagNameIs el "INPUT" else ret false) ;;
        if isInputValue then
          if notActiveElement el then setValue el newValue else ret el
        else if String.eqb key "checked" then setChecked el (checkedOf newValue)
        else setAttribute B el key newValue
      else ret el
  end.

(** One turn of the first loop of [updateAttributes]. *)
Definition removeStale (newAttrs : JsObject.t) (key : string) (el : option DomNode)
  : Outcome (option DomNode) :=
  if negb (JsObject.has key newAttrs) then removeAttribute el key else ret el.

Definition updateAttributes (B : Browser) (el : option DomNode)
    (oldAttrs newAttrs : JsObject.t) : Outcome (option DomNode) :=
  el <- forEach (JsObject.keys oldAttrs) (removeStale newAttrs) el ;;
  forEach (JsObject.keys newAttrs) (updateAttribute B oldAttrs newAttrs) el.

(** [document.createElement(tag)] in an HTML document. *)
Definition createElement (B : Browser) (tag : string) : Outcome DomNode :=
  if validElementName B tag then
    ret (ElementNode (mkProps (JsString.toUpperCase tag) Assoc.empty None false false) [])
  else raise InvalidCharacterError.

(** Appending each created child in turn. *)
Definition appendAll (create : VNode -> Outcome (list DomNode))
  : list VNode -> Outcome (list DomNode) :=
  fix each (children : list VNode) : Outcome (list DomNode) :=
    match children with
    | [] => ret []
    | child :: rest =>
        nodes <- create child ;;
        others <- each rest ;;
        ret (nodes ++ others)
    end.

(** One turn of the attribute loop of [createElementFromVNode]; the
    element is not in the document yet. *)
Definition setCreatedAttribute (B : Browser) (attrs : JsObject.t)
    (key : string) (el : option DomNode) : Outcome (option DomNode) :=
  match JsObject.get key attrs with
  | None => ret el
  | Some v =>
      if String.eqb key "checked" then detached (setChecked el (checkedOf v))
      else detached (setAttribute B el key v)
  end.

(** [createElementFromVNode]: the nodes to insert, one for a text or an
    element vnode, the children of the document fragment for a fragment. *)
Fixpoint createElementFromVNode (B : Browser) (vnode : VNode) : Outcome (list DomNode) :=
  match vnode with
  | VText value => ret [TextNode value]
  | VFragment children => appendAll (createElementFromVNode B) children
  | VElement tag attrs children =>
      el <- createElement B tag ;;
      el <- forEach (JsObject.keys attrs) (setCreatedAttribute B attrs) (Some el) ;;
      kids <- appendAll (createElementFromVNode B) children ;;
      match el with
      | Some (ElementNode p cs) => ret [ElementNode p (cs ++ kids)]
      | _ => raise TypeError
      end
  end.

(** [oldVNode.attrs], [oldVNode.children] and [oldVNode.value], with the
    defaults the callee's parameters give to [undefined]. *)
Definition attrsOr (v : option VNode) : JsObject.t :=
  match v with
  | Some v => match vattrs v with Some a => a | None => JsObject.empty end
  | None => JsObject.empty
  end.

Definition childrenOr (v : option VNode) : list VNode :=
  match v with
  | Some v => match vchildren v with Some c => c | None => [] end
  | None => []
  end.

Definition valueOf (v : option VNode) : option string :=
  match v with
  | Some v => vvalue v
  | None => None
  end.

(** The tail of the loop of [patchChildren], where [newChildren[i]] is
    [undefined]: one turn per old child left. *)
Fixpoint removeExtra (i : nat) (parent : option DomNode) (oldChildren : list VNode)
  : Outcome (option DomNode) :=
  match oldChildren with
  | [] => ret parent
  | _ :: olds =>
      childEl <- childAt parent i ;;
      parent <- match childEl with
                | Some _ => removeChild parent i
                | None => ret parent
                end ;;
      removeExtra (S i) parent olds
  end.

(** The loop of [patchChildren] from index [i] on; the two lists are the
    children from index [i] on.  [patch] is the recursive call. *)
Definition patchChildrenFrom (B : Browser)
    (patch : option DomNode -> option VNode -> VNode -> Outcome (list DomNode))
  : nat -> option DomNode -> list VNode -> list VNode -> Outcome (option DomNode) :=
  fix loop (i : nat) (parent : option DomNode) (oldChildren newChildren : list VNode)
      {struct newChildren} : Outcome (option DomNode) :=
    match newChildren with
    | [] => removeExtra i parent oldChildren
    | newVNode :: news =>
        childEl <- childAt parent i ;;
        parent <- match oldChildren with
                  | [] =>
                      newEl <- detached (createElementFromVNode B newVNode) ;;
                      appendChild parent newEl
                  | oldVNode :: _ =>
                      nodes <- patch childEl (Some oldVNode) newVNode ;;
                      ret (match childEl with
                           | Some _ => putChild parent i nodes
                           | None => parent
                           end)
                  end ;;
        loop (S i) parent (tl oldChildren) news
    end.

(** [patch]: the nodes in the place of [el] afterwards. *)
Fixpoint patch (B : Browser) (attached : bool) (el : option DomNode)
    (oldVNode : option VNode) (newVNode : VNode) {struct newVNode}
  : Outcome (list DomNode) :=
  if negb (sameVNode oldVNode (Some newVNode)) then
    newEl <- detached (createElementFromVNode B newVNode) ;;
    replaceSelf attached el newEl
  else
    match newVNode with
    | VText value =>
        if negb (strictEq (valueOf oldVNode) (Some value)) then
          el <- setTextContent el value ;;
          ret (slot el)
        else ret (slot el)
    | VElement _ attrs children =>
        el <- updateAttributes B el (attrsOr oldVNode) attrs ;;
        el <- patchChildrenFrom B (patch B true) 0 el (childrenOr oldVNode) children ;;
        ret (slot el)
    | VFragment _ => ret (slot el)
    end.

Definition patchChildren (B : Browser) (parent : option DomNode)
    (oldChildren newChildren : list VNode) : Outcome (option DomNode) :=
  patchChildrenFrom B (patch B true) 0 parent oldChildren newChildren.

(** [parseHTML] *)
Definition parseHTML (B : Browser) (html : string) : VNode :=
  let children := pushVNodes (parseFragment B "TEMPLATE" (JsString.trim html)) in
  match children with
  | [vnode] => vnode
  | _ => VFragment children
  end.

(** The [try] block of [diff]. *)
Definition diffTry (B : Browser) (container : DomNode) (oldHTML newHTML : string)
  : Outcome DomNode :=
  let oldVNode := if JsString.truthy oldHTML then Some (parseHTML B oldHTML) else None in
  let newVNode := parseHTML B newHTML in
  if match oldVNode with None => true | Some _ => false end
     || (List.length (childNodesOf container) =? 0)
  then setInnerHTML B container newHTML
  else
    match container with
    | ElementNode p (firstChild :: rest) =>
        let currentVNode := createVNode firstChild in
        nodes <- patch B true (Some firstChild) currentVNode newVNode ;;
        ret (ElementNode p (nodes ++ rest))
    | _ =>
        newEl <- detached (createElementFromVNode B newVNode) ;;
        r <- appendChild (Some container) newEl ;;
        ret (match r with Some c => c | None => container end)
    end.

(** [diff]: the container afterwards.  The [catch] block logs the error
    and sets [innerHTML]; the container's own properties are never written
    by the [try] block, only its child list. *)
Definition diff (B : Browser) (container : DomNode) (oldHTML newHTML : string)
  : Outcome DomNode :=
  match diffTry B container oldHTML newHTML with
  | Return c log => Return c log
  | Throw _ log => bind (Return tt log) (fun _ => setInnerHTML B container newHTML)
  end.

(** ** A small host for the examples

    A fragment parser for plain markup: start and end tags, attributes
    (bare, unquoted, single- or double-quoted), void elements, comments
    and text.  Character references, raw-text elements and the insertion
    rules of tables and forms are left out, and the context element is not
    looked at; on the markup of the examples below it builds the child
    list every HTML parser builds. *)

Module MiniHost.

Inductive Token :=
| StartTag (name : string) (attrs : JsObject.t)
| EndTag (name : string)
| CommentToken (data : string)
| Characters (data : string).

Inductive Mode :=
| InData (text : list ascii)
| InComment (text : list ascii)
| InTagName (closing : bool) (name : list ascii)
| InEndTag (name : string)
| BeforeAttribute (name : string) (attrs : JsObject.t)
| InAttributeName (name : string) (attrs : JsObject.t) (key : list ascii)
| BeforeValue (name : string) (attrs : JsObject.t) (key : string)
| InValue (name : string) (attrs : JsObject.t) (key : string)
          (quote : option ascii) (value : list ascii).

Definition str (reversed : list ascii) : string :=
  string_of_list_ascii (rev reversed).

Definition name_of (reversed : list ascii) : string :=
  JsString.toLowerCase (str reversed).

Definition isLetter (c : ascii) : bool :=
  let n := nat_of_ascii c in
  ((65 <=? n) && (n <=? 90)) || ((97 <=? n) && (n <=? 122)).

(** The first of two attributes with one name wins. *)
Definition addAttribute (key value : string) (attrs : JsObject.t) : JsObject.t :=
  if Assoc.has key attrs then attrs else attrs ++ [(key, value)].

Definition flush (text : list ascii) (acc : list Token) : list Token :=
  match text with
  | [] => acc
  | _ => Characters (str text) :: acc
  end.

Definition closeTag (closing : bool) (name : string) (attrs : JsObject.t)
    (acc : list Token) : list Token :=
  if closing then EndTag name :: acc else StartTag name attrs :: acc.

(** The tokens of [s], last first. *)
Fixpoint tokenize (mode : Mode) (s : string) (acc : list Token) : list Token :=
  match s with
  | EmptyString =>
      match mode with
      | InData text => flush text acc
      | InComment text => CommentToken (str text) :: acc
      | _ => acc
      end
  | String c rest =>
      match mode with
      | InData text =>
          if Ascii.eqb c "<" then
            match rest with
            | String "!" (String "-" (String "-" rest')) =>
                tokenize (InComment []) rest' (flush text acc)
            | String "/" rest' =>
                tokenize (InTagName true []) rest' (flush text acc)
            | String d _ =>
                if isLetter d then tokenize (InTagName false []) rest (flush text acc)
                else tokenize (InData (c :: text)) rest acc
            | EmptyString => tokenize (InData (c :: text)) rest acc
            end
          else tokenize (InData (c :: text)) rest acc
      | InComment text =>
          if Ascii.eqb c "-" then
            match rest with
            | String "-" (String ">" rest') =>
                tokenize (InData []) rest' (CommentToken (str text) :: acc)
            | _ => tokenize (InComment (c :: text)) rest acc
            end
          else tokenize (InComment (c :: text)) rest acc
      | InTagName closing name =>
          if Ascii.eqb c ">" then
            tokenize (InData []) rest (closeTag closing (name_of name) [] acc)
          else if JsString.isWhiteSpace c || Ascii.eqb c "/" then
            if closing then tokenize (InEndTag (name_of name)) rest acc
            else tokenize (BeforeAttribute (name_of name) []) rest acc
          else tokenize (InTagName closing (c :: name)) rest acc
      | InEndTag name =>
          if Ascii.eqb c ">" then tokenize (InData []) rest (EndTag name :: acc)
          else tokenize (InEndTag name) rest acc
      | BeforeAttribute name attrs =>
          if Ascii.eqb c ">" then tokenize (InData []) rest (StartTag name attrs :: acc)
          else if JsString.isWhiteSpace c || Ascii.eqb c "/" then
            tokenize (BeforeAttribute name attrs) rest acc
          else tokenize (InAttributeName name attrs [c]) rest acc
      | InAttributeName name attrs key =>
          if Ascii.eqb c "=" then tokenize (BeforeValue name attrs (name_of key)) rest acc
          else if Ascii.eqb c ">" then
            tokenize (InData []) rest
                     (StartTag name (addAttribute (name_of key) "" attrs) :: acc)
          else if JsString.isWhiteSpace c || Ascii.eqb c "/" then
            tokenize (BeforeAttribute name (addAttribute (name_of key) "" attrs)) rest acc
          else tokenize (InAttributeName name attrs (c :: key)) rest acc
      | BeforeValue name attrs key =>
          if (nat_of_ascii c =? 34) || Ascii.eqb c "'" then
            tokenize (InValue name attrs key (Some c) []) rest acc
          else if Ascii.eqb c ">" then
            tokenize (InData []) rest (StartTag name (addAttribute key "" attrs) :: acc)
          else if JsString.isWhiteSpace c then tokenize (BeforeValue name attrs key) rest acc
          else tokenize (InValue name attrs key None [c]) rest acc
      | InValue name attrs key (Some q) value =>
          if Ascii.eqb c q then
            tokenize (BeforeAttribute name (addAttribute key (str value) attrs)) rest acc
          else tokenize (InValue name attrs key (Some q) (c :: value)) rest acc
      | InValue name attrs key None value =>
          if Ascii.eqb c ">" then
            tokenize (InData []) rest
                     (StartTag name (addAttribute key (str value) attrs) :: acc)
          else if JsString.isWhiteSpace c then
            tokenize (BeforeAttribute name (addAttribute key (str value) attrs)) rest acc
          else tokenize (InValue name attrs key None (c :: value)) rest acc
      end
  end.

Definition voidElements : list string :=
  ["area"; "base"; "br"; "col"; "embed"; "hr"; "img"; "input"; "link"; "meta";
   "source"; "track"; "wbr"].

Definition isVoid (name : string) : bool :=
  existsb (String.eqb name) voidElements.

Definition element (name : string) (attrs : JsObject.t) (kids : list DomNode) : DomNode :=
  ElementNode (mkProps (JsString.toUpperCase name) attrs None
                       (Assoc.has "checked" attrs) false) kids.

(** An open element: its name, its attributes and the siblings before it,
    last first. *)
Definition Frame : Type := string * JsObject.t * list DomNode.

Definition isOpen (name : string) (stack : list Frame) : bool :=
  existsb (fun f => String.eqb name (fst (fst f))) stack.

(** Close the open elements up to and including the innermost [name]. *)
Fixpoint closeUntil (name : string) (stack : list Frame) (cur : list DomNode)
  : list Frame * list DomNode :=
  match stack with
  | [] => ([], cur)
  | (n, a, before) :: stack' =>
      let cur' := element n a (rev cur) :: before in
      if String.eqb name n then (stack', cur') else closeUntil name stack' cur'
  end.

Fixpoint closeAll (stack : list Frame) (cur : list DomNode) : list DomNode :=
  match stack with
  | [] => rev cur
  | (n, a, before) :: stack' => closeAll stack' (element n a (rev cur) :: before)
  end.

Fixpoint build (tokens : list Token) (stack : list Frame) (cur : list DomNode)
  : list DomNode :=
  match tokens with
  | [] => closeAll stack cur
  | Characters d :: ts => build ts stack (TextNode d :: cur)
  | CommentToken d :: ts => build ts stack (OtherNode CommentKind d :: cur)
  | StartTag n a :: ts =>
      if isVoid n then build ts stack (element n a [] :: cur)
      else build ts ((n, a, cur) :: stack) []
  | EndTag n :: ts =>
      if isOpen n stack then
        let (stack', cur') := closeUntil n stack cur in build ts stack' cur'
      else build ts stack cur
  end.

Definition parse (context html : string) : list DomNode :=
  build (rev (tokenize (InData []) html [])) [] [].

(** Names made of letters, digits, [-] and [_], starting with a letter. *)
Definition nameChar (c : ascii) : bool :=
  let n := nat_of_ascii c in
  isLetter c || ((48 <=? n) && (n <=? 57)) || Ascii.eqb c "-" || Ascii.eqb c "_".

Fixpoint allNameChars (s : string) : bool :=
  match s with
  | EmptyString => true
  | String c s' => nameChar c && allNameChars s'
  end.

Definition validName (s : string) : bool :=
  match s with
  | EmptyString => false
  | String c _ => isLetter c && allNameChars s
  end.

Definition host : Browser := mkBrowser parse validName validName.

End MiniHost.


(** ** What a container shows

    Two virtual forests are compared up to white-space-only text nodes
    and up to the order of attributes. *)

Definition significant (v : VNode) : bool :=
  match v with
  | VText s => negb (JsString.allWhiteSpace s)
  | _ => true
  end.

Definition sameAttrs (a b : JsObject.t) : bool :=
  forallb (fun k => strictEq (JsObject.get k a) (JsObject.get k b))
          (JsObject.keys a ++ JsObject.keys b).

Definition equivForestWith (equiv : VNode -> VNode -> bool)
  : list VNode -> list VNode -> bool :=
  fix forest (xs ys : list VNode) {struct xs} : bool :=
    match xs with
    | [] => match ys with [] => true | _ => false end
    | x :: xs' =>
        if significant x then
          match ys with
          | y :: ys' => equiv x y && forest xs' ys'
          | [] => false
          end
        else forest xs' ys
    end.

Fixpoint equivVNode (a b : VNode) {struct a} : bool :=
  match a, b with
  | VText s, VText t => String.eqb s t
  | VElement ta aa ca, VElement tb ab cb =>
      String.eqb ta tb && sameAttrs aa ab
      && equivForestWith equivVNode ca (filter significant cb)
  | VFragment ca, VFragment cb =>
      equivForestWith equivVNode ca (filter significant cb)
  | _, _ => false
  end.

Definition equivForest (xs ys : list VNode) : bool :=
  equivForestWith equivVNode xs (filter significant ys).

(** The container's children are, up to white space and attribute order,
    what the host's parser builds from [html]. *)
Definition showsHTML (B : Browser) (container : DomNode) (html : string) : bool :=
  equivForest (pushVNodes (childNodesOf container))
              (pushVNodes (parseFragment B "TEMPLATE" html)).

(** The top-level nodes of a parsed tree. *)
Definition topLevel (v : VNode) : list VNode :=
  match v with
  | VFragment children => children
  | _ => [v]
  end.

Definition isTextOrElement (n : DomNode) : bool :=
  (nodeType n =? TEXT_NODE) || (nodeType n =? ELEMENT_NODE).

Definition isNull {A} (o : option A) : bool :=
  match o with
  | None => true
  | Some _ => false
  end.

(** The result of an outcome, [None] for an exception. *)
Definition resultOf {A} (m : Outcome A) : option A :=
  match m with
  | Return a _ => Some a
  | Throw _ _ => None
  end.



(** What a mutation of attributes or properties does to an element, and
    the element a list of them leaves.  A value write is logged when the
    setter accepted it; on an element that refuses it, the replay records
    the value and nothing else. *)
Definition applyMutation (m : Mutation) (p : ElementProps) : ElementProps :=
  match m with
  | RemoveAttribute k =>
      withAttributes p (Assoc.remove (JsString.toLowerCase k) (attributes p))
  | SetAttribute k v =>
      withAttributes p (Assoc.set (JsString.toLowerCase k) v (attributes p))
  | SetValue v =>
      match assignValue p v with
      | Some p' => p'
      | None => withValue p v
      end
  | SetChecked b => withChecked p b
  | _ => p
  end.

Definition replay (log : list Mutation) (p : ElementProps) : ElementProps :=
  fold_left (fun p m => applyMutation m p) log p.

(** The write [updateAttributes] issues on element [p] for a key whose
    new value [v] differs from the old one; none for the value of a
    focused input. *)
Definition writeFor (p : ElementProps) (key v : string) : option Mutation :=
  if String.eqb key "value" && String.eqb (tagName p) "INPUT" then
    if hasFocus p then None else Some (SetValue v)
  else if String.eqb key "checked" then Some (SetChecked (checkedOf v))
  else Some (SetAttribute key v).

Definition isSetAttribute (m : Mutation) : bool :=
  match m with
  | SetAttribute _ _ => true
  | _ => false
  end.

(** The names of the old map that are not [in] the new map. *)
Definition staleKeys (oldAttrs newAttrs : JsObject.t) : list string :=
  filter (fun key => negb (JsObject.has key newAttrs)) (JsObject.keys oldAttrs).

(** [dueWrite oldAttrs newAttrs p keys m]: [m] is the write on element
    [p] for one of [keys], to which the new map gives a value that is not
    the old one. *)
Definition dueWrite (oldAttrs newAttrs : JsObject.t) (p : ElementProps)
    (keys : list string) (m : Mutation) : Prop :=
  exists key v, In key keys
                /\ JsObject.get key newAttrs = Some v
                /\ JsObject.get key oldAttrs <> Some v
                /\ writeFor p key v = Some m.

(** The attribute a mutation removes or sets. *)
Definition writesAttribute (key : string) (m : Mutation) : bool :=
  match m with
  | RemoveAttribute k => String.eqb k key
  | SetAttribute k _ => String.eqb k key
  | _ => false
  end.

(** The attribute of the element a mutation may write: the name in lower
    case for a removal and a setting, [value] for a value write. *)
Definition affects (key : string) (m : Mutation) : bool :=
  match m with
  | RemoveAttribute k => String.eqb (JsString.toLowerCase k) key
  | SetAttribute k _ => String.eqb (JsString.toLowerCase k) key
  | SetValue _ => String.eqb key "value"
  | _ => false
  end.

(** The exception a write meets on element [p]: a name [setAttribute]
    refuses, a value a file input refuses. *)
Definition refused (B : Browser) (p : ElementProps) (m : Mutation) : option Exn :=
  match m with
  | SetAttribute k _ =>
      if validAttributeName B k then None else Some InvalidCharacterError
  | SetValue v =>
      match assignValue p v with
      | Some _ => None
      | None => Some InvalidStateError
      end
  | _ => None
  end.


(** The own properties an object gets from attributes copied into it by
    assignment: all but one named [__proto__]. *)
Definition ownedAttrs (a : Assoc.t) : JsObject.t :=
  filter (fun attr => negb (String.eqb (fst attr) "__proto__")) a.

Definition isSetValue (m : Mutation) : bool :=
  match m with
  | SetValue _ => true
  | _ => false
  end.

Definition isSetChecked (m : Mutation) : bool :=
  match m with
  | SetChecked _ => true
  | _ => false
  end.

(** ** When a live tree shows a virtual tree

    [shows n v]: the live node [n] has the tags, the text and the
    attributes of [v], and no node besides.  The two attributes that the
    reconciler applies as live properties are not compared: [checked], and
    [value] on an [input]. *)

Definition plainKey (tag key : string) : bool :=
  negb (String.eqb key "checked")
  && negb (String.eqb key "value" && String.eqb tag "input").

Definition attrsShown (tag : string) (live attrs : JsObject.t) : Prop :=
  forall key, plainKey tag key = true -> JsObject.get key live = JsObject.get key attrs.

Inductive shows : DomNode -> VNode -> Prop :=
| shows_text (s : string) : shows (TextNode s) (VText s)
| shows_element (p : ElementProps) (cs : list DomNode)
                (tag : string) (attrs : JsObject.t) (children : list VNode) :
    JsString.toLowerCase (tagName p) = tag ->
    attrsShown tag (attributes p) attrs ->
    Forall2 shows cs children ->
    shows (ElementNode p cs) (VElement tag attrs children).

(** A live subtree of text nodes and elements only, each element with
    distinct attribute names. *)
Inductive wellFormed : DomNode -> Prop :=
| wellFormed_text (s : string) : wellFormed (TextNode s)
| wellFormed_element (p : ElementProps) (cs : list DomNode) :
    NoDup (JsObject.keys (attributes p)) ->
    Forall wellFormed cs ->
    wellFormed (ElementNode p cs).

(** A virtual node as [createVNode] builds them: tags in lower case, and
    no fragment below the root. *)
Inductive regular : VNode -> Prop :=
| regular_text (s : string) : regular (VText s)
| regular_element (tag : string) (attrs : JsObject.t) (children : list VNode) :
    JsString.toLowerCase (JsString.toUpperCase tag) = tag ->
    Forall regular children ->
    regular (VElement tag attrs children).

(** Attribute names in lower case throughout a virtual tree, as an HTML
    parser stores them on HTML elements. *)
Inductive lowerNames : VNode -> Prop :=
| lowerNames_text (s : string) : lowerNames (VText s)
| lowerNames_element (tag : string) (attrs : JsObject.t) (children : list VNode) :
    Forall (fun key => JsString.toLowerCase key = key) (JsObject.keys attrs) ->
    Forall lowerNames children ->
    lowerNames (VElement tag attrs children)
| lowerNames_fragment (children : list VNode) :
    Forall lowerNames children ->
    lowerNames (VFragment children).





(** ** Further notions for the reconciler *)

(** A vnode that a created element gives back exactly: regular, with
    distinct attribute names in lower case, none of them [__proto__], and
    no [checked] attribute. *)
Inductive plainVNode : VNode -> Prop :=
| plainVNode_text (s : string) : plainVNode (VText s)
| plainVNode_element (tag : string) (attrs : JsObject.t) (children : list VNode) :
    JsString.toLowerCase (JsString.toUpperCase tag) = tag ->
    NoDup (JsObject.keys attrs) ->
    Forall (fun key => JsString.toLowerCase key = key /\ key <> "__proto__")
           (JsObject.keys attrs) ->
    ~ In "checked" (JsObject.keys attrs) ->
    Forall plainVNode children ->
    plainVNode (VElement tag attrs children).

Definition isFragment (v : VNode) : bool :=
  match v with
  | VFragment _ => true
  | _ => false
  end.

From Stdlib Require Import ZArith Sorted.

(** * The other modules of the library

    The functional utilities, [TemplateEngine.escapeHTML], the path and
    route matching of [Router], the subscriptions and the persistence of
    [State], [Lifecycle] and [helpers.throttle].  A callback is known by
    its identity only: the models record which callbacks are called, in
    which order and with which arguments, and take it that a callback
    does not call back into the module that runs it. *)

(** ** Functional utilities *)

Module Functional.

Section Pipe.

Variable A : Type.

(** [pipe(...fns)(value)]: [reduce] from the left. *)
Definition pipe (fns : list (A -> A)) (value : A) : A :=
  fold_left (fun acc fn => fn acc) fns value.

(** [compose(...fns)(value)]: [reduceRight]. *)
Definition compose (fns : list (A -> A)) (value : A) : A :=
  fold_right (fun fn acc => fn acc) value fns.

End Pipe.

Section Curry.

(** A function is its [length] and what it returns on an argument list;
    [fn.bind(null, ...args)] has the length of [fn] less the number of
    bound arguments, and zero when that would be negative. *)
Variables V R : Type.

Inductive Curried :=
| Result (r : R)
| Waiting (length : nat) (bound : list V).

(** One call of [curry(fn)], where [fn] stands for the function first
    given with [bound] already bound to it. *)
Definition curry (fn : list V -> R) (length : nat) (bound args : list V) : Curried :=
  if length <=? List.length args
  then Result (fn (bound ++ args))
  else Waiting (length - List.length args) (bound ++ args).

(** Successive calls [curry(fn)(...a1)(...a2)...]; a result is not called
    in turn. *)
Fixpoint calls (fn : list V -> R) (length : nat) (bound : list V)
    (groups : list (list V)) : option Curried :=
  match groups with
  | [] => Some (Waiting length bound)
  | args :: rest =>
      match curry fn length bound args with
      | Result r => match rest with [] => Some (Result r) | _ => None end
      | Waiting length' bound' => calls fn length' bound' rest
      end
  end.

(** [partial(fn, ...presetArgs)(...laterArgs)] *)
Definition partial (fn : list V -> R) (presetArgs laterArgs : list V) : R :=
  fn (presetArgs ++ laterArgs).

End Curry.

Arguments Result {V R} r.
Arguments Waiting {V R} length bound.

End Functional.

(** ** [TemplateEngine.escapeHTML]

    A string is kept as the bytes of its UTF-8 form.  The five characters
    replaced are ASCII, and no byte of a longer sequence is one of them,
    so that replacing them byte by byte is replacing them in the string. *)

Module TemplateEngine.

(** [s.replace(/c/g, by)] for a pattern that is one literal character and
    a replacement without [$]. *)
Fixpoint replaceAll (c : ascii) (by_ : string) (s : string) : string :=
  match s with
  | EmptyString => EmptyString
  | String a s' =>
      if Ascii.eqb a c then String.append by_ (replaceAll c by_ s')
      else String a (replaceAll c by_ s')
  end.

Definition quot : ascii := "034"%char.
Definition apos : ascii := "039"%char.

(** The argument is [None] for [null] and [undefined], and otherwise the
    text [String(str)] gives. *)
Definition escapeHTML (str : option string) : string :=
  match str with
  | None => ""
  | Some s =>
      replaceAll apos "&#039;"
        (replaceAll quot "&quot;"
           (replaceAll ">"%char "&gt;"
              (replaceAll "<"%char "&lt;"
                 (replaceAll "&"%char "&amp;" s))))
  end.

(** The text for one character, and for each character in turn. *)
Definition escapeChar (c : ascii) : string :=
  if Ascii.eqb c "&"%char then "&amp;"
  else if Ascii.eqb c "<"%char then "&lt;"
  else if Ascii.eqb c ">"%char then "&gt;"
  else if Ascii.eqb c quot then "&quot;"
  else if Ascii.eqb c apos then "&#039;"
  else String c EmptyString.

Fixpoint escapeEach (s : string) : string :=
  match s with
  | EmptyString => EmptyString
  | String c s' => String.append (escapeChar c) (escapeEach s')
  end.

Definition special (c : ascii) : bool :=
  Ascii.eqb c "&"%char || Ascii.eqb c "<"%char || Ascii.eqb c ">"%char
  || Ascii.eqb c quot || Ascii.eqb c apos.

Fixpoint occurs (c : ascii) (s : string) : bool :=
  match s with
  | EmptyString => false
  | String a s' => Ascii.eqb a c || occurs c s'
  end.

Fixpoint anySpecial (s : string) : bool :=
  match s with
  | EmptyString => false
  | String a s' => special a || anySpecial s'
  end.

(** *** [compile] and its cache *)

Definition LF : string := String "010"%char EmptyString.

Definition doubleQuote : string := String quot EmptyString.

(** The text the [catch] block of [compile] returns; [message] is
    [error.message]. *)
Definition templateError (message : option string) : string :=
  String.append "<div style="
    (String.append doubleQuote
    (String.append "color: red; padding: 20px; border: 2px solid red;"
    (String.append doubleQuote
    (String.append ">"
    (String.append LF
    (String.append "          <strong>Template Error:</strong> "
    (String.append (escapeHTML message)
    (String.append LF "        </div>")))))))).

Definition MAX_CACHE_SIZE : nat := 100.

(** A value thrown, as a [catch] block sees it that reads
    [error.message] and hands it to [escapeHTML]: [null] or [undefined],
    of which no property can be read; a value whose message is read,
    [None] for a message that is [null] or [undefined] and the text of
    [String(message)] otherwise; or a value for which reading the message
    or turning it into text throws in turn. *)
Inductive Thrown :=
| Nullish
| Described (message : option string)
| Undescribed (next : Thrown).

Section Compile.

(** The argument [data], the text of [JSON.stringify({ template, data })]
    (or the value it throws), and the four passes, each of which catches
    its own errors. *)
Variable Data : Type.
Variable cacheKeyOf : string -> Data -> string + Thrown.
Variables compileEach compileIf compileUnless compileVariables
  : string -> Data -> string.

(** [error.message] of an exception of the engine or of the document. *)
Variable messageOf : Exn -> option string.

(** [error.message] in a [catch] block, or what reading it throws: a
    [TypeError] for [null] and [undefined]. *)
Definition message (error : Thrown) : option string + Thrown :=
  match error with
  | Nullish => inr (Described (messageOf TypeError))
  | Described text => inl text
  | Undescribed next => inr next
  end.

(** [cache] is a [Map] from strings to strings, in insertion order.  The
    result is the text returned, or the value thrown by the [catch]
    block. *)
Definition compile (data : Data) (template : string) (cache : Assoc.t)
  : (string + Thrown) * Assoc.t :=
  match cacheKeyOf template data with
  | inr error =>
      match message error with
      | inl text => (inl (templateError text), cache)
      | inr thrown => (inr thrown, cache)
      end
  | inl cacheKey =>
      match Assoc.get cacheKey cache with
      | Some cached => (inl cached, cache)
      | None =>
          let result :=
            Functional.pipe [fun tmpl => compileEach tmpl data;
                             fun tmpl => compileIf tmpl data;
                             fun tmpl => compileUnless tmpl data;
                             fun tmpl => compileVariables tmpl data] template in
          let cache1 :=
            if MAX_CACHE_SIZE <=? List.length cache
            then match Assoc.keys cache with
                 | firstKey :: _ => Assoc.remove firstKey cache
                 | [] => cache
                 end
            else cache in
          (inl result, Assoc.set cacheKey result cache1)
      end
  end.

End Compile.

End TemplateEngine.

(** ** [Router]: base path and route matching *)

Module Router.

(** [s.startsWith(prefix)], [s.endsWith(suffix)], [s.slice(0, -1)] and
    [s.slice(n)] for [n] that is not negative. *)
Definition startsWith (prefix s : string) : bool := String.prefix prefix s.

Fixpoint endsWith (suffix s : string) : bool :=
  String.eqb s suffix
  || match s with
     | EmptyString => false
     | String _ s' => endsWith suffix s'
     end.

Fixpoint dropLast (s : string) : string :=
  match s with
  | EmptyString => EmptyString
  | String c s' =>
      match s' with
      | EmptyString => EmptyString
      | _ => String c (dropLast s')
      end
  end.

Fixpoint sliceFrom (n : nat) (s : string) : string :=
  match n, s with
  | 0, _ => s
  | S n', String _ s' => sliceFrom n' s'
  | S _, EmptyString => EmptyString
  end.

(** [s.split(sep)] for a separator of one character, and [parts.join(sep)]. *)
Fixpoint split (sep : ascii) (s : string) : list string :=
  match s with
  | EmptyString => [EmptyString]
  | String c s' =>
      if Ascii.eqb c sep then EmptyString :: split sep s'
      else match split sep s' with
           | part :: parts => String c part :: parts
           | [] => [String c EmptyString]
           end
  end.

Fixpoint join (sep : string) (parts : list string) : string :=
  match parts with
  | [] => EmptyString
  | part :: rest =>
      match rest with
      | [] => part
      | _ => String.append part (String.append sep (join sep rest))
      end
  end.

(** [x || "/"] *)
Definition orSlash (s : string) : string := if JsString.truthy s then s else "/".

Definition norm (s : string) : string :=
  if endsWith "/" s && negb (String.eqb s "/") then dropLast s else s.

(** [setBase]: the new [basePath]; [None] is a call without a string. *)
Definition setBase (b : option string) : string :=
  norm (match b with
        | Some s => if JsString.truthy s then s else ""
        | None => ""
        end).

(** [stripBase] and [addBase] read [basePath]; it is their first argument. *)
Definition stripBase (basePath path : string) : string :=
  let p := norm path in
  if negb (JsString.truthy basePath) then orSlash p
  else if String.eqb p basePath then "/"
  else if startsWith (String.append basePath "/") p
       then orSlash (sliceFrom (String.length basePath) p)
       else p.

Definition addBase (basePath rel : string) : string :=
  let r := if startsWith "/" rel then rel else String.append "/" rel in
  if JsString.truthy basePath then norm (String.append basePath r) else r.

Section Matching.

(** [sanitizeParam] is [decodeURIComponent] followed by three regular
    expression replacements; it is taken as given, with [None] where
    [decodeURIComponent] throws [URIError].  A function below that calls
    it returns [None] where that error goes through it. *)
Variable sanitizeParam : string -> option string.

(** [parts.map(sanitizeParam)] *)
Fixpoint sanitizeAll (parts : list string) : option (list string) :=
  match parts with
  | [] => Some []
  | part :: rest =>
      match sanitizeParam part with
      | None => None
      | Some v =>
          match sanitizeAll rest with
          | None => None
          | Some vs => Some (v :: vs)
          end
      end
  end.

(** The loop of [extractParams] from index [i] on, [rest] being the
    pattern parts still to come; the inner [None] is [null]. *)
Fixpoint extractFrom (rest pathParts : list string) (patternLength i : nat)
    (params : JsObject.t) : option (option JsObject.t) :=
  match rest with
  | [] => Some (if List.length pathParts =? patternLength then Some params else None)
  | patternPart :: rest' =>
      if String.eqb patternPart "*" then
        match sanitizeAll (skipn i pathParts) with
        | None => None
        | Some parts => Some (Some (JsObject.set "wildcard" (join "/" parts) params))
        end
      else if startsWith ":" patternPart then
        if truthyValue (nth_error pathParts i) then
          match sanitizeParam (match nth_error pathParts i with
                               | Some part => part
                               | None => ""
                               end) with
          | None => None
          | Some v =>
              extractFrom rest' pathParts patternLength (S i)
                          (JsObject.set (sliceFrom 1 patternPart) v params)
          end
        else Some None
      else if strictEq (Some patternPart) (nth_error pathParts i)
           then extractFrom rest' pathParts patternLength (S i) params
           else Some None
  end.

Definition extractParams (pattern path : string) : option (option JsObject.t) :=
  let patternParts := split "/" pattern in
  let pathParts := split "/" path in
  extractFrom patternParts pathParts (List.length patternParts) 0 JsObject.empty.

(** The [routes] map, in insertion order. *)
Variable Handler : Type.

Definition Routes := list (string * Handler).

Fixpoint lookup (path : string) (routes : Routes) : option Handler :=
  match routes with
  | [] => None
  | (k, h) :: routes' => if String.eqb path k then Some h else lookup path routes'
  end.

(** [Router.add(path, handler)]: [routes.set]. *)
Fixpoint add (path : string) (handler : Handler) (routes : Routes) : Routes :=
  match routes with
  | [] => [(path, handler)]
  | (k, h) :: routes' =>
      if String.eqb path k then (k, handler) :: routes'
      else (k, h) :: add path handler routes'
  end.

(** The pattern loop of [findRoute]. *)
Fixpoint findPattern (entries : Routes) (path : string)
  : option (option (Handler * JsObject.t)) :=
  match entries with
  | [] => Some None
  | (pattern, handler) :: entries' =>
      match extractParams pattern path with
      | None => None
      | Some (Some params) => Some (Some (handler, params))
      | Some None => findPattern entries' path
      end
  end.

Definition findRoute (routes : Routes) (path : string)
  : option (option (Handler * JsObject.t)) :=
  match lookup path routes with
  | Some handler => Some (Some (handler, JsObject.empty))
  | None => findPattern routes path
  end.

(** *** What a match is, part by part *)

Definition isParam (patternPart : string) : bool := startsWith ":" patternPart.

Definition isStar (patternPart : string) : bool := String.eqb patternPart "*".

Definition literalPart (patternPart : string) : bool :=
  negb (isStar patternPart) && negb (isParam patternPart).

(** The loop of [extractParams] on the path parts from index [i] on. *)
Fixpoint matchParts (rest parts : list string) (params : JsObject.t)
  : option (option JsObject.t) :=
  match rest with
  | [] => Some (match parts with [] => Some params | _ :: _ => None end)
  | patternPart :: rest' =>
      if isStar patternPart then
        match sanitizeAll parts with
        | None => None
        | Some vs => Some (Some (JsObject.set "wildcard" (join "/" vs) params))
        end
      else
        match parts with
        | [] => Some None
        | part :: parts' =>
            if isParam patternPart then
              if JsString.truthy part then
                match sanitizeParam part with
                | None => None
                | Some v =>
                    matchParts rest' parts'
                               (JsObject.set (sliceFrom 1 patternPart) v params)
                end
              else Some None
            else if String.eqb patternPart part
                 then matchParts rest' parts' params
                 else Some None
        end
  end.

(** A pattern part that is not the star accepts a path part. *)
Definition accepts (patternPart part : string) : Prop :=
  if isParam patternPart
  then part <> "" /\ sanitizeParam part <> None
  else patternPart = part.

End Matching.

End Router.

(** ** [Lifecycle] *)

Module Lifecycle.

Section Callbacks.

Variable Cb : Type.

(** The [{ onLoad: [], onUnload: [] }] objects. *)
Record Hooks := mkHooks {
  onLoadCallbacks : list Cb;
  onUnloadCallbacks : list Cb
}.

Definition noHooks : Hooks := mkHooks [] [].

Record t := mk {
  current : Hooks;
  next : Hooks;
  mountedOnce : bool
}.

Definition initial : t := mk noHooks noHooks false.

(** A callback called; one that throws is called all the same, and the
    error is logged. *)
Inductive Event :=
| Loaded (cb : Cb)
| Unloaded (cb : Cb).

Definition onLoad (cb : Cb) (s : t) : t :=
  mk (current s)
     (mkHooks (onLoadCallbacks (next s) ++ [cb]) (onUnloadCallbacks (next s)))
     (mountedOnce s).

Definition onUnload (cb : Cb) (s : t) : t :=
  mk (current s)
     (mkHooks (onLoadCallbacks (next s)) (onUnloadCallbacks (next s) ++ [cb]))
     (mountedOnce s).

Definition triggerUnload (s : t) : t * list Event :=
  if negb (mountedOnce s) then (s, [])
  else (mk noHooks (next s) (mountedOnce s),
        map Unloaded (onUnloadCallbacks (current s))).

Definition promoteAndLoad (s : t) : t * list Event :=
  (mk (next s) noHooks true, map Loaded (onLoadCallbacks (next s))).

(** Calls of the four methods, one after the other. *)
Inductive Op :=
| OnLoad (cb : Cb)
| OnUnload (cb : Cb)
| TriggerUnload
| PromoteAndLoad.

Definition step (s : t) (op : Op) : t * list Event :=
  match op with
  | OnLoad cb => (onLoad cb s, [])
  | OnUnload cb => (onUnload cb s, [])
  | TriggerUnload => triggerUnload s
  | PromoteAndLoad => promoteAndLoad s
  end.

Fixpoint run (s : t) (ops : list Op) : t * list Event :=
  match ops with
  | [] => (s, [])
  | op :: ops' =>
      let (s1, events1) := step s op in
      let (s2, events2) := run s1 ops' in
      (s2, events1 ++ events2)
  end.

(** What the application does: it registers callbacks and renders, and a
    render calls [triggerUnload] before and [promoteAndLoad] after its
    work on the document. *)
Inductive Action :=
| RegisterLoad (cb : Cb)
| RegisterUnload (cb : Cb)
| Render.

Definition opsOf (a : Action) : list Op :=
  match a with
  | RegisterLoad cb => [OnLoad cb]
  | RegisterUnload cb => [OnUnload cb]
  | Render => [TriggerUnload; PromoteAndLoad]
  end.

Definition loadsOf (actions : list Action) : list Cb :=
  flat_map (fun a => match a with RegisterLoad cb => [cb] | _ => [] end) actions.

Definition unloadsOf (actions : list Action) : list Cb :=
  flat_map (fun a => match a with RegisterUnload cb => [cb] | _ => [] end) actions.

Definition loaded (events : list Event) : list Cb :=
  flat_map (fun e => match e with Loaded cb => [cb] | _ => [] end) events.

Definition unloaded (events : list Event) : list Cb :=
  flat_map (fun e => match e with Unloaded cb => [cb] | _ => [] end) events.

(** Nothing is current before the first mount. *)
Definition settled (s : t) : Prop :=
  mountedOnce s = false -> current s = noHooks.

End Callbacks.

End Lifecycle.

(** ** [helpers.throttle] *)

Module Helpers.

(** One call of the throttled function at clock reading [now], in whole
    milliseconds as [Date.now()] gives them: the new [lastCall], and
    whether [fn] was called. *)
Definition throttle (delay lastCall now : Z) : Z * bool :=
  if (now - lastCall >=? delay)%Z then (now, true) else (lastCall, false).

(** The clock readings of the calls that went through to [fn]. *)
Fixpoint throttled (delay lastCall : Z) (clock : list Z) : list Z :=
  match clock with
  | [] => []
  | now :: clock' =>
      let (lastCall', called) := throttle delay lastCall now in
      if called then now :: throttled delay lastCall' clock'
      else throttled delay lastCall' clock'
  end.

(** Each reading is at least [delay] after the one before it. *)
Fixpoint apart (delay previous : Z) (times : list Z) : Prop :=
  match times with
  | [] => True
  | t :: times' => (t - previous >= delay)%Z /\ apart delay t times'
  end.

Inductive subsequence {A : Type} : list A -> list A -> Prop :=
| subsequence_nil : subsequence [] []
| subsequence_skip x l1 l2 : subsequence l1 l2 -> subsequence l1 (x :: l2)
| subsequence_take x l1 l2 : subsequence l1 l2 -> subsequence (x :: l1) (x :: l2).

End Helpers.

(** ** [State]: subscriptions and persistence *)

Module State.

Section Store.

(** Values, and callbacks with the identity test [indexOf] uses. *)
Variables V Cb : Type.
Variable sameCallback : Cb -> Cb -> bool.

(** [typeof localStorage !== 'undefined'] *)
Variable hasLocalStorage : bool.

(** [store], [subscribers] and [persistKeys], in insertion order. *)
Record t := mk {
  store : list (string * V);
  subscribers : list (string * list Cb);
  persistKeys : list string
}.

Fixpoint mapGet {A : Type} (key : string) (m : list (string * A)) : option A :=
  match m with
  | [] => None
  | (k, v) :: m' => if String.eqb key k then Some v else mapGet key m'
  end.

Fixpoint mapSet {A : Type} (key : string) (v : A) (m : list (string * A))
  : list (string * A) :=
  match m with
  | [] => [(key, v)]
  | (k, w) :: m' =>
      if String.eqb key k then (k, v) :: m' else (k, w) :: mapSet key v m'
  end.

Definition mapHas {A : Type} (key : string) (m : list (string * A)) : bool :=
  match mapGet key m with Some _ => true | None => false end.

(** [persistKeys.has] and [persistKeys.add] *)
Definition setHas (key : string) (keys : list string) : bool :=
  existsb (String.eqb key) keys.

Definition setAdd (key : string) (keys : list string) : list string :=
  if setHas key keys then keys else keys ++ [key].

(** A subscriber called with a value and a key, and the object handed
    to [JSON.stringify] for [localStorage.setItem]. *)
Inductive Event :=
| Notified (cb : Cb) (value : V) (key : string)
| Saved (toSave : list (string * V)).

(** [toSave[key] = v] on the object literal [toSave]: an own property,
    but for the key [__proto__], which the accessor of [Object.prototype]
    takes and for which no own property is made. *)
Definition assign (key : string) (v : V) (toSave : list (string * V))
  : list (string * V) :=
  if String.eqb key "__proto__" then toSave else mapSet key v toSave.

(** The loop of [savePersisted]. *)
Fixpoint collect (keys : list string) (st : list (string * V))
    (toSave : list (string * V)) : list (string * V) :=
  match keys with
  | [] => toSave
  | key :: keys' =>
      collect keys' st
              (match mapGet key st with
               | Some v => assign key v toSave
               | None => toSave
               end)
  end.

Definition savePersisted (s : t) : list Event :=
  if hasLocalStorage then [Saved (collect (persistKeys s) (store s) [])] else [].

(** [subscribers.get(key) || []] *)
Definition subscribersOf (key : string) (s : t) : list Cb :=
  match mapGet key (subscribers s) with
  | Some l => l
  | None => []
  end.

Definition notifySubscribers (key : string) (value : V) (s : t) : list Event :=
  map (fun cb => Notified cb value key) (subscribersOf key s).

Definition set (key : string) (value : V) (s : t) : t * list Event :=
  let s' := mk (mapSet key value (store s)) (subscribers s) (persistKeys s) in
  (s', notifySubscribers key value s'
       ++ (if setHas key (persistKeys s') then savePersisted s' else [])).

Definition get (key : string) (s : t) : option V := mapGet key (store s).

(** [updater] gets [None] for [undefined]. *)
Definition update (key : string) (updater : option V -> V) (s : t)
  : t * list Event :=
  let currentValue := mapGet key (store s) in
  let newValue := updater currentValue in
  let s' := mk (mapSet key newValue (store s)) (subscribers s) (persistKeys s) in
  (s', notifySubscribers key newValue s'
       ++ (if setHas key (persistKeys s') then savePersisted s' else [])).

Definition subscribe (key : string) (callback : Cb) (s : t) : t :=
  let subs := if negb (mapHas key (subscribers s))
              then mapSet key [] (subscribers s)
              else subscribers s in
  match mapGet key subs with
  | Some keySubscribers =>
      mk (store s) (mapSet key (keySubscribers ++ [callback]) subs) (persistKeys s)
  | None => s
  end.

(** [indexOf] and [splice(index, 1)] *)
Fixpoint indexOf (callback : Cb) (l : list Cb) : option nat :=
  match l with
  | [] => None
  | cb :: l' =>
      if sameCallback cb callback then Some 0
      else match indexOf callback l' with
           | Some i => Some (S i)
           | None => None
           end
  end.

Definition splice1 (index : nat) (l : list Cb) : list Cb :=
  firstn index l ++ skipn (S index) l.

(** The function [subscribe] returns. *)
Definition unsubscribe (key : string) (callback : Cb) (s : t) : t :=
  match mapGet key (subscribers s) with
  | Some keySubscribers =>
      match indexOf callback keySubscribers with
      | Some index =>
          mk (store s) (mapSet key (splice1 index keySubscribers) (subscribers s))
             (persistKeys s)
      | None => s
      end
  | None => s
  end.

Definition persist (key : string) (s : t) : t * list Event :=
  let s' := mk (store s) (subscribers s) (setAdd key (persistKeys s)) in
  (s', savePersisted s').

End Store.

Section Computed.

(** [State.computed(keys, computer)]: the memo the returned [compute]
    closes over.  A value of the store is [None] when [store.get] gives
    [undefined]; [differs] is [!==]; [computer] gives [None] where it
    throws, and [compute] then returns [undefined], which is [None]. *)
Variables V R : Type.
Variable sameValue : V -> V -> bool.

Record Memo := mkMemo {
  cachedValue : option R;
  cachedKeys : list (option V);
  isInitialized : bool
}.

Definition noMemo : Memo := mkMemo None [] false.

Definition differs (v c : option V) : bool :=
  match v, c with
  | Some a, Some b => negb (sameValue a b)
  | None, None => false
  | _, _ => true
  end.

(** [values.some((v, i) => v !== cachedKeys[i])] *)
Fixpoint someDiffers (values cached : list (option V)) : bool :=
  match values with
  | [] => false
  | v :: values' =>
      differs v (match cached with c :: _ => c | [] => None end)
      || someDiffers values' (match cached with _ :: cached' => cached' | [] => [] end)
  end.

(** One call of [compute] on a store: what it returns, the memo
    afterwards, and whether [computer] was called. *)
Definition compute (keys : list string) (computer : list (option V) -> option R)
    (st : list (string * V)) (m : Memo) : option R * Memo * bool :=
  let values := map (fun key => mapGet key st) keys in
  let hasChanged := negb (isInitialized m) || someDiffers values (cachedKeys m) in
  if hasChanged then
    match computer values with
    | Some r => (Some r, mkMemo (Some r) values true, true)
    | None => (None, m, true)
    end
  else (cachedValue m, m, false).

(** Calls of [compute], the store being what it is at each call. *)
Fixpoint computeAll (keys : list string) (computer : list (option V) -> option R)
    (stores : list (list (string * V))) (m : Memo) : list (option R) :=
  match stores with
  | [] => []
  | st :: stores' =>
      let r := compute keys computer st m in
      fst (fst r) :: computeAll keys computer stores' (snd (fst r))
  end.

(** The memo holds what [computer] gives on the values it was filled
    from. *)
Definition memoRight (keys : list string) (computer : list (option V) -> option R)
    (m : Memo) : Prop :=
  isInitialized m = true ->
  List.length (cachedKeys m) = List.length keys
  /\ cachedValue m = computer (cachedKeys m).

End Computed.

End State.

(** ** [createApp]: [render] *)

Module App.

(** The text of the [catch] block of [render]. *)
Definition renderError (message : option string) : string :=
  String.append "<div style="
    (String.append TemplateEngine.doubleQuote
    (String.append "color: red; padding: 20px;"
    (String.append TemplateEngine.doubleQuote
    (String.append ">"
    (String.append TemplateEngine.LF
    (String.append "            <strong>Render Error:</strong> "
    (String.append (TemplateEngine.escapeHTML message)
    (String.append TemplateEngine.LF "          </div>")))))))).

Section Render.

Variable B : Browser.
Variables Cb Data : Type.
Variable cacheKeyOf : string -> Data -> string + TemplateEngine.Thrown.
Variables compileEach compileIf compileUnless compileVariables
  : string -> Data -> string.

(** [error.message] of an exception of the engine or of the document. *)
Variable messageOf : Exn -> option string.

(** What [render] reads and writes: the lifecycle, the container element,
    [lastHTML] and the template cache. *)
Record t := mk {
  lifecycle : Lifecycle.t Cb;
  element : DomNode;
  lastHTML : string;
  cache : Assoc.t
}.

Inductive Event :=
| Called (e : Lifecycle.Event Cb)
| Mutated (m : Mutation).

Inductive Result :=
| Rendered (app : t) (events : list Event)
| Failed (events : list Event).

(** The body of the [try] block once the template is compiled, which is
    also the body of the [catch] block with the error text as [html]: the
    element and [lastHTML] afterwards. *)
Definition show (useDiff : bool) (html : string) (app : t)
  : Outcome (DomNode * string) :=
  if useDiff
  then el <- diff B (element app) (lastHTML app) html ;; ret (el, html)
  else el <- setInnerHTML B (element app) html ;; ret (el, lastHTML app).

(** The text [render] shows: the compiled text, the text of its [catch]
    block where [compile] throws, and none where the [catch] block
    throws in turn. *)
Definition shownText (compiled : string + TemplateEngine.Thrown) : option string :=
  match compiled with
  | inl html => Some html
  | inr error =>
      match TemplateEngine.message messageOf error with
      | inl text => Some (renderError text)
      | inr _ => None
      end
  end.

(** [render]; [Failed] is an exception leaving it.  The [catch] block
    runs when [compile] throws, and when showing the compiled text does;
    it is written on the element as it was before the [try] block. *)
Definition render (useDiff : bool) (template : string) (data : Data) (app : t)
  : Result :=
  let unload := Lifecycle.triggerUnload (lifecycle app) in
  let compiled :=
    TemplateEngine.compile cacheKeyOf compileEach compileIf compileUnless
                           compileVariables messageOf data template (cache app) in
  let finish := fun (shown : DomNode * string) (log : list Mutation) =>
    let load := Lifecycle.promoteAndLoad (fst unload) in
    Rendered (mk (fst load) (fst shown) (snd shown) (snd compiled))
             (map Called (snd unload) ++ map Mutated log ++ map Called (snd load)) in
  let catch := fun (error : TemplateEngine.Thrown) (log : list Mutation) =>
    match TemplateEngine.message messageOf error with
    | inl text =>
        match show useDiff (renderError text) app with
        | Return shown log' => finish shown (log ++ log')
        | Throw _ log' => Failed (map Called (snd unload) ++ map Mutated (log ++ log'))
        end
    | inr _ => Failed (map Called (snd unload) ++ map Mutated log)
    end in
  match fst compiled with
  | inl html =>
      match show useDiff html app with
      | Return shown log => finish shown log
      | Throw e log => catch (TemplateEngine.Described (messageOf e)) log
      end
  | inr error => catch error []
  end.

End Render.

Arguments Called {Cb} e.
Arguments Mutated {Cb} m.
Arguments Rendered {Cb} app events.
Arguments Failed {Cb} events.

Definition mutations {Cb : Type} (events : list (Event Cb)) : list Mutation :=
  flat_map (fun e => match e with Mutated m => [m] | Called _ => [] end) events.

End App.

(** * Properties *)

(** ** Outcomes and loops *)

Lemma logOf_bind {A B} (m : Outcome A) (f : A -> Outcome B) :
  logOf (bind m f) =
  logOf m ++ match m with Return a _ => logOf (f a) | Throw _ _ => [] end.
Proof.
  destruct m as [a l|e l]; simpl.
  - destruct (f a); reflexivity.
  - now rewrite app_nil_r.
Qed.

Lemma resultOf_bind {A B} (m : Outcome A) (f : A -> Outcome B) :
  resultOf (bind m f) =
  match m with Return a _ => resultOf (f a) | Throw _ _ => None end.
Proof.
  destruct m as [a l|e l]; simpl; [destruct (f a)|]; reflexivity.
Qed.

Lemma bind_Return {A B} (m : Outcome A) (f : A -> Outcome B) b l :
  bind m f = Return b l ->
  exists a l1 l2, m = Return a l1 /\ f a = Return b l2 /\ l = l1 ++ l2.
Proof.
  destruct m as [a l1|e l1]; simpl; [|discriminate].
  destruct (f a) as [b' l2|e l2] eqn:E; [|discriminate].
  intros H; injection H as <- <-. now exists a, l1, l2.
Qed.

(** Loop invariant for [forEach].  [P done log s] relates the keys handled
    so far and the mutations issued so far to the receiver; [T log] is
    what is known of the mutations issued when a turn throws. *)
Lemma forEach_invariant {K S : Type}
    (P : list K -> list Mutation -> S -> Prop) (T : list Mutation -> Prop)
    (f : K -> S -> Outcome S) (l : list K) :
  (forall done k rest lg s,
      l = done ++ k :: rest -> P done lg s ->
      match f k s with
      | Return s' l1 => P (done ++ [k]) (lg ++ l1) s'
      | Throw _ l1 => T (lg ++ l1)
      end) ->
  forall s, P [] [] s ->
  match forEach l f s with
  | Return s' lg => P l lg s'
  | Throw _ lg => T lg
  end.
Proof.
  intros Hstep.
  assert (G : forall rest done lg s,
             l = done ++ rest -> P done lg s ->
             match forEach rest f s with
             | Return s' l1 => P l (lg ++ l1) s'
             | Throw _ l1 => T (lg ++ l1)
             end).
  { induction rest as [|k rest IH]; intros done lg s El HP; simpl.
    - rewrite app_nil_r in *. now subst l.
    - assert (Hk := Hstep done k rest lg s El HP).
      destruct (f k s) as [s' l1|e l1]; simpl.
      + assert (El' : l = (done ++ [k]) ++ rest) by (now rewrite <- app_assoc).
        specialize (IH (done ++ [k]) (lg ++ l1) s' El' Hk).
        destruct (forEach rest f s') as [s'' l2|e l2];
          now rewrite app_assoc.
      + exact Hk. }
  intros s HP. exact (G l [] [] s eq_refl HP).
Qed.

(** ** Association lists *)


Lemma get_remove_other key k o :
  key <> k -> JsObject.get key (Assoc.remove k o) = JsObject.get key o.
Proof.
  intros Hne. induction o as [|[k' v] o IH]; simpl; [reflexivity|].
  destruct (String.eqb k k') eqn:E; simpl.
  - apply String.eqb_eq in E; subst k'.
    destruct (String.eqb key k) eqn:E'; [apply String.eqb_eq in E'; contradiction|exact IH].
  - now rewrite IH.
Qed.

Lemma get_set_same key v o : JsObject.get key (Assoc.set key v o) = Some v.
Proof.
  induction o as [|[k w] o IH]; simpl.
  - now rewrite String.eqb_refl.
  - destruct (String.eqb key k) eqn:E; simpl; now rewrite E.
Qed.

Lemma get_set_other key k v o :
  key <> k -> JsObject.get key (Assoc.set k v o) = JsObject.get key o.
Proof.
  intros Hne. induction o as [|[k' w] o IH]; simpl.
  - destruct (String.eqb key k) eqn:E; [apply String.eqb_eq in E; contradiction|reflexivity].
  - destruct (String.eqb k k') eqn:E; simpl.
    + apply String.eqb_eq in E; subst k'.
      destruct (String.eqb key k) eqn:E'; [apply String.eqb_eq in E'; contradiction|reflexivity].
    + now rewrite IH.
Qed.

(** Assignment to a property of an object. *)
Lemma get_assign_same key v o :
  key <> "__proto__" -> JsObject.get key (JsObject.set key v o) = Some v.
Proof.
  intros H. unfold JsObject.set. apply String.eqb_neq in H. rewrite H.
  apply get_set_same.
Qed.

Lemma get_assign_other key k v o :
  k <> key -> JsObject.get key (JsObject.set k v o) = JsObject.get key o.
Proof.
  intros H. unfold JsObject.set. destruct (String.eqb k "__proto__"); [reflexivity|].
  now apply get_set_other.
Qed.

Lemma has_keys key o : Assoc.has key o = true <-> In key (JsObject.keys o).
Proof.
  unfold Assoc.has, JsObject.keys.
  induction o as [|[k v] o IH]; simpl.
  - split; [discriminate|tauto].
  - destruct (String.eqb key k) eqn:E.
    + apply String.eqb_eq in E. split; auto.
    + apply String.eqb_neq in E. rewrite IH. split; [now right|].
      intros [H|H]; [congruence|exact H].
Qed.

Lemma strictEq_true a b : strictEq a b = true <-> a = b.
Proof.
  destruct a as [x|], b as [y|]; simpl; try (split; [discriminate|congruence]).
  - rewrite String.eqb_eq. split; congruence.
  - split; reflexivity.
Qed.

(** ** Attribute reconciliation *)

Lemma replay_app l1 l2 p : replay (l1 ++ l2) p = replay l2 (replay l1 p).
Proof. apply fold_left_app. Qed.

(** What an assignment of the value leaves as it was, and what it sets. *)
Lemma assignValue_Some p v p' :
  assignValue p v = Some p' ->
  tagName p' = tagName p /\ hasFocus p' = hasFocus p /\ checked p' = checked p
  /\ dirtyValue p' = Some v
  /\ forall key, key <> "value" ->
                 Assoc.get key (attributes p') = Assoc.get key (attributes p).
Proof.
  unfold assignValue.
  destruct (String.eqb (tagName p) "INPUT");
    [destruct (valueMode p); try destruct (String.eqb v EmptyString)|];
    intros H; inversion H; subst; simpl; repeat split; try reflexivity;
    intros key Hk; apply get_set_other; exact Hk.
Qed.


Lemma applyMutation_tagName m p : tagName (applyMutation m p) = tagName p.
Proof.
  destruct m; try reflexivity. simpl.
  destruct (assignValue p value) eqn:E; [|reflexivity]. now apply assignValue_Some in E.
Qed.

Lemma applyMutation_hasFocus m p : hasFocus (applyMutation m p) = hasFocus p.
Proof.
  destruct m; try reflexivity. simpl.
  destruct (assignValue p value) eqn:E; [|reflexivity]. now apply assignValue_Some in E.
Qed.

Lemma applyMutation_dirtyValue m p :
  dirtyValue (applyMutation m p)
  = match m with SetValue v => Some v | _ => dirtyValue p end.
Proof.
  destruct m; try reflexivity. simpl.
  destruct (assignValue p value) eqn:E; [|reflexivity]. now apply assignValue_Some in E.
Qed.

Lemma applyMutation_checked m p :
  checked (applyMutation m p)
  = match m with SetChecked b => b | _ => checked p end.
Proof.
  destruct m; try reflexivity. simpl.
  destruct (assignValue p value) eqn:E; [|reflexivity]. now apply assignValue_Some in E.
Qed.

Lemma replay_tagName lg p : tagName (replay lg p) = tagName p.
Proof.
  revert p. induction lg as [|m lg IH]; intros p; simpl; [reflexivity|].
  unfold replay in IH. now rewrite IH, applyMutation_tagName.
Qed.

Lemma replay_hasFocus lg p : hasFocus (replay lg p) = hasFocus p.
Proof.
  revert p. induction lg as [|m lg IH]; intros p; simpl; [reflexivity|].
  unfold replay in IH. now rewrite IH, applyMutation_hasFocus.
Qed.

Lemma writeFor_replay lg p k v : writeFor (replay lg p) k v = writeFor p k v.
Proof. unfold writeFor. now rewrite replay_tagName, replay_hasFocus. Qed.

(** The first loop on an element: one [removeAttribute] for each name of
    the old map that the new map lacks, and no exception. *)
Lemma removeStale_loop newAttrs cs l p :
  forEach l (removeStale newAttrs) (Some (ElementNode p cs)) =
  let removed := filter (fun key => negb (JsObject.has key newAttrs)) l in
  Return (Some (ElementNode (replay (map RemoveAttribute removed) p) cs))
         (map RemoveAttribute removed).
Proof.
  revert p. induction l as [|k l IH]; intros p; simpl; [reflexivity|].
  unfold removeStale at 1.
  destruct (JsObject.has k newAttrs); simpl.
  - now rewrite IH.
  - now rewrite IH.
Qed.

(** The old value read through the prototype is the own value wherever
    it is compared with a string. *)
Lemma isString_read v key o :
  JsObject.isString v (JsObject.read key o) = strictEq (Some v) (JsObject.get key o).
Proof.
  unfold JsObject.read. destruct (Assoc.get key o); simpl; [reflexivity|].
  now destruct (JsObject.inherited key).
Qed.

(** One turn of the second loop on an element. *)
Lemma updateAttribute_element B oldAttrs newAttrs key p cs :
  updateAttribute B oldAttrs newAttrs key (Some (ElementNode p cs)) =
  match JsObject.get key newAttrs with
  | None => ret (Some (ElementNode p cs))
  | Some v =>
      if strictEq (Some v) (JsObject.get key oldAttrs) then ret (Some (ElementNode p cs))
      else
        match writeFor p key v with
        | None => ret (Some (ElementNode p cs))
        | Some m =>
            match refused B p m with
            | Some e => Throw e []
            | None => Return (Some (ElementNode (applyMutation m p) cs)) [m]
            end
        end
  end.
Proof.
  unfold updateAttribute, writeFor.
  destruct (JsObject.get key newAttrs) as [v|]; [|reflexivity].
  cbv zeta. rewrite isString_read.
  destruct (strictEq (Some v) (JsObject.get key oldAttrs)); simpl; [reflexivity|].
  destruct (String.eqb key "value"); simpl.
  - destruct (String.eqb (tagName p) "INPUT"); simpl.
    + destruct (hasFocus p); [reflexivity|]. simpl.
      destruct (assignValue p v); reflexivity.
    + destruct (String.eqb key "checked"); simpl; [reflexivity|].
      destruct (validAttributeName B key); reflexivity.
  - destruct (String.eqb key "checked"); simpl; [reflexivity|].
    destruct (validAttributeName B key); reflexivity.
Qed.

Section WriteLoop.

Variable B : Browser.
Variables oldAttrs newAttrs : JsObject.t.
Variable p : ElementProps.
Variable cs : list DomNode.

#[local] Abbreviation due := (dueWrite oldAttrs newAttrs p).

Lemma due_snoc done k m :
  due (done ++ [k]) m ->
  due done m
  \/ exists v, JsObject.get k newAttrs = Some v
               /\ JsObject.get k oldAttrs <> Some v
               /\ writeFor p k v = Some m.
Proof.
  intros (key & v & Hk & Hn & Ho & Hw).
  apply in_app_or in Hk. destruct Hk as [Hk|[Hk|[]]].
  - left. now exists key, v.
  - subst key. right. now exists v.
Qed.

Lemma write_step p1 k :
  tagName p1 = tagName p -> hasFocus p1 = hasFocus p ->
  In k (JsObject.keys newAttrs) ->
  match updateAttribute B oldAttrs newAttrs k (Some (ElementNode p1 cs)) with
  | Return s l1 =>
      s = Some (ElementNode (replay l1 p1) cs)
      /\ Forall (due [k]) l1
      /\ (forall m, due [k] m -> In m l1)
  | Throw _ l1 =>
      l1 = [] /\ exists m, due [k] m /\ refused B p1 m <> None
  end.
Proof.
  intros Htag Hfoc Hin.
  assert (W : forall v, writeFor p1 k v = writeFor p k v)
    by (intros; unfold writeFor; now rewrite Htag, Hfoc).
  assert (Hnone : forall v, JsObject.get k newAttrs = Some v ->
                            (JsObject.get k oldAttrs <> Some v -> writeFor p k v = None) ->
                            forall m, due [k] m -> False).
  { intros v En Hw m (key & v' & [<-|[]] & Hn & Ho & Hw').
    assert (v' = v) by congruence. subst v'. rewrite (Hw Ho) in Hw'. discriminate. }
  rewrite updateAttribute_element.
  destruct (JsObject.get k newAttrs) as [v|] eqn:En.
  - destruct (strictEq (Some v) (JsObject.get k oldAttrs)) eqn:Es.
    + repeat split; [constructor|]. intros m Hm. exfalso.
      apply (Hnone v eq_refl) with (m := m); [|exact Hm].
      intros Ho. apply strictEq_true in Es. congruence.
    + assert (Ho : JsObject.get k oldAttrs <> Some v).
      { intros E. rewrite E in Es. simpl in Es. now rewrite String.eqb_refl in Es. }
      rewrite W. destruct (writeFor p k v) as [m|] eqn:Ew.
      * assert (Hdue : due [k] m) by (exists k, v; simpl; auto).
        destruct (refused B p1 m) as [e|] eqn:Ev.
        -- split; [reflexivity|]. exists m. split; [exact Hdue|]. congruence.
        -- repeat split.
           ++ constructor; [exact Hdue|constructor].
           ++ intros m' (key & v' & [<-|[]] & Hn & _ & Hw').
              assert (v' = v) by congruence. subst v'.
              left. congruence.
      * repeat split; [constructor|]. intros m Hm. exfalso.
        now apply (Hnone v eq_refl) with (m := m).
  - repeat split; [constructor|].
    intros m (key & v' & [<-|[]] & Hn & _). congruence.
Qed.

Lemma due_mono keys keys' m :
  (forall k, In k keys -> In k keys') -> due keys m -> due keys' m.
Proof.
  intros Hsub (key & v & Hk & H). exists key, v. split; [now apply Hsub|exact H].
Qed.

(** The second loop on an element: the element afterwards is the one
    the logged writes leave, the writes are exactly those due, and an
    exception comes from a due write that the element, as the writes
    before it left it, refuses. *)
Lemma write_loop p1 :
  tagName p1 = tagName p -> hasFocus p1 = hasFocus p ->
  match forEach (JsObject.keys newAttrs) (updateAttribute B oldAttrs newAttrs)
                (Some (ElementNode p1 cs)) with
  | Return s lg =>
      s = Some (ElementNode (replay lg p1) cs)
      /\ Forall (due (JsObject.keys newAttrs)) lg
      /\ (forall m, due (JsObject.keys newAttrs) m -> In m lg)
  | Throw _ lg =>
      Forall (due (JsObject.keys newAttrs)) lg
      /\ exists m, due (JsObject.keys newAttrs) m /\ refused B (replay lg p1) m <> None
  end.
Proof.
  intros Htag Hfoc.
  pose (P := fun (done : list string) (lg : list Mutation) (s : option DomNode) =>
               s = Some (ElementNode (replay lg p1) cs)
               /\ Forall (due (JsObject.keys newAttrs)) lg
               /\ (forall m, due done m -> In m lg)).
  pose (T := fun (lg : list Mutation) =>
               Forall (due (JsObject.keys newAttrs)) lg
               /\ exists m, due (JsObject.keys newAttrs) m
                            /\ refused B (replay lg p1) m <> None).
  apply (@forEach_invariant _ _ P T).
  - intros done k rest lg s El (Hs & Hall & Hcomplete). subst s.
    assert (Hin : In k (JsObject.keys newAttrs))
      by (rewrite El; apply in_or_app; right; now left).
    assert (Hstep := @write_step (replay lg p1) k).
    rewrite replay_tagName, replay_hasFocus in Hstep.
    specialize (Hstep Htag Hfoc Hin).
    destruct (updateAttribute B oldAttrs newAttrs k
                (Some (ElementNode (replay lg p1) cs))) as [s' l1|e l1].
    + destruct Hstep as (Hs' & Hall' & Hc'). repeat split.
      * now rewrite replay_app.
      * apply Forall_app. split; [exact Hall|].
        eapply Forall_impl; [|exact Hall'].
        intros m. apply due_mono. intros k' [<-|[]]. exact Hin.
      * intros m Hm. apply in_or_app.
        apply due_snoc in Hm. destruct Hm as [Hm|(v & Hn & Ho & Hw)].
        -- left. now apply Hcomplete.
        -- right. apply Hc'. exists k, v. simpl. auto.
    + destruct Hstep as (-> & m & Hd & Hr). split.
      * now rewrite app_nil_r.
      * exists m. rewrite app_nil_r. split; [|exact Hr].
        revert Hd. apply due_mono. intros k' [<-|[]]. exact Hin.
  - repeat split; [constructor|]. intros m (key & v & [] & _).
Qed.

End WriteLoop.


(** [updateAttributes] on an element: the removals come first, one for
    each stale name; the writes are exactly those due; the element
    afterwards is the one the log leaves; an exception comes from a due
    write that the element, as the log left it, refuses. *)
Lemma updateAttributes_element B p cs oldAttrs newAttrs :
  exists writes,
    logOf (updateAttributes B (Some (ElementNode p cs)) oldAttrs newAttrs)
    = map RemoveAttribute (staleKeys oldAttrs newAttrs) ++ writes
    /\ Forall (dueWrite oldAttrs newAttrs p (JsObject.keys newAttrs)) writes
    /\ match updateAttributes B (Some (ElementNode p cs)) oldAttrs newAttrs with
       | Return s lg =>
           s = Some (ElementNode (replay lg p) cs)
           /\ (forall m, dueWrite oldAttrs newAttrs p (JsObject.keys newAttrs) m ->
                         In m writes)
       | Throw _ lg =>
           exists m, dueWrite oldAttrs newAttrs p (JsObject.keys newAttrs) m
                     /\ refused B (replay lg p) m <> None
       end.
Proof.
  unfold updateAttributes. rewrite removeStale_loop. cbv zeta.
  fold (staleKeys oldAttrs newAttrs).
  set (removals := map RemoveAttribute (staleKeys oldAttrs newAttrs)).
  assert (H := @write_loop B oldAttrs newAttrs p cs (replay removals p)
                 (replay_tagName _ _) (replay_hasFocus _ _)).
  unfold bind.
  destruct (forEach (JsObject.keys newAttrs) (updateAttribute B oldAttrs newAttrs)
              (Some (ElementNode (replay removals p) cs))) as [s lg|e lg].
  - destruct H as (Hs & Hall & Hc). exists lg. simpl. repeat split; auto.
    now rewrite replay_app.
  - destruct H as (Hall & m & Hd & Hr). exists lg. simpl. repeat split; auto.
    exists m. rewrite replay_app. auto.
Qed.

Lemma replay_snoc lg m p : replay (lg ++ [m]) p = applyMutation m (replay lg p).
Proof. now rewrite replay_app. Qed.

(** What one mutation does to an attribute it does not affect. *)
Lemma applyMutation_attribute_kept key m p :
  affects key m = false ->
  Assoc.get key (attributes (applyMutation m p)) = Assoc.get key (attributes p).
Proof.
  intros H. destruct m; simpl in *; try reflexivity.
  - apply get_remove_other. apply String.eqb_neq. now rewrite String.eqb_sym.
  - apply get_set_other. apply String.eqb_neq. now rewrite String.eqb_sym.
  - destruct (assignValue p value) eqn:E; [|reflexivity].
    apply assignValue_Some in E. apply E. now apply String.eqb_neq.
Qed.

(** An attribute no logged mutation affects is as it was. *)
Lemma replay_attribute_kept key lg p :
  (forall m, In m lg -> affects key m = false) ->
  Assoc.get key (attributes (replay lg p)) = Assoc.get key (attributes p).
Proof.
  induction lg as [|m lg IH] using rev_ind; intros H; [reflexivity|].
  rewrite replay_snoc.
  assert (Hm : affects key m = false) by (apply H, in_or_app; right; now left).
  rewrite <- IH by (intros m' Hm'; apply H, in_or_app; now left).
  now apply applyMutation_attribute_kept.
Qed.




Lemma replay_dirtyValue_kept lg p :
  (forall m, In m lg -> isSetValue m = false) ->
  dirtyValue (replay lg p) = dirtyValue p.
Proof.
  induction lg as [|m lg IH] using rev_ind; intros H; [reflexivity|].
  rewrite replay_snoc.
  assert (Hm : isSetValue m = false) by (apply H, in_or_app; right; now left).
  rewrite <- IH by (intros m' Hm'; apply H, in_or_app; now left).
  rewrite applyMutation_dirtyValue. destruct m; try reflexivity. discriminate.
Qed.

Lemma replay_checked_kept lg p :
  (forall m, In m lg -> isSetChecked m = false) ->
  checked (replay lg p) = checked p.
Proof.
  induction lg as [|m lg IH] using rev_ind; intros H; [reflexivity|].
  rewrite replay_snoc.
  assert (Hm : isSetChecked m = false) by (apply H, in_or_app; right; now left).
  rewrite <- IH by (intros m' Hm'; apply H, in_or_app; now left).
  rewrite applyMutation_checked. destruct m; try reflexivity. discriminate.
Qed.

Lemma replay_checked_set b lg p :
  In (SetChecked b) lg ->
  (forall b', In (SetChecked b') lg -> b' = b) ->
  checked (replay lg p) = b.
Proof.
  induction lg as [|m lg IH] using rev_ind; intros Hin Hall; [destruct Hin|].
  rewrite replay_snoc.
  assert (Hall' : forall b', In (SetChecked b') lg -> b' = b)
    by (intros b' Hb'; apply Hall, in_or_app; now left).
  rewrite applyMutation_checked.
  destruct (isSetChecked m) eqn:Em.
  - destruct m; try discriminate.
    apply Hall. apply in_or_app. right. now left.
  - assert (In (SetChecked b) lg).
    { apply in_app_or in Hin. destruct Hin as [Hin|[Hin|[]]]; [exact Hin|].
      subst m. discriminate. }
    rewrite <- (IH H Hall'). destruct m; try reflexivity. discriminate.
Qed.

(** What a due write is, by the key it is for. *)
Lemma dueWrite_cases oldAttrs newAttrs p keys m :
  dueWrite oldAttrs newAttrs p keys m ->
  exists key v,
    In key keys
    /\ JsObject.get key newAttrs = Some v
    /\ JsObject.get key oldAttrs <> Some v
    /\ ((m = SetValue v /\ key = "value" /\ tagName p = "INPUT" /\ hasFocus p = false)
        \/ (m = SetChecked (checkedOf v) /\ key = "checked")
        \/ (m = SetAttribute key v /\ key <> "checked"
            /\ ~ (key = "value" /\ tagName p = "INPUT"))).
Proof.
  intros (key & v & Hk & Hn & Ho & Hw). exists key, v. repeat split; auto.
  unfold writeFor in Hw.
  destruct (String.eqb key "value") eqn:E1; simpl in Hw.
  - apply String.eqb_eq in E1.
    destruct (String.eqb (tagName p) "INPUT") eqn:E2; simpl in Hw.
    + apply String.eqb_eq in E2.
      destruct (hasFocus p) eqn:F; [discriminate|]. left. split; [congruence|auto].
    + apply String.eqb_neq in E2. subst key. simpl in Hw. right; right.
      split; [congruence|]. split; [discriminate|]. intros [_ H]. contradiction.
  - apply String.eqb_neq in E1.
    destruct (String.eqb key "checked") eqn:E3.
    + apply String.eqb_eq in E3. right; left. split; [congruence|auto].
    + apply String.eqb_neq in E3. right; right.
      split; [congruence|]. split; [exact E3|]. intros [H _]. contradiction.
Qed.

Lemma has_get key o : Assoc.has key o = false <-> JsObject.get key o = None.
Proof.
  unfold Assoc.has. destruct (JsObject.get key o); split; congruence.
Qed.

(** [key in o] fails for a name that is neither an own key nor a member
    of [Object.prototype]. *)
Lemma in_false key o :
  JsObject.has key o = false
  <-> JsObject.get key o = None /\ JsObject.inherited key = false.
Proof.
  unfold JsObject.has. rewrite orb_false_iff, has_get. tauto.
Qed.

Lemma staleKeys_In oldAttrs newAttrs key :
  In key (staleKeys oldAttrs newAttrs)
  <-> In key (JsObject.keys oldAttrs) /\ JsObject.has key newAttrs = false.
Proof.
  unfold staleKeys. rewrite filter_In, negb_true_iff. tauto.
Qed.

(** Every logged mutation of [updateAttributes] on an element is the
    removal of a stale name or a due write. *)
Lemma updateAttributes_log_cases B p cs oldAttrs newAttrs m :
  In m (logOf (updateAttributes B (Some (ElementNode p cs)) oldAttrs newAttrs)) ->
  (exists key, m = RemoveAttribute key /\ In key (JsObject.keys oldAttrs)
               /\ JsObject.has key newAttrs = false)
  \/ dueWrite oldAttrs newAttrs p (JsObject.keys newAttrs) m.
Proof.
  destruct (updateAttributes_element B p cs oldAttrs newAttrs) as (w & -> & Hall & _).
  intros Hin. apply in_app_or in Hin. destruct Hin as [Hin|Hin].
  - left. apply in_map_iff in Hin. destruct Hin as (key & <- & Hk).
    apply staleKeys_In in Hk. now exists key.
  - right. rewrite Forall_forall in Hall. now apply Hall.
Qed.




Lemma replay_dirtyValue_set v lg p :
  In (SetValue v) lg ->
  (forall v', In (SetValue v') lg -> v' = v) ->
  dirtyValue (replay lg p) = Some v.
Proof.
  induction lg as [|m lg IH] using rev_ind; intros Hin Hall; [destruct Hin|].
  rewrite replay_snoc.
  assert (Hall' : forall v', In (SetValue v') lg -> v' = v)
    by (intros v' Hv'; apply Hall, in_or_app; now left).
  rewrite applyMutation_dirtyValue.
  destruct (isSetValue m) eqn:Em.
  - destruct m; try discriminate. f_equal.
    apply Hall. apply in_or_app. right. now left.
  - assert (In (SetValue v) lg).
    { apply in_app_or in Hin. destruct Hin as [Hin|[Hin|[]]]; [exact Hin|].
      subst m. discriminate. }
    rewrite <- (IH H Hall'). destruct m; try reflexivity. discriminate.
Qed.

(** A value write of [updateAttributes] is on an input that does not
    have focus, for a [value] that changed. *)
Lemma updateAttributes_SetValue B p cs oldAttrs newAttrs v :
  In (SetValue v) (logOf (updateAttributes B (Some (ElementNode p cs)) oldAttrs newAttrs)) ->
  hasFocus p = false /\ tagName p = "INPUT"
  /\ JsObject.get "value" newAttrs = Some v
  /\ JsObject.get "value" oldAttrs <> Some v.
Proof.
  intros Hin. destruct (updateAttributes_log_cases _ _ _ _ _ _ Hin) as [(k & E & _)|Hd];
    [discriminate|].
  apply dueWrite_cases in Hd.
  destruct Hd as (k & v' & _ & Hn & Ho & [(E & -> & Ht & Hf)|[(E & _)|(E & _)]]);
    try discriminate.
  injection E as <-. auto.
Qed.

(** A checked write of [updateAttributes] carries the boolean reading of
    the new [checked] value, which changed. *)
Lemma updateAttributes_SetChecked B p cs oldAttrs newAttrs b :
  In (SetChecked b) (logOf (updateAttributes B (Some (ElementNode p cs)) oldAttrs newAttrs)) ->
  exists v, JsObject.get "checked" newAttrs = Some v
            /\ JsObject.get "checked" oldAttrs <> Some v
            /\ b = checkedOf v.
Proof.
  intros Hin. destruct (updateAttributes_log_cases _ _ _ _ _ _ Hin) as [(k & E & _)|Hd];
    [discriminate|].
  apply dueWrite_cases in Hd.
  destruct Hd as (k & v' & _ & Hn & Ho & [(E & _)|[(E & ->)|(E & _)]]);
    try discriminate.
  injection E as ->. now exists v'.
Qed.

(** The element [updateAttributes] returns is the one its log leaves. *)
Lemma updateAttributes_result B p cs oldAttrs newAttrs s lg :
  updateAttributes B (Some (ElementNode p cs)) oldAttrs newAttrs = Return s lg ->
  s = Some (ElementNode (replay lg p) cs).
Proof.
  intros E. destruct (updateAttributes_element B p cs oldAttrs newAttrs) as (w & _ & _ & H).
  rewrite E in H. tauto.
Qed.

(** A due write is logged when the call returns. *)
Lemma updateAttributes_due_logged B p cs oldAttrs newAttrs s lg key v m :
  updateAttributes B (Some (ElementNode p cs)) oldAttrs newAttrs = Return s lg ->
  JsObject.get key newAttrs = Some v ->
  JsObject.get key oldAttrs <> Some v ->
  writeFor p key v = Some m ->
  In m lg.
Proof.
  intros E Hn Ho Hw.
  destruct (updateAttributes_element B p cs oldAttrs newAttrs) as (w & El & _ & H).
  rewrite E in H, El. simpl in El. destruct H as (_ & Hc). rewrite El.
  apply in_or_app. right. apply Hc. exists key, v. repeat split; auto.
  apply has_keys. unfold Assoc.has. now rewrite Hn.
Qed.

(** ** Tree construction *)

Lemma pushVNodes_cons n l :
  pushVNodes (n :: l) =
  match createVNode n with Some v => [v] | None => [] end ++ pushVNodes l.
Proof. reflexivity. Qed.

Lemma createVNode_element p cs :
  createVNode (ElementNode p cs) =
  Some (VElement (JsString.toLowerCase (tagName p))
                 (fold_left (fun o attr => JsObject.set (fst attr) (snd attr) o)
                            (attributes p) JsObject.empty)
                 (pushVNodes cs)).
Proof. reflexivity. Qed.

Lemma createVNode_null el : isNull (createVNode el) = negb (isTextOrElement el).
Proof. destruct el as [d|[] d|p cs]; reflexivity. Qed.

Lemma pushVNodes_kept l :
  map Some (pushVNodes l) = map createVNode (filter isTextOrElement l).
Proof.
  induction l as [|n l IH]; [reflexivity|].
  rewrite pushVNodes_cons, map_app, IH.
  destruct n as [d|[] d|p cs]; reflexivity.
Qed.

Lemma createVNode_not_fragment el v :
  createVNode el = Some v -> vtype v <> TypeFragment.
Proof.
  destruct el as [d|k d|p cs].
  - intros H; injection H as <-. discriminate.
  - discriminate.
  - rewrite createVNode_element. intros H; injection H as <-. discriminate.
Qed.

Lemma topLevel_parseHTML B html :
  topLevel (parseHTML B html) =
  pushVNodes (parseFragment B "TEMPLATE" (JsString.trim html)).
Proof.
  unfold parseHTML.
  destruct (parseFragment B "TEMPLATE" (JsString.trim html)) as [|n l] eqn:E;
    [reflexivity|].
  destruct (pushVNodes (n :: l)) as [|v [|w r]] eqn:P; try reflexivity.
  assert (Hv : map Some [v] = map createVNode (filter isTextOrElement (n :: l)))
    by (rewrite <- P; apply pushVNodes_kept).
  destruct (filter isTextOrElement (n :: l)) as [|m [|m' r']]; try discriminate.
  simpl in Hv. injection Hv as Hv. symmetry in Hv.
  apply createVNode_not_fragment in Hv.
  destruct v; simpl; try reflexivity. now elim Hv.
Qed.

(** C10.  A node that is neither a text node nor an element (a comment,
    say) has no virtual node: [createVNode] gives [null] for it, and for
    exactly such nodes.  The children of an element's virtual node are the
    virtual nodes of its text and element children, in order, and the
    top-level nodes of [parseHTML] are those of the text and element
    nodes the parser built; the other live children contribute nothing,
    at any depth, while the live child list still holds them. *)
Theorem createVNode_parseHTML_omit_other_nodes (B : Browser) :
  (forall k d, createVNode (OtherNode k d) = None)
  /\ (forall el, isNull (createVNode el) = negb (isTextOrElement el))
  /\ (forall p cs,
        map Some (childrenOr (createVNode (ElementNode p cs)))
        = map createVNode (filter isTextOrElement cs))
  /\ (forall html,
        map Some (topLevel (parseHTML B html))
        = map createVNode
            (filter isTextOrElement (parseFragment B "TEMPLATE" (JsString.trim html)))).
Proof.
  repeat split.
  - apply createVNode_null.
  - intros p cs. rewrite createVNode_element. simpl. apply pushVNodes_kept.
  - intros html. rewrite topLevel_parseHTML. apply pushVNodes_kept.
Qed.

(** ** The same-node test *)

(** C5, as amended.  The same-node test succeeds only on two text nodes,
    on two elements with the same tag, or on two fragments; two nodes of
    different kind, or two elements with different tags, are never the
    same. *)
Theorem sameVNode_same_kind_and_tag (a b : option VNode) :
  sameVNode a b = true ->
  exists x y, a = Some x /\ b = Some y /\
    ((exists s t, x = VText s /\ y = VText t)
     \/ (exists tag ax cx ay cy, x = VElement tag ax cx /\ y = VElement tag ay cy)
     \/ (exists cx cy, x = VFragment cx /\ y = VFragment cy)).
Proof.
  destruct a as [x|], b as [y|]; try discriminate.
  intros H. exists x, y. split; [reflexivity|]. split; [reflexivity|].
  destruct x as [s|tx ax cx|cx], y as [t|ty ay cy|cy]; try discriminate.
  - left. now exists s, t.
  - right; left. unfold sameVNode in H. simpl in H.
    destruct (String.eqb tx ty) eqn:E; [|discriminate].
    apply String.eqb_eq in E; subst ty. now exists tx, ax, cx, ay, cy.
  - right; right. now exists cx, cy.
Qed.

Lemma sameVNode_same_kind_and_tag_witness :
  sameVNode (Some (VElement "li" [] [])) (Some (VElement "li" [("class", "a")] [])) = true
  /\ exists x y, Some (VElement "li" [] []) = Some x
                 /\ Some (VElement "li" [("class", "a")] []) = Some y
                 /\ ((exists s t, x = VText s /\ y = VText t)
                     \/ (exists tag ax cx ay cy,
                           x = VElement tag ax cx /\ y = VElement tag ay cy)
                     \/ (exists cx cy, x = VFragment cx /\ y = VFragment cy)).
Proof.
  split; [reflexivity|].
  apply (@sameVNode_same_kind_and_tag (Some (VElement "li" [] []))
           (Some (VElement "li" [("class", "a")] []))).
  reflexivity.
Defined.

(** C5 as stated fails on two fragments: the test succeeds on them though
    they are neither two text nodes nor two elements. *)
Lemma sameVNode_fragments_counterexample :
  sameVNode (Some (VFragment [])) (Some (VFragment [VText "a"])) = true
  /\ vtype (VFragment []) <> TypeText
  /\ vtype (VFragment []) <> TypeElement.
Proof. repeat split; discriminate. Qed.

(** C6, as amended.  For two elements with the same tag: when either
    carries a non-empty [key], they are the same exactly when both carry
    a [key] with the same value; when neither carries a non-empty [key],
    they are the same whatever their other attributes and children. *)
Theorem sameVNode_key (tag : string) (aa ab : JsObject.t) (ca cb : list VNode) :
  ((exists k, k <> "" /\ (JsObject.get "key" aa = Some k \/ JsObject.get "key" ab = Some k)) ->
   (sameVNode (Some (VElement tag aa ca)) (Some (VElement tag ab cb)) = true
    <-> exists k, JsObject.get "key" aa = Some k /\ JsObject.get "key" ab = Some k))
  /\ ((forall k, JsObject.get "key" aa = Some k -> k = "") ->
      (forall k, JsObject.get "key" ab = Some k -> k = "") ->
      sameVNode (Some (VElement tag aa ca)) (Some (VElement tag ab cb)) = true).
Proof.
  unfold sameVNode, keyOf; simpl. rewrite String.eqb_refl; simpl.
  split.
  - intros (k & Hk & Hor).
    assert (T : truthyValue (JsObject.get "key" aa) || truthyValue (JsObject.get "key" ab) = true).
    { apply orb_true_iff.
      destruct Hor as [H|H]; [left|right]; rewrite H; destruct k; simpl; congruence. }
    rewrite T, strictEq_true. split.
    + intros E. destruct Hor as [H|H]; exists k; split; congruence.
    + intros (k' & H1 & H2). congruence.
  - intros Ha Hb.
    destruct (JsObject.get "key" aa) as [x|] eqn:Ea;
      [rewrite (Ha x eq_refl)|];
      (destruct (JsObject.get "key" ab) as [y|] eqn:Eb;
       [rewrite (Hb y eq_refl)|]); reflexivity.
Qed.

Lemma sameVNode_key_witness :
  (sameVNode (Some (VElement "li" [("key", "1")] [VText "one"]))
             (Some (VElement "li" [("key", "2")] [VText "one"])) = true
   <-> exists k, JsObject.get "key" [("key", "1")] = Some k
                 /\ JsObject.get "key" [("key", "2")] = Some k)
  /\ sameVNode (Some (VElement "li" [("class", "a")] [VText "one"]))
               (Some (VElement "li" [("key", "")] [])) = true.
Proof.
  split.
  - apply (proj1 (sameVNode_key "li" [("key", "1")] [("key", "2")] [VText "one"] [VText "one"])).
    exists "1". split; [discriminate|left; reflexivity].
  - apply (proj2 (sameVNode_key "li" [("class", "a")] [("key", "")] [VText "one"] [])).
    + simpl. discriminate.
    + simpl. intros k H. now injection H as <-.
Defined.

(** C6 as stated fails on an empty [key]: one side carries the attribute,
    the other does not, and the test succeeds. *)
Lemma sameVNode_empty_key_counterexample :
  sameVNode (Some (VElement "li" [("key", "")] [])) (Some (VElement "li" [] [])) = true
  /\ JsObject.has "key" [("key", "")] = true
  /\ JsObject.has "key" [] = false.
Proof. repeat split. Qed.

(** ** Patching *)

Lemma removeExtra_cons i parent o olds :
  removeExtra i parent (o :: olds) =
  (childEl <- childAt parent i ;;
   parent <- match childEl with
             | Some _ => removeChild parent i
             | None => ret parent
             end ;;
   removeExtra (S i) parent olds).
Proof. reflexivity. Qed.

Lemma patchChildrenFrom_nil B f i parent olds :
  patchChildrenFrom B f i parent olds [] = removeExtra i parent olds.
Proof. reflexivity. Qed.

Lemma patchChildrenFrom_cons B f i parent olds n news :
  patchChildrenFrom B f i parent olds (n :: news) =
  (childEl <- childAt parent i ;;
   parent <- match olds with
             | [] =>
                 newEl <- detached (createElementFromVNode B n) ;;
                 appendChild parent newEl
             | oldVNode :: _ =>
                 nodes <- f childEl (Some oldVNode) n ;;
                 ret (match childEl with
                      | Some _ => putChild parent i nodes
                      | None => parent
                      end)
             end ;;
   patchChildrenFrom B f (S i) parent (tl olds) news).
Proof. reflexivity. Qed.

Lemma removeExtra_element olds : forall i p cs r lg,
  removeExtra i (Some (ElementNode p cs)) olds = Return r lg ->
  exists cs', r = Some (ElementNode p cs').
Proof.
  induction olds as [|o olds IH]; intros i p cs r lg H.
  - injection H as <- _. now exists cs.
  - rewrite removeExtra_cons in H.
    apply bind_Return in H. destruct H as (childEl & l1 & l2 & Hc & H & _).
    apply bind_Return in H. destruct H as (parent & l3 & l4 & Hp & H & _).
    destruct childEl as [c|]; injection Hp as <- _; now apply IH in H.
Qed.

(** Reconciling the children of an element leaves the element's own
    properties alone, whatever the recursive call does. *)
Lemma patchChildrenFrom_element B f news : forall i p cs olds r lg,
  patchChildrenFrom B f i (Some (ElementNode p cs)) olds news = Return r lg ->
  exists cs', r = Some (ElementNode p cs').
Proof.
  induction news as [|n news IH]; intros i p cs olds r lg H.
  - rewrite patchChildrenFrom_nil in H. now apply removeExtra_element in H.
  - rewrite patchChildrenFrom_cons in H.
    apply bind_Return in H. destruct H as (childEl & l1 & l2 & Hc & H & _).
    apply bind_Return in H. destruct H as (parent & l3 & l4 & Hp & H & _).
    destruct olds as [|o olds].
    + apply bind_Return in Hp. destruct Hp as (newEl & l5 & l6 & _ & Hp & _).
      injection Hp as <- _. now apply IH in H.
    + apply bind_Return in Hp. destruct Hp as (nodes & l5 & l6 & _ & Hp & _).
      injection Hp as <- _. destruct childEl; simpl in H; now apply IH in H.
Qed.

Lemma patch_unfold B attached el oldVNode newVNode :
  patch B attached el oldVNode newVNode =
  if negb (sameVNode oldVNode (Some newVNode)) then
    newEl <- detached (createElementFromVNode B newVNode) ;;
    replaceSelf attached el newEl
  else
    match newVNode with
    | VText value =>
        if negb (strictEq (valueOf oldVNode) (Some value)) then
          el <- setTextContent el value ;;
          ret (slot el)
        else ret (slot el)
    | VElement _ attrs children =>
        el <- updateAttributes B el (attrsOr oldVNode) attrs ;;
        el <- patchChildren B el (childrenOr oldVNode) children ;;
        ret (slot el)
    | VFragment _ => ret (slot el)
    end.
Proof. destruct newVNode; reflexivity. Qed.

(** An element patched as the same node stays in place, with the focus
    and the value it had unless [updateAttributes] wrote the value. *)
Lemma patch_same_element B attached p cs oldVNode newVNode nodes lg :
  sameVNode (Some oldVNode) (Some newVNode) = true ->
  patch B attached (Some (ElementNode p cs)) (Some oldVNode) newVNode = Return nodes lg ->
  exists p' cs',
    nodes = [ElementNode p' cs']
    /\ hasFocus p' = hasFocus p
    /\ (hasFocus p = true -> dirtyValue p' = dirtyValue p).
Proof.
  intros Hsame H. rewrite patch_unfold, Hsame in H. cbn [negb] in H.
  destruct newVNode as [value|tag attrs children|children].
  - destruct (negb (strictEq (valueOf (Some oldVNode)) (Some value))).
    + cbn in H. injection H as <- _.
      now exists p, (if JsString.truthy value then [TextNode value] else []).
    + injection H as <- _. now exists p, cs.
  - apply bind_Return in H. destruct H as (el1 & l1 & l2 & Hu & H & _).
    apply bind_Return in H. destruct H as (el2 & l3 & l4 & Hc & H & _).
    injection H as <- _.
    assert (Hlog : logOf (updateAttributes B (Some (ElementNode p cs))
                            (attrsOr (Some oldVNode)) attrs) = l1)
      by (now rewrite Hu).
    apply updateAttributes_result in Hu as ->.
    unfold patchChildren in Hc.
    apply patchChildrenFrom_element in Hc. destruct Hc as (cs' & ->).
    exists (replay l1 p), cs'. split; [reflexivity|].
    split; [apply replay_hasFocus|].
    intros Hf. apply replay_dirtyValue_kept. intros m Hm.
    destruct m; try reflexivity. exfalso.
    rewrite <- Hlog in Hm. apply updateAttributes_SetValue in Hm. destruct Hm. congruence.
  - injection H as <- _. now exists p, cs.
Qed.

Lemma createElementFromVNode_element B tag attrs children :
  createElementFromVNode B (VElement tag attrs children) =
  (el <- createElement B tag ;;
   el <- forEach (JsObject.keys attrs) (setCreatedAttribute B attrs) (Some el) ;;
   kids <- appendAll (createElementFromVNode B) children ;;
   match el with
   | Some (ElementNode p cs) => ret [ElementNode p (cs ++ kids)]
   | _ => raise TypeError
   end).
Proof. reflexivity. Qed.

(** The attribute loop of [createElementFromVNode]: the [checked]
    property of the new element is the boolean reading of the vnode's
    [checked] value, and the element gets no [checked] attribute unless
    another name of the vnode is [checked] in another case. *)
Lemma setCreatedAttribute_loop B attrs p0 :
  JsObject.get "checked" (attributes p0) = None ->
  match forEach (JsObject.keys attrs) (setCreatedAttribute B attrs)
                (Some (ElementNode p0 [])) with
  | Return s lg =>
      lg = []
      /\ exists p', s = Some (ElementNode p' [])
           /\ ((forall k, In k (JsObject.keys attrs) ->
                   JsString.toLowerCase k = "checked" -> k = "checked") ->
               JsObject.get "checked" (attributes p') = None)
           /\ (forall v, JsObject.get "checked" attrs = Some v -> checked p' = checkedOf v)
  | Throw _ _ => True
  end.
Proof.
  intros H0.
  pose (P := fun (done : list string) (lg : list Mutation) (s : option DomNode) =>
               lg = []
               /\ exists p', s = Some (ElementNode p' [])
                    /\ ((forall k, In k done ->
                            JsString.toLowerCase k = "checked" -> k = "checked") ->
                        JsObject.get "checked" (attributes p') = None)
                    /\ (forall v, In "checked" done ->
                                  JsObject.get "checked" attrs = Some v ->
                                  checked p' = checkedOf v)).
  assert (H := @forEach_invariant _ _ P (fun _ => True)
                 (setCreatedAttribute B attrs) (JsObject.keys attrs)).
  assert (Hend : match forEach (JsObject.keys attrs) (setCreatedAttribute B attrs)
                         (Some (ElementNode p0 [])) with
                 | Return s lg => P (JsObject.keys attrs) lg s
                 | Throw _ _ => True
                 end).
  { apply H.
    - intros done k rest lg s El (-> & p' & -> & Hattr & Hchk).
      assert (Hsub : forall Q : string -> Prop,
                 (forall k', In k' (done ++ [k]) -> Q k') -> forall k', In k' done -> Q k')
        by (intros Q HQ k' Hk'; apply HQ, in_or_app; now left).
      unfold setCreatedAttribute.
      destruct (JsObject.get k attrs) as [v0|] eqn:Ek.
      + destruct (String.eqb k "checked") eqn:Ec.
        * apply String.eqb_eq in Ec. subst k. simpl.
          split; [reflexivity|]. eexists. split; [reflexivity|].
          split.
          -- intros Hc. apply Hattr. intros k' Hk'. apply Hc, in_or_app. now left.
          -- intros v _ Hv. simpl. congruence.
        * apply String.eqb_neq in Ec. simpl.
          destruct (validAttributeName B k); simpl; [|exact I].
          split; [reflexivity|]. eexists. split; [reflexivity|].
          split.
          -- intros Hc. simpl. rewrite get_set_other.
             ++ apply Hattr. intros k' Hk'. apply Hc, in_or_app. now left.
             ++ intros E. apply Ec. apply Hc; [apply in_or_app; right; now left|].
                now symmetry.
          -- intros v Hin Hv. simpl. apply in_app_or in Hin.
             destruct Hin as [Hin|[Hin|[]]]; [now apply Hchk|congruence].
      + simpl. split; [reflexivity|]. exists p'. split; [reflexivity|].
        split.
        * intros Hc. apply Hattr. intros k' Hk'. apply Hc, in_or_app. now left.
        * intros v Hin Hv. apply in_app_or in Hin.
          destruct Hin as [Hin|[Hin|[]]]; [now apply Hchk|congruence].
    - split; [reflexivity|]. exists p0. split; [reflexivity|].
      split; [intros _; exact H0|]. intros v []. }
  destruct (forEach (JsObject.keys attrs) (setCreatedAttribute B attrs)
              (Some (ElementNode p0 []))) as [s lg|e lg]; [|exact I].
  destruct Hend as (-> & p' & -> & Hattr & Hchk).
  split; [reflexivity|]. exists p'. split; [reflexivity|]. split; [exact Hattr|].
  intros v Hv. apply (Hchk v); [|exact Hv].
  apply has_keys. unfold Assoc.has. now rewrite Hv.
Qed.

Lemma createElementFromVNode_checked B tag attrs children nodes lg :
  createElementFromVNode B (VElement tag attrs children) = Return nodes lg ->
  exists p' cs',
    nodes = [ElementNode p' cs']
    /\ ((forall k, In k (JsObject.keys attrs) ->
            JsString.toLowerCase k = "checked" -> k = "checked") ->
        JsObject.get "checked" (attributes p') = None)
    /\ (forall v, JsObject.get "checked" attrs = Some v -> checked p' = checkedOf v).
Proof.
  rewrite createElementFromVNode_element. intros H.
  apply bind_Return in H. destruct H as (el & l1 & l2 & Hc & H & _).
  apply bind_Return in H. destruct H as (el' & l3 & l4 & Hl & H & _).
  apply bind_Return in H. destruct H as (kids & l5 & l6 & _ & H & _).
  unfold createElement in Hc. destruct (validElementName B tag); [|discriminate].
  injection Hc as <- _.
  assert (Hloop := @setCreatedAttribute_loop B attrs
                     (mkProps (JsString.toUpperCase tag) JsObject.empty None false false)
                     eq_refl).
  rewrite Hl in Hloop. destruct Hloop as (_ & p' & -> & Hattr & Hchk).
  injection H as <-. exists p', ([] ++ kids). auto.
Qed.

Lemma checkedOf_true v : checkedOf v = true <-> v = "true" \/ v = "checked".
Proof.
  unfold checkedOf. rewrite orb_true_iff, !String.eqb_eq. tauto.
Qed.



(** C8.  While an element has focus, [updateAttributes] issues no value
    write on it, and the value it holds is the one it held; a value write
    is issued only on an input that does not have focus (and then for a
    [value] attribute that changed, and the input holds the new value
    afterwards).  The same holds through [patch]: a focused element
    patched as the same node stays in place with its value. *)
Theorem focused_input_value_not_overwritten
    (B : Browser) (p : ElementProps) (cs : list DomNode) (oldAttrs newAttrs : JsObject.t) :
  let out := updateAttributes B (Some (ElementNode p cs)) oldAttrs newAttrs in
  (hasFocus p = true ->
     (forall v, ~ In (SetValue v) (logOf out))
     /\ (forall s, resultOf out = Some s ->
           exists p', s = Some (ElementNode p' cs)
                      /\ dirtyValue p' = dirtyValue p /\ hasFocus p' = true))
  /\ (forall v, In (SetValue v) (logOf out) ->
        hasFocus p = false /\ tagName p = "INPUT"
        /\ JsObject.get "value" newAttrs = Some v
        /\ JsObject.get "value" oldAttrs <> Some v)
  /\ (forall v s, hasFocus p = false -> tagName p = "INPUT" ->
        JsObject.get "value" newAttrs = Some v ->
        JsObject.get "value" oldAttrs <> Some v ->
        resultOf out = Some s ->
        In (SetValue v) (logOf out)
        /\ exists p', s = Some (ElementNode p' cs) /\ dirtyValue p' = Some v)
  /\ (forall attached oldVNode newVNode nodes lg,
        hasFocus p = true ->
        sameVNode (Some oldVNode) (Some newVNode) = true ->
        patch B attached (Some (ElementNode p cs)) (Some oldVNode) newVNode
        = Return nodes lg ->
        exists p' cs', nodes = [ElementNode p' cs']
                       /\ dirtyValue p' = dirtyValue p /\ hasFocus p' = true).
Proof.
  intros out. split; [|split; [|split]].
  - intros Hf. split.
    + intros v Hin. apply updateAttributes_SetValue in Hin. destruct Hin. congruence.
    + intros s Hs. unfold out in *.
      destruct (updateAttributes B (Some (ElementNode p cs)) oldAttrs newAttrs)
        as [s' lg|e lg] eqn:E; [|discriminate].
      injection Hs as ->. apply updateAttributes_result in E as Hr. subst s.
      exists (replay lg p). split; [reflexivity|]. split.
      * apply replay_dirtyValue_kept. intros m Hm. destruct m; try reflexivity.
        exfalso. assert (Hm' : In (SetValue value)
                                  (logOf (updateAttributes B (Some (ElementNode p cs))
                                            oldAttrs newAttrs)))
          by (now rewrite E).
        apply updateAttributes_SetValue in Hm'. destruct Hm'. congruence.
      * now rewrite replay_hasFocus.
  - intros v. apply updateAttributes_SetValue.
  - intros v s Hf Ht Hn Ho Hs. unfold out in *.
    destruct (updateAttributes B (Some (ElementNode p cs)) oldAttrs newAttrs)
      as [s' lg|e lg] eqn:E; [|discriminate].
    injection Hs as ->. simpl.
    assert (Hin : In (SetValue v) lg).
    { apply (updateAttributes_due_logged _ _ _ _ _ "value" E Hn Ho).
      unfold writeFor. rewrite Ht, Hf. reflexivity. }
    split; [exact Hin|].
    apply updateAttributes_result in E as Hr. subst s.
    exists (replay lg p). split; [reflexivity|].
    apply replay_dirtyValue_set; [exact Hin|].
    intros v' Hv'.
    assert (Hm' : In (SetValue v') (logOf (updateAttributes B (Some (ElementNode p cs))
                                             oldAttrs newAttrs)))
      by (now rewrite E).
    apply updateAttributes_SetValue in Hm'. destruct Hm' as (_ & _ & Hn' & _). congruence.
  - intros attached oldVNode newVNode nodes lg Hf Hsame H.
    destruct (patch_same_element _ _ _ _ _ _ Hsame H) as (p' & cs' & -> & Hf' & Hv).
    exists p', cs'. split; [reflexivity|]. split; [now apply Hv|congruence].
Qed.

(** C8: an input holding what the user typed, rendered again with
    another [value] attribute.  With the focus it keeps what was typed,
    through [updateAttributes] and through [patch]; without the focus it
    takes the new value. *)
Lemma focused_input_value_not_overwritten_witness :
  let focused := mkProps "INPUT" [("value", "a")] (Some "typed") false true in
  let blurred := mkProps "INPUT" [("value", "a")] (Some "typed") false false in
  let old := [("value", "a")] in
  let new := [("value", "b")] in
  (forall v, ~ In (SetValue v)
                  (logOf (updateAttributes MiniHost.host (Some (ElementNode focused []))
                            old new)))
  /\ (exists p', updateAttributes MiniHost.host (Some (ElementNode focused [])) old new
                 = Return (Some (ElementNode p' [])) []
                 /\ dirtyValue p' = Some "typed")
  /\ (In (SetValue "b")
         (logOf (updateAttributes MiniHost.host (Some (ElementNode blurred [])) old new))
      /\ hasFocus blurred = false
      /\ exists p', updateAttributes MiniHost.host (Some (ElementNode blurred [])) old new
                    = Return (Some (ElementNode p' [])) [SetValue "b"]
                    /\ dirtyValue p' = Some "b")
  /\ (exists p' cs',
        patch MiniHost.host true (Some (ElementNode focused []))
              (Some (VElement "input" old [])) (VElement "input" new [])
        = Return [ElementNode p' cs'] []
        /\ dirtyValue p' = Some "typed" /\ hasFocus p' = true).
Proof.
  intros focused blurred old new.
  destruct (focused_input_value_not_overwritten MiniHost.host focused [] old new)
    as (Hfocus & _ & _ & Hpatch).
  destruct (focused_input_value_not_overwritten MiniHost.host blurred [] old new)
    as (_ & Honly & Hwritten & _).
  destruct (Hfocus eq_refl) as (Hnone & Hkept).
  split; [exact Hnone|]. split; [|split].
  - destruct (Hkept (Some (ElementNode focused [])) eq_refl) as (p' & E & Hv & _).
    injection E as <-. exists focused. split; reflexivity.
  - destruct (Hwritten "b" (Some (ElementNode (withValue blurred "b") []))
                eq_refl eq_refl eq_refl) as (Hin & p' & E & Hv);
      [discriminate|reflexivity|].
    split; [exact Hin|]. split; [exact (proj1 (Honly "b" Hin))|].
    injection E as <-. exists (withValue blurred "b"). split; reflexivity.
  - destruct (Hpatch true (VElement "input" old []) (VElement "input" new [])
                [ElementNode focused []] [] eq_refl eq_refl eq_refl)
      as (p' & cs' & E & Hv & Hf).
    exists p', cs'. injection E as <- <-. repeat split.
Defined.

(** C9.  A [checked] attribute of the new map is read as a boolean,
    true for the strings [true] and [checked] and false for any other
    value.  Attribute reconciliation never writes or removes a [checked]
    attribute on the live element: when the value changed it sets the live
    [checked] property to that boolean, and otherwise leaves the property
    alone.  A freshly created element gets the property in the same way
    and no [checked] attribute.  (The [checked] attribute of the element
    is as it was, and absent from a created element, as long as no other
    name of the maps is [checked] written in another case, which
    [setAttribute] and [removeAttribute] would put in lower case.) *)
Theorem checked_applied_as_boolean_property
    (B : Browser) (p : ElementProps) (cs : list DomNode)
    (oldAttrs newAttrs : JsObject.t) (v : string) :
  JsObject.get "checked" newAttrs = Some v ->
  let out := updateAttributes B (Some (ElementNode p cs)) oldAttrs newAttrs in
  (checkedOf v = true <-> v = "true" \/ v = "checked")
  /\ (forall s, ~ In (SetAttribute "checked" s) (logOf out))
  /\ ~ In (RemoveAttribute "checked") (logOf out)
  /\ (forall b, In (SetChecked b) (logOf out) ->
        b = checkedOf v /\ JsObject.get "checked" oldAttrs <> Some v)
  /\ (forall s, resultOf out = Some s ->
        exists p', s = Some (ElementNode p' cs)
          /\ ((forall k, In k (JsObject.keys oldAttrs ++ JsObject.keys newAttrs) ->
                  JsString.toLowerCase k = "checked" -> k = "checked") ->
              JsObject.get "checked" (attributes p') = JsObject.get "checked" (attributes p))
          /\ (JsObject.get "checked" oldAttrs <> Some v ->
                In (SetChecked (checkedOf v)) (logOf out) /\ checked p' = checkedOf v)
          /\ (JsObject.get "checked" oldAttrs = Some v -> checked p' = checked p))
  /\ (forall tag children nodes lg,
        createElementFromVNode B (VElement tag newAttrs children) = Return nodes lg ->
        exists p' cs', nodes = [ElementNode p' cs']
                       /\ checked p' = checkedOf v
                       /\ ((forall k, In k (JsObject.keys newAttrs) ->
                               JsString.toLowerCase k = "checked" -> k = "checked") ->
                           JsObject.get "checked" (attributes p') = None)).
Proof.
  intros Hn out.
  assert (Hcases := fun m => @updateAttributes_log_cases B p cs oldAttrs newAttrs m).
  fold out in Hcases.
  assert (Hchk : forall b, In (SetChecked b) (logOf out) ->
                   b = checkedOf v /\ JsObject.get "checked" oldAttrs <> Some v).
  { intros b Hin. apply updateAttributes_SetChecked in Hin.
    destruct Hin as (v' & Hn' & Ho & ->).
    assert (v' = v) by congruence. subst v'. now split. }
  assert (Hnoattr : forall m, In m (logOf out) -> writesAttribute "checked" m = false).
  { intros m Hin. destruct (writesAttribute "checked" m) eqn:Ew; [|reflexivity].
    exfalso. destruct (Hcases _ Hin) as [(k & -> & _ & Hh)|Hd].
    - simpl in Ew. apply String.eqb_eq in Ew. subst k.
      apply in_false in Hh. destruct Hh. congruence.
    - apply dueWrite_cases in Hd.
      destruct Hd as (k & v' & _ & _ & _ & [(-> & _)|[(-> & _)|(-> & Hk & _)]]);
        try discriminate.
      simpl in Ew. apply String.eqb_eq in Ew. contradiction. }
  split; [apply checkedOf_true|].
  split; [intros s Hin; apply Hnoattr in Hin; discriminate|].
  split; [intros Hin; apply Hnoattr in Hin; discriminate|].
  split; [exact Hchk|]. split.
  - intros s Hs. unfold out in *.
    destruct (updateAttributes B (Some (ElementNode p cs)) oldAttrs newAttrs)
      as [s' lg|e lg] eqn:E; [|discriminate].
    injection Hs as ->. simpl in *.
    apply updateAttributes_result in E as Hr. subst s.
    exists (replay lg p). split; [reflexivity|]. split; [|split].
    + intros Hcase. apply replay_attribute_kept. intros m Hm.
      destruct (affects "checked" m) eqn:Ha; [|reflexivity]. exfalso.
      assert (Hw := Hnoattr m Hm).
      destruct (Hcases _ Hm) as [(k & -> & Hk & _)|Hd].
      * simpl in Ha, Hw. apply String.eqb_eq in Ha.
        rewrite (Hcase k) in Hw; [now rewrite String.eqb_refl in Hw| |exact Ha].
        apply in_or_app. now left.
      * apply dueWrite_cases in Hd.
        destruct Hd as (k & v' & Hk & _ & _ & [(-> & -> & _)|[(-> & _)|(-> & _)]]);
          try discriminate.
        simpl in Ha, Hw. apply String.eqb_eq in Ha.
        rewrite (Hcase k) in Hw; [now rewrite String.eqb_refl in Hw| |exact Ha].
        apply in_or_app. now right.
    + intros Ho.
      assert (Hin : In (SetChecked (checkedOf v)) lg)
        by (now apply (updateAttributes_due_logged _ _ _ _ _ "checked" E Hn Ho)).
      split; [exact Hin|]. apply replay_checked_set; [exact Hin|].
      intros b' Hb'. now apply Hchk.
    + intros Ho. apply replay_checked_kept. intros m Hm.
      destruct m; try reflexivity. apply Hchk in Hm. destruct Hm. contradiction.
  - intros tag children nodes lg H.
    apply createElementFromVNode_checked in H.
    destruct H as (p' & cs' & -> & Hattr & Hc). exists p', cs'. auto.
Qed.

(** C9: a box created and then reconciled.  [checked="checked"] checks the
    live box, the bare attribute (value [""]) leaves a created box
    unchecked, and neither leaves a [checked] attribute behind. *)
Lemma checked_applied_as_boolean_property_witness :
  let box := mkProps "INPUT" [("type", "checkbox")] None false false in
  (exists p', updateAttributes MiniHost.host (Some (ElementNode box []))
                [("type", "checkbox")] [("type", "checkbox"); ("checked", "checked")]
              = Return (Some (ElementNode p' [])) [SetChecked true]
              /\ checked p' = true
              /\ JsObject.get "checked" (attributes p') = None)
  /\ (exists p' cs',
        createElementFromVNode MiniHost.host
          (VElement "input" [("type", "checkbox"); ("checked", "")] [])
        = Return [ElementNode p' cs'] []
        /\ checked p' = false
        /\ JsObject.get "checked" (attributes p') = None).
Proof.
  intros box. split.
  - destruct (@checked_applied_as_boolean_property MiniHost.host box []
                [("type", "checkbox")] [("type", "checkbox"); ("checked", "checked")]
                "checked" eq_refl) as (_ & _ & _ & _ & Hres & _).
    destruct (Hres (Some (ElementNode (withChecked box true) [])) eq_refl)
      as (p' & E & Hattr & Hset & _).
    injection E as <-. exists (withChecked box true).
    split; [reflexivity|]. split; [reflexivity|].
    rewrite Hattr; [reflexivity|].
    intros k Hin Hk. simpl in Hin.
    destruct Hin as [<-|[<-|[<-|[]]]]; try reflexivity; vm_compute in Hk; discriminate.
  - destruct (@checked_applied_as_boolean_property MiniHost.host box []
                [] [("type", "checkbox"); ("checked", "")] "" eq_refl)
      as (_ & _ & _ & _ & _ & Hnew).
    destruct (Hnew "input" []
                [ElementNode (mkProps "INPUT" [("type", "checkbox")] None false false) []] []
                eq_refl) as (p' & cs' & E & Hc & Hattr).
    injection E as <- <-. eexists _, _.
    split; [reflexivity|]. split; [reflexivity|].
    apply Hattr. intros k Hin Hk. simpl in Hin.
    destruct Hin as [<-|[<-|[]]]; try reflexivity; vm_compute in Hk; discriminate.
Defined.

(** Why the [checked] attribute of the element is spoken of for maps
    without a name such as [CHECKED]: that key is not the key [checked],
    it goes to [setAttribute], which puts it in lower case. *)
Example checked_attribute_written_under_another_case :
  let box := mkProps "INPUT" [("type", "checkbox")] None false false in
  updateAttributes MiniHost.host (Some (ElementNode box []))
                   (attributes box) [("type", "checkbox"); ("CHECKED", "no")]
  = Return (Some (ElementNode
                    (mkProps "INPUT" [("type", "checkbox"); ("checked", "no")] None
                             false false) []))
           [SetAttribute "CHECKED" "no"].
Proof. reflexivity. Qed.

(** C4: the removal of extra children skips the child that moved up.  The
    live list has three items, the old sequence describes them, the new
    sequence has one: the item at index 1 is removed, the last item moves
    to index 1, nothing is found at index 2, and two children remain. *)
Theorem patchChildren_removal_skips_shifted_child :
  let li := fun s => ElementNode (mkProps "LI" [] None false false) [TextNode s] in
  let ul := fun items => ElementNode (mkProps "UL" [] None false false) items in
  let vli := fun s => VElement "li" [] [VText s] in
  pushVNodes [li "a"; li "b"; li "c"] = [vli "a"; vli "b"; vli "c"]
  /\ patchChildren MiniHost.host (Some (ul [li "a"; li "b"; li "c"]))
                   [vli "a"; vli "b"; vli "c"] [vli "a"]
     = Return (Some (ul [li "a"; li "c"])) [RemoveChild 1]
  /\ List.length [li "a"; li "c"] <> List.length [vli "a"].
Proof. repeat split. discriminate. Qed.

(** ** The entry point *)

(** C2.  [diff] returns for every container and every pair of strings:
    no exception leaves it.  When the [try] block throws, what [diff]
    returns is the container after [innerHTML] was set to the new string,
    this write being the last mutation; a container element then holds
    the nodes parsed from the new string. *)
Theorem diff_never_throws
    (B : Browser) (container : DomNode) (oldHTML newHTML : string) :
  exists c log,
    diff B container oldHTML newHTML = Return c log
    /\ (forall e l, diffTry B container oldHTML newHTML = Throw e l ->
          setInnerHTML B container newHTML = Return c [SetInnerHTML newHTML]
          /\ log = l ++ [SetInnerHTML newHTML]
          /\ forall p cs, container = ElementNode p cs ->
                          c = ElementNode p (parseFragment B (tagName p) newHTML)).
Proof.
  unfold diff.
  destruct (diffTry B container oldHTML newHTML) as [c lg|e lg].
  - exists c, lg. split; [reflexivity|]. discriminate.
  - destruct container as [d|k d|p cs]; simpl; eexists _, _;
      (split; [reflexivity|]); intros e' l H; injection H as _ <-;
      repeat split; intros p' cs' E; try discriminate.
    now injection E as <- _.
Qed.

(** C2: a comment inside the live tree makes the patch read a child of
    [undefined]; [diff] falls back to [innerHTML]. *)
Lemma diff_never_throws_witness :
  let html := "<div><!--c--><p><b>x</b></p></div>" in
  let app := mkProps "DIV" [("id", "app")] None false false in
  diffTry MiniHost.host (ElementNode app (MiniHost.parse "DIV" html)) html html
  = Throw TypeError []
  /\ diff MiniHost.host (ElementNode app (MiniHost.parse "DIV" html)) html html
     = Return (ElementNode app (MiniHost.parse "DIV" html)) [SetInnerHTML html].
Proof.
  intros html app. split; [reflexivity|].
  destruct (diff_never_throws MiniHost.host
              (ElementNode app (MiniHost.parse "DIV" html)) html html)
    as (c & log & E & Hfall).
  destruct (Hfall TypeError [] eq_refl) as (_ & -> & Hc).
  rewrite (Hc app (MiniHost.parse "DIV" html) eq_refl) in E. exact E.
Defined.

(** Induction on virtual nodes, with the property known of the children. *)
Lemma VNode_induction (P : VNode -> Prop) :
  (forall s, P (VText s)) ->
  (forall tag attrs children, Forall P children -> P (VElement tag attrs children)) ->
  (forall children, Forall P children -> P (VFragment children)) ->
  forall v, P v.
Proof.
  intros Ht He Hf. fix IH 1. intros [s|tag attrs children|children].
  - apply Ht.
  - apply He. induction children as [|c l IHl]; constructor; [apply IH|exact IHl].
  - apply Hf. induction children as [|c l IHl]; constructor; [apply IH|exact IHl].
Qed.






(** ** Convergence of the patch *)



Lemma get_None_keys key o : JsObject.get key o = None <-> ~ In key (JsObject.keys o).
Proof.
  rewrite <- has_get, <- has_keys. destruct (Assoc.has key o); split; congruence.
Qed.

Lemma set_fresh key v o :
  ~ In key (JsObject.keys o) -> Assoc.set key v o = o ++ [(key, v)].
Proof.
  induction o as [|[k w] o IH]; simpl; intros H; [reflexivity|].
  destruct (String.eqb key k) eqn:E.
  - apply String.eqb_eq in E. elim H. now left.
  - rewrite IH; [reflexivity|]. intros Hin. apply H. now right.
Qed.

Lemma keys_set key v o :
  JsObject.keys (Assoc.set key v o)
  = if Assoc.has key o then JsObject.keys o else JsObject.keys o ++ [key].
Proof.
  unfold Assoc.has. induction o as [|[k w] o IH]; simpl; [reflexivity|].
  destruct (String.eqb key k) eqn:E; simpl; [reflexivity|].
  rewrite IH. now destruct (JsObject.get key o).
Qed.


Lemma NoDup_keys_set key v o :
  NoDup (JsObject.keys o) -> NoDup (JsObject.keys (Assoc.set key v o)).
Proof.
  intros H. rewrite keys_set. destruct (Assoc.has key o) eqn:E; [exact H|].
  apply NoDup_app; [exact H|constructor; [intros []|constructor]|].
  intros k Hk [<-|[]]. apply has_keys in Hk. congruence.
Qed.




(** Copying distinct attributes one by one into an object gives them
    back in order: the attributes of a vnode are those of its element. *)
(** Copied by assignment, they all become own properties but one named
    [__proto__]. *)
Lemma ownedAttrs_app a b : ownedAttrs (a ++ b) = ownedAttrs a ++ ownedAttrs b.
Proof. apply filter_app. Qed.

Lemma keys_ownedAttrs a k : In k (JsObject.keys (ownedAttrs a)) -> In k (JsObject.keys a).
Proof.
  unfold JsObject.keys, Assoc.keys, ownedAttrs. rewrite !in_map_iff.
  intros (kv & E & H). apply filter_In in H. exists kv. tauto.
Qed.

Lemma NoDup_keys_ownedAttrs a :
  NoDup (JsObject.keys a) -> NoDup (JsObject.keys (ownedAttrs a)).
Proof.
  induction a as [|[k v] a IH]; intros H; [constructor|].
  inversion H as [|? ? Hk Ha]; subst. simpl.
  destruct (String.eqb k "__proto__"); simpl; [now apply IH|].
  constructor; [|now apply IH]. intros Hin. apply Hk. now apply keys_ownedAttrs.
Qed.

Lemma fold_assign_distinct l : forall acc,
  NoDup (JsObject.keys (acc ++ l)) ->
  fold_left (fun o attr => JsObject.set (fst attr) (snd attr) o) l acc
  = acc ++ ownedAttrs l.
Proof.
  induction l as [|[k v] l IH]; intros acc H; simpl.
  - now rewrite app_nil_r.
  - unfold JsObject.set at 2. simpl.
    assert (Hl : NoDup (JsObject.keys (acc ++ l))).
    { unfold JsObject.keys, Assoc.keys in *. rewrite map_app in *. simpl in H.
      now apply NoDup_remove_1 in H. }
    destruct (String.eqb k "__proto__"); simpl.
    + now apply IH.
    + rewrite set_fresh.
      * rewrite IH; rewrite <- app_assoc; [reflexivity|exact H].
      * unfold JsObject.keys, Assoc.keys in H. rewrite map_app in H. simpl in H.
        apply NoDup_remove_2 in H. intros Hin. apply H. apply in_or_app. now left.
Qed.

Lemma createVNode_wellFormed_element p cs :
  NoDup (JsObject.keys (attributes p)) ->
  createVNode (ElementNode p cs)
  = Some (VElement (JsString.toLowerCase (tagName p)) (ownedAttrs (attributes p))
                   (pushVNodes cs)).
Proof.
  intros H. rewrite createVNode_element. now rewrite (fold_assign_distinct _ []).
Qed.

Lemma ownedAttrs_own a :
  Forall (fun k => k <> "__proto__") (JsObject.keys a) -> ownedAttrs a = a.
Proof.
  induction a as [|[k v] a IH]; intros H; [reflexivity|].
  inversion H as [|? ? Hk Ha]; subst. simpl in *.
  destruct (String.eqb k "__proto__") eqn:E.
  - apply String.eqb_eq in E. contradiction.
  - simpl. now rewrite IH.
Qed.


(** The vnodes of well-formed live nodes, one per node. *)
Lemma pushVNodes_wellFormed cs :
  Forall wellFormed cs ->
  Forall2 (fun c v => createVNode c = Some v) cs (pushVNodes cs).
Proof.
  induction 1 as [|c cs Hc _ IH]; [constructor|].
  rewrite pushVNodes_cons. destruct Hc as [s|p kids Hp Hk].
  - simpl. now constructor.
  - rewrite createVNode_element. simpl. now constructor.
Qed.





Lemma appendAll_cons create child rest :
  appendAll create (child :: rest) =
  (nodes <- create child ;;
   others <- appendAll create rest ;;
   ret (nodes ++ others)).
Proof. reflexivity. Qed.

(** The attribute loop of [createElementFromVNode]: the new element has
    the attributes of the vnode, [checked] apart. *)
Lemma setCreatedAttribute_loop_attributes B attrs p0 :
  attributes p0 = [] ->
  Forall (fun key => JsString.toLowerCase key = key) (JsObject.keys attrs) ->
  match forEach (JsObject.keys attrs) (setCreatedAttribute B attrs)
                (Some (ElementNode p0 [])) with
  | Return s lg =>
      lg = []
      /\ exists p', s = Some (ElementNode p' [])
           /\ tagName p' = tagName p0
           /\ NoDup (JsObject.keys (attributes p'))
           /\ (forall key, key <> "checked" ->
                           JsObject.get key (attributes p') = JsObject.get key attrs)
  | Throw _ _ => True
  end.
Proof.
  intros H0 Hlow.
  pose (P := fun (done : list string) (lg : list Mutation) (s : option DomNode) =>
               lg = []
               /\ exists p', s = Some (ElementNode p' [])
                    /\ tagName p' = tagName p0
                    /\ NoDup (JsObject.keys (attributes p'))
                    /\ (forall key, key <> "checked" -> In key done ->
                          JsObject.get key (attributes p') = JsObject.get key attrs)
                    /\ (forall key, ~ In key done ->
                          JsObject.get key (attributes p') = None)).
  assert (Hend : match forEach (JsObject.keys attrs) (setCreatedAttribute B attrs)
                         (Some (ElementNode p0 [])) with
                 | Return s lg => P (JsObject.keys attrs) lg s
                 | Throw _ _ => True
                 end).
  { apply (@forEach_invariant _ _ P (fun _ => True)).
    - intros done k rest lg s El (-> & p' & -> & Htag & Hnd & Hin & Hout).
      assert (Hlk : JsString.toLowerCase k = k).
      { rewrite Forall_forall in Hlow. apply Hlow. rewrite El.
        apply in_or_app. right. now left. }
      unfold setCreatedAttribute.
      destruct (JsObject.get k attrs) as [v0|] eqn:Ek.
      + destruct (String.eqb k "checked") eqn:Ec.
        * apply String.eqb_eq in Ec. subst k. simpl.
          split; [reflexivity|]. eexists. split; [reflexivity|]. simpl.
          repeat split; auto.
          -- intros key Hk Hd. apply in_app_or in Hd.
             destruct Hd as [Hd|[Hd|[]]]; [now apply Hin|congruence].
          -- intros key Hd. apply Hout. intros Hd'. apply Hd, in_or_app. now left.
        * apply String.eqb_neq in Ec. simpl.
          destruct (validAttributeName B k); simpl; [|exact I].
          rewrite Hlk.
          split; [reflexivity|]. eexists. split; [reflexivity|]. simpl.
          repeat split; auto using NoDup_keys_set.
          -- intros key Hk Hd. apply in_app_or in Hd.
             destruct Hd as [Hd|[Hd|[]]].
             ++ destruct (String.string_dec key k) as [->|Hne].
                ** now rewrite get_set_same.
                ** rewrite get_set_other by exact Hne. now apply Hin.
             ++ subst key. now rewrite get_set_same.
          -- intros key Hd.
             assert (key <> k) by (intros ->; apply Hd, in_or_app; right; now left).
             rewrite get_set_other by assumption.
             apply Hout. intros Hd'. apply Hd, in_or_app. now left.
      + exfalso. apply get_None_keys in Ek. apply Ek. rewrite El.
        apply in_or_app. right. now left.
    - split; [reflexivity|]. exists p0. rewrite H0. repeat split; auto.
      + constructor.
      + intros key _ []. }
  destruct (forEach (JsObject.keys attrs) (setCreatedAttribute B attrs)
              (Some (ElementNode p0 []))) as [s lg|e lg]; [|exact I].
  destruct Hend as (-> & p' & -> & Htag & Hnd & Hin & Hout).
  split; [reflexivity|]. exists p'. repeat split; auto.
  intros key Hk.
  destruct (in_dec String.string_dec key (JsObject.keys attrs)) as [Hd|Hd].
  - now apply Hin.
  - rewrite (Hout key Hd). symmetry. now apply get_None_keys.
Qed.

Lemma plainKey_not_checked tag key : plainKey tag key = true -> key <> "checked".
Proof.
  unfold plainKey. intros H ->. discriminate.
Qed.

(** A node built from a regular vnode shows it. *)
Lemma createElementFromVNode_shows B v :
  regular v ->
  lowerNames v ->
  forall nodes lg,
    createElementFromVNode B v = Return nodes lg ->
    lg = [] /\ exists n, nodes = [n] /\ shows n v /\ wellFormed n.
Proof.
  induction v as [s|tag attrs children IH|children IH] using VNode_induction;
    intros Hreg Hlow nodes lg H.
  - injection H as <- <-. split; [reflexivity|]. exists (TextNode s).
    repeat constructor.
  - inversion Hreg as [|tag' attrs' children' Htag Hkids]; subst.
    inversion Hlow as [|tag' attrs' children' Hkeys Hlkids|]; subst.
    rewrite createElementFromVNode_element in H.
    apply bind_Return in H. destruct H as (el & l1 & l2 & Hc & H & ->).
    apply bind_Return in H. destruct H as (el' & l3 & l4 & Hl & H & ->).
    apply bind_Return in H. destruct H as (kids & l5 & l6 & Hk & H & ->).
    unfold createElement in Hc. destruct (validElementName B tag); [|discriminate].
    injection Hc as <- <-.
    assert (Hloop := @setCreatedAttribute_loop_attributes B attrs
                       (mkProps (JsString.toUpperCase tag) JsObject.empty None false false)
                       eq_refl Hkeys).
    rewrite Hl in Hloop. destruct Hloop as (-> & p' & -> & Htag' & Hnd & Hattrs).
    injection H as <- <-.
    assert (Hkids' : l5 = [] /\ Forall2 shows kids children /\ Forall wellFormed kids).
    { clear Hl Hreg Hlow. revert kids l5 Hk.
      induction children as [|c rest IHrest]; intros kids l5 Hk.
      - injection Hk as <- <-. repeat constructor.
      - rewrite appendAll_cons in Hk.
        apply bind_Return in Hk. destruct Hk as (ns & m1 & m2 & Hn & Hk & ->).
        apply bind_Return in Hk. destruct Hk as (others & m3 & m4 & Ho & Hk & ->).
        injection Hk as <- <-.
        inversion IH as [|? ? IHc IHr]; subst.
        inversion Hkids as [|? ? Hrc Hrr]; subst.
        inversion Hlkids as [|? ? Hlc Hlr]; subst.
        destruct (IHc Hrc Hlc _ _ Hn) as (-> & n & -> & Hs & Hw).
        destruct (IHrest IHr Hrr Hlr _ _ Ho) as (-> & Hs' & Hw').
        repeat split; simpl; constructor; assumption. }
    destruct Hkids' as (-> & Hshow & Hwf).
    split; [reflexivity|]. eexists. split; [reflexivity|]. split.
    + constructor.
      * simpl in Htag'. rewrite Htag'. exact Htag.
      * intros key Hk'. apply Hattrs. now apply plainKey_not_checked in Hk'.
      * exact Hshow.
    + constructor; [exact Hnd|exact Hwf].
  - inversion Hreg.
Qed.








Lemma nth_error_middle (A : Type) (done rest : list A) (c : A) :
  nth_error (done ++ c :: rest) (List.length done) = Some c.
Proof. rewrite nth_error_app2 by lia. now rewrite Nat.sub_diag. Qed.

Lemma firstn_done (A : Type) (done rest : list A) :
  firstn (List.length done) (done ++ rest) = done.
Proof.
  rewrite firstn_app, Nat.sub_diag, firstn_all. simpl. apply app_nil_r.
Qed.

Lemma skipn_done (A : Type) (done rest : list A) (c : A) :
  skipn (S (List.length done)) (done ++ c :: rest) = rest.
Proof.
  rewrite skipn_app. rewrite skipn_all2 by lia.
  replace (S (List.length done) - List.length done) with 1 by lia. reflexivity.
Qed.


Lemma createVNode_text_inv el s : createVNode el = Some (VText s) -> el = TextNode s.
Proof.
  destruct el as [d|k d|p cs]; simpl; try discriminate.
  now intros H; injection H as ->.
Qed.







(** Where the conditions on names are not met, the patch does not
    converge.  A stale attribute that bears the name of a member of
    [Object.prototype] stays, since [key in newAttrs] holds for it: from
    [<div constructor=x>] to [<div>], [diff] issues no mutation. *)
Example diff_keeps_attribute_named_constructor :
  let app := mkProps "DIV" [("id", "app")] None false false in
  let child := ElementNode (mkProps "DIV" [("constructor", "x")] None false false) [] in
  MiniHost.parse "DIV" "<div constructor=x></div>" = [child]
  /\ diff MiniHost.host (ElementNode app [child]) "<div constructor=x></div>" "<div></div>"
     = Return (ElementNode app [child]) []
  /\ showsHTML MiniHost.host (ElementNode app [child]) "<div></div>" = false.
Proof. repeat split. Qed.

(** An element built from a vnode is an HTML element, on which
    [setAttribute] puts the name in lower case: [viewBox] comes out as
    [viewbox]. *)
Example createElementFromVNode_lowers_attribute_names :
  createElementFromVNode MiniHost.host (VElement "svg" [("viewBox", "0 0 1 1")] [])
  = Return [ElementNode (mkProps "SVG" [("viewbox", "0 0 1 1")] None false false) []] [].
Proof. reflexivity. Qed.

(** The value of a hidden input is its [value] attribute, which the live
    property writes; a file input refuses a value, and [diff] falls back
    to [innerHTML]. *)
Example updateAttributes_on_hidden_and_file_inputs :
  let hidden := mkProps "INPUT" [("type", "hidden"); ("value", "a")] None false false in
  let file := mkProps "INPUT" [("type", "file")] None false false in
  let app := mkProps "DIV" [("id", "app")] None false false in
  updateAttributes MiniHost.host (Some (ElementNode hidden []))
                   (attributes hidden) [("type", "hidden"); ("value", "b")]
  = Return (Some (ElementNode
                    (mkProps "INPUT" [("type", "hidden"); ("value", "b")] (Some "b")
                             false false) []))
           [SetValue "b"]
  /\ updateAttributes MiniHost.host (Some (ElementNode file []))
                      (attributes file) [("type", "file"); ("value", "b")]
     = Throw InvalidStateError []
  /\ diff MiniHost.host (ElementNode app [ElementNode file []])
          "<input type=file>" "<input type=file value=b>"
     = Return (ElementNode app (MiniHost.parse "DIV" "<input type=file value=b>"))
              [SetInnerHTML "<input type=file value=b>"].
Proof. repeat split. Qed.

(** ** Rendering the same HTML again *)

Lemma forEach_ret {K S : Type} (f : K -> S -> Outcome S) (l : list K) (s : S) :
  (forall k, In k l -> f k s = ret s) -> forEach l f s = ret s.
Proof.
  induction l as [|k l IH]; intros H; [reflexivity|]. simpl.
  rewrite (H k (or_introl eq_refl)). simpl. rewrite IH; [reflexivity|].
  intros k' Hk'. apply H. now right.
Qed.

(** With the same map as old and as new, [updateAttributes] does not look
    at the node at all. *)
Lemma updateAttributes_same B el attrs : updateAttributes B el attrs attrs = ret el.
Proof.
  unfold updateAttributes. rewrite forEach_ret.
  - simpl. rewrite forEach_ret; [reflexivity|].
    intros k Hk. unfold updateAttribute, JsObject.read.
    apply has_keys in Hk. unfold Assoc.has in Hk.
    destruct (JsObject.get k attrs) as [v|]; [|discriminate].
    simpl. now rewrite String.eqb_refl.
  - intros k Hk. unfold removeStale, JsObject.has. apply has_keys in Hk.
    now rewrite Hk.
Qed.

Lemma sameVNode_refl v : sameVNode (Some v) (Some v) = true.
Proof.
  destruct v as [s|tag attrs children|children]; try reflexivity.
  unfold sameVNode, keyOf. simpl. rewrite String.eqb_refl. simpl.
  destruct (JsObject.get "key" attrs) as [k|]; simpl; [|reflexivity].
  rewrite String.eqb_refl. now destruct (JsString.truthy k).
Qed.

(** The loop of [patchChildren] over children that are already what the
    new vnodes say. *)
Lemma patchChildrenFrom_same B vs :
  Forall (fun v => forall el, wellFormed el -> createVNode el = Some v ->
                              patch B true (Some el) (Some v) v = Return [el] []) vs ->
  forall done rest p,
    Forall2 (fun c v => createVNode c = Some v) rest vs ->
    Forall wellFormed rest ->
    patchChildrenFrom B (patch B true) (List.length done)
                      (Some (ElementNode p (done ++ rest))) vs vs
    = Return (Some (ElementNode p (done ++ rest))) [].
Proof.
  induction vs as [|v vs IH]; intros HP done rest p Hrest Hwf.
  - reflexivity.
  - inversion HP as [|? ? HPv HPvs]; subst.
    inversion Hrest as [|c ? rest' ? Hc Hrest']; subst.
    inversion Hwf as [|? ? Hwc Hwrest]; subst.
    rewrite patchChildrenFrom_cons. unfold childAt. simpl childNodesOf.
    rewrite nth_error_middle. simpl bind at 1.
    rewrite (HPv c Hwc Hc). unfold putChild.
    assert (Hs := skipn_done done rest' c).
    rewrite firstn_done. simpl in Hs |- *. rewrite Hs.
    assert (Hnext := IH HPvs (done ++ [c]) rest' p Hrest' Hwrest).
    rewrite <- app_assoc, length_app in Hnext. simpl in Hnext.
    rewrite Nat.add_1_r in Hnext. now rewrite Hnext.
Qed.

(** Patching a well-formed live node against its own vnode as old and as
    new tree changes nothing. *)
Lemma patch_same_no_mutation B v : forall el,
  wellFormed el -> createVNode el = Some v ->
  patch B true (Some el) (Some v) v = Return [el] [].
Proof.
  induction v as [s|tag attrs children IH|children IH] using VNode_induction;
    intros el Hwf Hv; rewrite patch_unfold, sameVNode_refl; cbn [negb].
  - apply createVNode_text_inv in Hv. subst el. simpl.
    now rewrite String.eqb_refl.
  - destruct Hwf as [s|p cs Hnd Hcs]; [discriminate|].
    rewrite (createVNode_wellFormed_element p cs Hnd) in Hv.
    injection Hv as <- <- <-. simpl attrsOr. simpl childrenOr.
    rewrite updateAttributes_same. simpl bind at 1.
    unfold patchChildren.
    assert (Hloop := @patchChildrenFrom_same B (pushVNodes cs) IH [] cs p
                       (pushVNodes_wellFormed Hcs) Hcs).
    simpl in Hloop. now rewrite Hloop.
  - apply createVNode_not_fragment in Hv. now elim Hv.
Qed.

(** Idempotence where it holds: a container whose only child is a
    well-formed node with the vnode parsed from the HTML is left alone by
    [diff] with that HTML as previous and as new string. *)
Lemma diff_same_html_single_root_no_mutation B p el html :
  JsString.truthy html = true ->
  wellFormed el ->
  createVNode el = Some (parseHTML B html) ->
  diff B (ElementNode p [el]) html html = Return (ElementNode p [el]) [].
Proof.
  intros Ht Hwf Hv. unfold diff, diffTry. rewrite Ht. simpl orb. cbv iota.
  rewrite Hv, (patch_same_no_mutation B Hwf Hv). reflexivity.
Qed.

(** C3: rendering twice a string with two top-level elements.  The first
    render sets the content; the second, with the same string as previous
    and as new HTML, replaces the first paragraph by two new ones and
    leaves the second in place: one live replacement, and three
    paragraphs where the string has two.  A string that starts with white
    space fares alike: the second render replaces the white-space text
    node by a second copy of the paragraph. *)
Theorem diff_same_html_replaces_first_child :
  let app := fun cs => ElementNode (mkProps "DIV" [("id", "app")] None false false) cs in
  let para := fun s => ElementNode (mkProps "P" [] None false false) [TextNode s] in
  let html := "<p>a</p><p>b</p>" in
  let padded := " <p>a</p>" in
  diff MiniHost.host (app []) EmptyString html
  = Return (app [para "a"; para "b"]) [SetInnerHTML html]
  /\ diff MiniHost.host (app [para "a"; para "b"]) html html
     = Return (app [para "a"; para "b"; para "b"]) [ReplaceChild [para "a"; para "b"]]
  /\ showsHTML MiniHost.host (app [para "a"; para "b"; para "b"]) html = false
  /\ diff MiniHost.host (app []) EmptyString padded
     = Return (app [TextNode " "; para "a"]) [SetInnerHTML padded]
  /\ diff MiniHost.host (app [TextNode " "; para "a"]) padded padded
     = Return (app [para "a"; para "a"]) [ReplaceChild [para "a"]].
Proof. repeat split. Qed.

(** * Further properties of the reconciler *)

(** The key test of [sameVNode], on its own. *)
Lemma keyTest_sym (a b : option string) :
  (if truthyValue a || truthyValue b then strictEq a b else true)
  = (if truthyValue b || truthyValue a then strictEq b a else true).
Proof.
  rewrite (orb_comm (truthyValue b)).
  destruct (truthyValue a || truthyValue b); [|reflexivity].
  destruct (strictEq a b) eqn:E.
  - apply strictEq_true in E. subst. symmetry. now apply strictEq_true.
  - destruct (strictEq b a) eqn:E'; [|reflexivity].
    apply strictEq_true in E'. subst b.
    assert (strictEq a a = true) by (now apply strictEq_true). congruence.
Qed.

Lemma keyTest_trans (a b c : option string) :
  (if truthyValue a || truthyValue b then strictEq a b else true) = true ->
  (if truthyValue b || truthyValue c then strictEq b c else true) = true ->
  (if truthyValue a || truthyValue c then strictEq a c else true) = true.
Proof.
  intros H1 H2.
  destruct (truthyValue a) eqn:Ta; simpl in *.
  - apply strictEq_true in H1. subst b. rewrite Ta in H2. simpl in H2. exact H2.
  - destruct (truthyValue b) eqn:Tb; simpl in *.
    + apply strictEq_true in H1. subst b. congruence.
    + destruct (truthyValue c) eqn:Tc; [|reflexivity].
      apply strictEq_true in H2. subst c. congruence.
Qed.

(** X1.  The same-node test is an equivalence on vnodes: every vnode is
    the same node as itself, the test does not depend on the order of its
    arguments, and it is transitive. *)
Theorem sameVNode_equivalence :
  (forall v, sameVNode (Some v) (Some v) = true)
  /\ (forall a b, sameVNode a b = sameVNode b a)
  /\ (forall a b c, sameVNode a b = true -> sameVNode b c = true ->
                    sameVNode a c = true).
Proof.
  split; [apply sameVNode_refl|]. split.
  - intros [a|] [b|]; try reflexivity.
    destruct a as [s|ta aa ca|ca], b as [t|tb ab cb|cb]; try reflexivity.
    unfold sameVNode, keyOf. simpl. rewrite (String.eqb_sym tb ta).
    destruct (String.eqb ta tb); simpl; [|reflexivity]. apply keyTest_sym.
  - intros [a|] [b|] [c|]; try discriminate.
    destruct a as [s|ta aa ca|ca], b as [t|tb ab cb|cb], c as [u|tc ac cc|cc];
      try discriminate; try reflexivity.
    unfold sameVNode, keyOf. simpl.
    destruct (String.eqb ta tb) eqn:E1; simpl; [|discriminate].
    destruct (String.eqb tb tc) eqn:E2; simpl; [|discriminate].
    apply String.eqb_eq in E1, E2. subst tb tc. rewrite String.eqb_refl. simpl.
    apply keyTest_trans.
Qed.

Lemma sameVNode_equivalence_witness :
  sameVNode (Some (VElement "li" [("key", "7"); ("class", "a")] []))
            (Some (VElement "li" [("key", "7")] [VText "x"])) = true
  /\ sameVNode (Some (VElement "li" [("key", "7"); ("class", "a")] []))
               (Some (VElement "li" [("id", "i"); ("key", "7")] [])) = true.
Proof.
  split; [reflexivity|].
  apply (proj2 (proj2 sameVNode_equivalence)
               (Some (VElement "li" [("key", "7"); ("class", "a")] []))
               (Some (VElement "li" [("key", "7")] [VText "x"]))
               (Some (VElement "li" [("id", "i"); ("key", "7")] []))); reflexivity.
Defined.

(** The receiver of [updateAttributes] stays a node. *)
Lemma updateAttributes_keeps_node B n oldAttrs newAttrs s lg :
  updateAttributes B (Some n) oldAttrs newAttrs = Return s lg ->
  exists n', s = Some n'.
Proof.
  unfold updateAttributes. intros H.
  apply bind_Return in H. destruct H as (s1 & l1 & l2 & H1 & H2 & _).
  pose (P := fun (_ : list string) (_ : list Mutation) (s : option DomNode) =>
               exists n', s = Some n').
  assert (S1 : P (JsObject.keys oldAttrs) l1 s1).
  { assert (G := @forEach_invariant _ _ P (fun _ => True) (removeStale newAttrs)
                   (JsObject.keys oldAttrs)).
    lazymatch type of G with ?A -> _ => assert (Hstep : A) end.
    { intros done k rest lg0 s0 _ (n0 & ->). unfold removeStale.
      destruct (negb (JsObject.has k newAttrs)); [|now exists n0].
      destruct n0 as [d|kd d|p cs]; simpl; try exact I. now eexists. }
    specialize (G Hstep (Some n) (ex_intro _ n eq_refl)).
    rewrite H1 in G. exact G. }
  destruct S1 as (n1 & ->).
  assert (G := @forEach_invariant _ _ P (fun _ => True)
                 (updateAttribute B oldAttrs newAttrs) (JsObject.keys newAttrs)).
  lazymatch type of G with ?A -> _ => assert (Hstep : A) end.
  { intros done k rest lg0 s0 _ (n0 & ->). unfold updateAttribute.
    destruct (JsObject.get k newAttrs) as [v|]; [|now exists n0].
    cbv zeta.
    destruct (negb (JsObject.isString v (JsObject.read k oldAttrs))); [|now exists n0].
    destruct n0 as [d|kd d|p cs]; destruct (String.eqb k "value"); simpl;
      repeat match goal with
             | |- context [if ?b then _ else _] => destruct b; simpl
             | |- context [match assignValue ?q ?w with _ => _ end] =>
                 destruct (assignValue q w); simpl
             end; try exact I; now eexists. }
  specialize (G Hstep (Some n1) (ex_intro _ n1 eq_refl)).
  rewrite H2 in G. exact G.
Qed.

Lemma removeExtra_keeps_node olds : forall i n r lg,
  removeExtra i (Some n) olds = Return r lg -> exists n', r = Some n'.
Proof.
  induction olds as [|o olds IH]; intros i n r lg H.
  - injection H as <- _. now exists n.
  - rewrite removeExtra_cons in H.
    apply bind_Return in H. destruct H as (childEl & l1 & l2 & _ & H & _).
    apply bind_Return in H. destruct H as (parent & l3 & l4 & Hp & H & _).
    destruct childEl as [c|].
    + destruct n as [d|k d|p cs]; try discriminate.
      injection Hp as <- _. now apply IH in H.
    + injection Hp as <- _. now apply IH in H.
Qed.

Lemma patchChildrenFrom_keeps_node B f news : forall i n olds r lg,
  patchChildrenFrom B f i (Some n) olds news = Return r lg -> exists n', r = Some n'.
Proof.
  induction news as [|v news IH]; intros i n olds r lg H.
  - rewrite patchChildrenFrom_nil in H. now apply removeExtra_keeps_node in H.
  - rewrite patchChildrenFrom_cons in H.
    apply bind_Return in H. destruct H as (childEl & l1 & l2 & _ & H & _).
    apply bind_Return in H. destruct H as (parent & l3 & l4 & Hp & H & _).
    destruct olds as [|o olds].
    + apply bind_Return in Hp. destruct Hp as (newEl & l5 & l6 & _ & Hp & _).
      destruct n as [d|k d|p cs]; try discriminate.
      injection Hp as <- _. now apply IH in H.
    + apply bind_Return in Hp. destruct Hp as (nodes & l5 & l6 & _ & Hp & _).
      injection Hp as <- _.
      destruct childEl as [c|]; [destruct n as [d|k d|p cs]|]; simpl in H;
        now apply IH in H.
Qed.

(** A text or element vnode is built as exactly one node. *)
Lemma createElementFromVNode_one_node B v nodes lg :
  isFragment v = false ->
  createElementFromVNode B v = Return nodes lg ->
  exists n, nodes = [n].
Proof.
  destruct v as [s|tag attrs children|children]; intros Hf H; try discriminate.
  - injection H as <- _. now eexists.
  - rewrite createElementFromVNode_element in H.
    apply bind_Return in H. destruct H as (el & l1 & l2 & _ & H & _).
    apply bind_Return in H. destruct H as (el' & l3 & l4 & _ & H & _).
    apply bind_Return in H. destruct H as (kids & l5 & l6 & _ & H & _).
    destruct el' as [[d|k d|p cs]|]; try discriminate.
    injection H as <- _. now eexists.
Qed.

(** A live node patched against a text or element vnode is one node
    afterwards, patched in place or replaced. *)
Lemma patch_one_node B attached n oldVNode newVNode nodes lg :
  isFragment newVNode = false ->
  patch B attached (Some n) oldVNode newVNode = Return nodes lg ->
  exists n', nodes = [n'].
Proof.
  intros Hf H. rewrite patch_unfold in H.
  destruct (negb (sameVNode oldVNode (Some newVNode))).
  - apply bind_Return in H. destruct H as (newEl & l1 & l2 & Hn & H & _).
    destruct (createElementFromVNode B newVNode) as [ns lc|e lc] eqn:En; [|discriminate].
    injection Hn as <- _.
    destruct (createElementFromVNode_one_node B newVNode Hf En) as (n' & ->).
    simpl in H. destruct attached; injection H as <- _; now eexists.
  - destruct newVNode as [value|tag attrs children|children]; try discriminate.
    + destruct (negb (strictEq (valueOf oldVNode) (Some value))).
      * apply bind_Return in H. destruct H as (el & l1 & l2 & He & H & _).
        destruct n as [d|k d|p cs]; injection He as <- _; injection H as <- _;
          now eexists.
      * injection H as <- _. now eexists.
    + apply bind_Return in H. destruct H as (el1 & l1 & l2 & Hu & H & _).
      apply bind_Return in H. destruct H as (el2 & l3 & l4 & Hc & H & _).
      apply updateAttributes_keeps_node in Hu. destruct Hu as (n1 & ->).
      unfold patchChildren in Hc.
      apply patchChildrenFrom_keeps_node in Hc. destruct Hc as (n2 & ->).
      injection H as <- _. now eexists.
Qed.

Lemma length_remove_at (A : Type) (l : list A) (i : nat) :
  i < List.length l -> List.length (firstn i l ++ skipn (S i) l) = List.length l - 1.
Proof.
  intros H. rewrite length_app, length_firstn, length_skipn. lia.
Qed.

Lemma length_put_at (A : Type) (l : list A) (i : nat) (x : A) :
  i < List.length l ->
  List.length (firstn i l ++ [x] ++ skipn (S i) l) = List.length l.
Proof.
  intros H. rewrite !length_app, length_firstn, length_skipn. simpl. lia.
Qed.

(** The loop of [patchChildren] from index [i] on, counting children. *)
Lemma patchChildrenFrom_count B news :
  Forall (fun v => isFragment v = false) news ->
  forall i p cs olds r lg,
    List.length cs = i + List.length olds ->
    List.length olds <= S (List.length news) ->
    patchChildrenFrom B (patch B true) i (Some (ElementNode p cs)) olds news
    = Return r lg ->
    exists cs', r = Some (ElementNode p cs')
                /\ List.length cs' = i + List.length news.
Proof.
  induction news as [|v news IH]; intros Hfrag i p cs olds r lg Hlen Hle H.
  - rewrite patchChildrenFrom_nil in H.
    destruct olds as [|o [|o' olds]]; [| |simpl in Hle; lia].
    + injection H as <- _. exists cs. simpl in *. split; [reflexivity|lia].
    + rewrite removeExtra_cons in H. unfold childAt in H. simpl childNodesOf in H.
      simpl in Hlen.
      destruct (nth_error cs i) as [c|] eqn:En;
        [|apply nth_error_None in En; lia].
      cbn in H. injection H as <- _. eexists. split; [reflexivity|].
      assert (Hr := @length_remove_at _ cs i). simpl in Hr |- *.
      rewrite Hr by lia. lia.
  - inversion Hfrag as [|? ? Hv Hnews]; subst.
    rewrite patchChildrenFrom_cons in H.
    apply bind_Return in H. destruct H as (childEl & l1 & l2 & Hc & H & _).
    apply bind_Return in H. destruct H as (parent & l3 & l4 & Hp & H & _).
    unfold childAt in Hc. simpl childNodesOf in Hc. injection Hc as <- _.
    destruct olds as [|o olds].
    + apply bind_Return in Hp. destruct Hp as (newEl & l5 & l6 & Hn & Hp & _).
      destruct (createElementFromVNode B v) as [ns lc|e lc] eqn:En; [|discriminate].
      injection Hn as <- _.
      destruct (createElementFromVNode_one_node B v Hv En) as (n' & ->).
      injection Hp as <- _.
      apply (IH Hnews (S i) p (cs ++ [n']) [] r l4) in H.
      * destruct H as (cs' & -> & Hl). exists cs'. split; [reflexivity|]. simpl. lia.
      * rewrite length_app. simpl in *. lia.
      * simpl. lia.
    + apply bind_Return in Hp. destruct Hp as (nodes & l5 & l6 & Hpatch & Hp & _).
      simpl in Hlen.
      destruct (nth_error cs i) as [c|] eqn:En;
        [|apply nth_error_None in En; lia].
      destruct (patch_one_node B true c (Some o) v Hv Hpatch) as (n' & ->).
      injection Hp as <- _. unfold putChild in H. simpl tl in H.
      apply (IH Hnews (S i) p _ olds r l4) in H.
      * destruct H as (cs' & -> & Hl). exists cs'. split; [reflexivity|]. simpl. lia.
      * assert (Hpl := @length_put_at _ cs i n'). simpl in Hpl |- *.
        rewrite Hpl by lia. lia.
      * simpl in Hle. lia.
Qed.

(** X2.  Children are counted right when at most one has to go.  For a
    live element with as many children as the old sequence has vnodes, an
    old sequence at most one longer than the new one, and no fragment
    among the new vnodes: when [patchChildren] returns, the element has
    exactly as many children as the new sequence. *)
Theorem patchChildren_child_count
    (B : Browser) (p : ElementProps) (cs : list DomNode)
    (oldChildren newChildren : list VNode) (r : option DomNode) (lg : list Mutation) :
  Forall (fun v => isFragment v = false) newChildren ->
  List.length cs = List.length oldChildren ->
  List.length oldChildren <= S (List.length newChildren) ->
  patchChildren B (Some (ElementNode p cs)) oldChildren newChildren = Return r lg ->
  exists cs', r = Some (ElementNode p cs')
              /\ List.length cs' = List.length newChildren.
Proof.
  intros Hfrag Hlen Hle H. unfold patchChildren in H.
  now apply (patchChildrenFrom_count B Hfrag 0 p cs oldChildren) in H.
Qed.

Lemma patchChildren_child_count_witness :
  let li := fun s => ElementNode (mkProps "LI" [] None false false) [TextNode s] in
  let ul := mkProps "UL" [] None false false in
  let vli := fun s => VElement "li" [] [VText s] in
  exists cs',
    patchChildren MiniHost.host (Some (ElementNode ul [li "a"; li "b"]))
                  [vli "a"; vli "b"] [vli "x"]
    = Return (Some (ElementNode ul cs')) [SetTextContent "x"; RemoveChild 1]
    /\ List.length cs' = 1.
Proof.
  intros li ul vli.
  destruct (@patchChildren_child_count MiniHost.host ul [li "a"; li "b"]
              [vli "a"; vli "b"] [vli "x"]
              (Some (ElementNode ul [li "x"])) [SetTextContent "x"; RemoveChild 1])
    as (cs' & E & Hl).
  - repeat constructor.
  - reflexivity.
  - simpl. lia.
  - reflexivity.
  - injection E as <-. exists [li "x"]. split; reflexivity.
Defined.

Lemma get_In_NoDup key v o :
  NoDup (JsObject.keys o) -> In (key, v) o -> JsObject.get key o = Some v.
Proof.
  induction o as [|[k w] o IH]; intros Hnd Hin; [destruct Hin|]. simpl.
  inversion Hnd as [|? ? Hk Hnd']; subst.
  destruct Hin as [E|Hin].
  - injection E as -> ->. now rewrite String.eqb_refl.
  - destruct (String.eqb key k) eqn:E; [|now apply IH].
    apply String.eqb_eq in E. subst k. elim Hk.
    apply (in_map fst) in Hin. exact Hin.
Qed.

(** The attribute loop of [createElementFromVNode] on distinct names in
    lower case without [checked]: the attributes are set in order. *)
Lemma setCreatedAttribute_loop_exact B attrs rest : forall acc p s lg,
  NoDup (JsObject.keys (acc ++ rest)) ->
  Forall (fun key => JsString.toLowerCase key = key) (JsObject.keys rest) ->
  ~ In "checked" (JsObject.keys rest) ->
  (forall k v, In (k, v) rest -> JsObject.get k attrs = Some v) ->
  attributes p = acc ->
  forEach (JsObject.keys rest) (setCreatedAttribute B attrs) (Some (ElementNode p []))
  = Return s lg ->
  s = Some (ElementNode (withAttributes p (acc ++ rest)) []) /\ lg = [].
Proof.
  induction rest as [|[k v] rest IH]; intros acc p s lg Hnd Hlow Hc Hget Hacc H.
  - injection H as <- <-. rewrite app_nil_r, <- Hacc. now destruct p.
  - simpl in H. apply bind_Return in H. destruct H as (s1 & l1 & l2 & H1 & H & ->).
    assert (Hlk := Forall_inv Hlow). assert (Hlrest := Forall_inv_tail Hlow).
    unfold setCreatedAttribute in H1. rewrite (Hget k v (or_introl eq_refl)) in H1.
    assert (Hk : String.eqb k "checked" = false).
    { apply String.eqb_neq. intros ->. apply Hc. now left. }
    rewrite Hk in H1. simpl in H1.
    destruct (validAttributeName B k); [|discriminate]. simpl in H1.
    simpl in Hlk. rewrite Hlk in H1.
    injection H1 as <- <-.
    assert (Hfresh : ~ In k (JsObject.keys acc)).
    { unfold JsObject.keys in Hnd. rewrite map_app in Hnd. simpl in Hnd.
      apply NoDup_remove_2 in Hnd. intros Hin. apply Hnd, in_or_app. now left. }
    rewrite Hacc in H. rewrite set_fresh in H by exact Hfresh.
    apply (IH (acc ++ [(k, v)]) _ s l2) in H.
    + destruct H as (-> & ->). rewrite <- app_assoc. simpl. split; reflexivity.
    + now rewrite <- app_assoc.
    + exact Hlrest.
    + intros Hin. apply Hc. now right.
    + intros k' v' Hin. apply Hget. now right.
    + reflexivity.
Qed.

Lemma pushVNodes_singletons kids children :
  Forall2 (fun n v => createVNode n = Some v) kids children ->
  pushVNodes kids = children.
Proof.
  induction 1 as [|n v kids children Hn _ IH]; [reflexivity|].
  rewrite pushVNodes_cons, Hn, IH. reflexivity.
Qed.

Lemma createElementFromVNode_createVNode B v :
  plainVNode v ->
  forall nodes lg,
    createElementFromVNode B v = Return nodes lg ->
    lg = [] /\ exists n, nodes = [n] /\ createVNode n = Some v.
Proof.
  induction v as [s|tag attrs children IH|children IH] using VNode_induction;
    intros Hplain nodes lg H.
  - injection H as <- <-. split; [reflexivity|]. now exists (TextNode s).
  - inversion Hplain as [|? ? ? Htag Hnd Hown Hchk Hkids]; subst.
    rewrite createElementFromVNode_element in H.
    apply bind_Return in H. destruct H as (el & l1 & l2 & Hc & H & ->).
    apply bind_Return in H. destruct H as (el' & l3 & l4 & Hl & H & ->).
    apply bind_Return in H. destruct H as (kids & l5 & l6 & Hk & H & ->).
    unfold createElement in Hc. destruct (validElementName B tag); [|discriminate].
    injection Hc as <- <-.
    apply (@setCreatedAttribute_loop_exact B attrs attrs [] _ el' l3) in Hl;
      [|exact Hnd|eapply Forall_impl; [|exact Hown]; now intros k [Hk' _]
       |exact Hchk|intros k v; now apply get_In_NoDup|reflexivity].
    destruct Hl as (-> & ->). injection H as <- <-.
    assert (Hkids' : l5 = [] /\ Forall2 (fun n v => createVNode n = Some v) kids children).
    { clear Hplain. revert kids l5 Hk.
      induction children as [|c rest IHrest]; intros kids l5 Hk.
      - injection Hk as <- <-. split; constructor.
      - rewrite appendAll_cons in Hk.
        apply bind_Return in Hk. destruct Hk as (ns & m1 & m2 & Hn & Hk & ->).
        apply bind_Return in Hk. destruct Hk as (others & m3 & m4 & Ho & Hk & ->).
        injection Hk as <- <-.
        inversion IH as [|? ? IHc IHr]; subst.
        inversion Hkids as [|? ? Hpc Hpr]; subst.
        destruct (IHc Hpc _ _ Hn) as (-> & n & -> & Hs).
        destruct (IHrest IHr Hpr _ _ Ho) as (-> & Hs').
        split; [reflexivity|]. simpl. now constructor. }
    destruct Hkids' as (-> & Hshow).
    split; [reflexivity|]. eexists. split; [reflexivity|].
    rewrite createVNode_element. cbn [attributes tagName withAttributes app].
    unfold JsObject.empty, Assoc.empty.
    rewrite Htag, (@fold_assign_distinct attrs []) by exact Hnd. simpl.
    rewrite ownedAttrs_own
      by (eapply Forall_impl; [|exact Hown]; now intros k [_ Hk']).
    now rewrite (pushVNodes_singletons Hshow).
  - inversion Hplain.
Qed.

(** X3.  Building and reading back.  For a vnode with lower-case tags,
    distinct attribute names in lower case, none of them [__proto__], and
    no [checked] attribute, whenever
    [createElementFromVNode] returns, it returns one node, issues no live
    mutation, and [createVNode] of that node is the vnode itself. *)
Theorem createVNode_of_createElementFromVNode
    (B : Browser) (v : VNode) (nodes : list DomNode) (lg : list Mutation) :
  plainVNode v ->
  createElementFromVNode B v = Return nodes lg ->
  lg = [] /\ exists n, nodes = [n] /\ createVNode n = Some v.
Proof. intros Hplain H. exact (createElementFromVNode_createVNode B Hplain H). Qed.

Lemma createVNode_of_createElementFromVNode_witness :
  let v := VElement "ul" [("class", "list"); ("id", "l")]
                    [VElement "li" [("key", "1")] [VText "one"]; VText " "] in
  exists n, createElementFromVNode MiniHost.host v = Return [n] []
            /\ createVNode n = Some v.
Proof.
  intros v.
  destruct (@createVNode_of_createElementFromVNode MiniHost.host v
              [ElementNode (mkProps "UL" [("class", "list"); ("id", "l")] None false false)
                 [ElementNode (mkProps "LI" [("key", "1")] None false false)
                    [TextNode "one"];
                  TextNode " "]] [])
    as (_ & n & E & Hv).
  - repeat constructor; simpl; try reflexivity; intuition discriminate.
  - reflexivity.
  - exists n. split; [now rewrite <- E|exact Hv].
Defined.

(** X4.  Replacement of a node of another kind.  When the live node's
    vnode and the new vnode are not the same node and [patch] returns,
    the live node has been replaced: the one mutation is the replacement,
    the nodes put in its place are those [createElementFromVNode] builds
    from the new vnode, and for a regular new vnode whose attribute names
    are in lower case it is one well-formed node that shows it.  A node
    without parent is left as it is. *)
Theorem patch_replaces_node_that_is_not_the_same
    (B : Browser) (el : DomNode) (oldVNode : option VNode) (newVNode : VNode)
    (nodes : list DomNode) (lg : list Mutation) :
  sameVNode oldVNode (Some newVNode) = false ->
  (patch B true (Some el) oldVNode newVNode = Return nodes lg ->
   lg = [ReplaceChild nodes]
   /\ createElementFromVNode B newVNode = Return nodes []
   /\ (regular newVNode -> lowerNames newVNode ->
       exists n, nodes = [n] /\ shows n newVNode /\ wellFormed n))
  /\ (patch B false (Some el) oldVNode newVNode = Return nodes lg ->
      nodes = [el] /\ lg = []).
Proof.
  intros Hsame. split; intros H; rewrite patch_unfold, Hsame in H; cbn [negb] in H;
    apply bind_Return in H; destruct H as (newEl & l1 & l2 & Hn & H & ->);
    destruct (createElementFromVNode B newVNode) as [ns lc|e lc] eqn:En;
    try discriminate; injection Hn as <- <-; simpl in H; injection H as <- <-.
  - assert (Hlc : forall v ns lc, createElementFromVNode B v = Return ns lc -> lc = []).
    { clear. intros v. induction v as [s|tag attrs children IH|children IH]
        using VNode_induction; intros ns lc H.
      - now injection H as _ <-.
      - rewrite createElementFromVNode_element in H.
        apply bind_Return in H. destruct H as (el & l1 & l2 & Hc & H & ->).
        apply bind_Return in H. destruct H as (el' & l3 & l4 & Hl & H & ->).
        apply bind_Return in H. destruct H as (kids & l5 & l6 & Hk & H & ->).
        unfold createElement in Hc. destruct (validElementName B tag); [|discriminate].
        injection Hc as <- <-.
        assert (Hloop := @setCreatedAttribute_loop B attrs
                           (mkProps (JsString.toUpperCase tag) JsObject.empty None
                                    false false) eq_refl).
        rewrite Hl in Hloop. destruct Hloop as (-> & p' & -> & _).
        injection H as _ <-.
        assert (l5 = []); [|subst; reflexivity].
        clear Hl. revert kids l5 Hk.
        induction children as [|c rest IHrest]; intros kids l5 Hk.
        + now injection Hk as _ <-.
        + rewrite appendAll_cons in Hk.
          apply bind_Return in Hk. destruct Hk as (ns' & m1 & m2 & Hn & Hk & ->).
          apply bind_Return in Hk. destruct Hk as (others & m3 & m4 & Ho & Hk & ->).
          injection Hk as _ <-. inversion IH as [|? ? IHc IHr]; subst.
          rewrite (IHc _ _ Hn), (IHrest IHr _ _ Ho). reflexivity.
      - simpl in H. revert ns lc H.
        induction children as [|c rest IHrest]; intros kids l5 Hk.
        + now injection Hk as _ <-.
        + rewrite appendAll_cons in Hk.
          apply bind_Return in Hk. destruct Hk as (ns' & m1 & m2 & Hn & Hk & ->).
          apply bind_Return in Hk. destruct Hk as (others & m3 & m4 & Ho & Hk & ->).
          injection Hk as _ <-. inversion IH as [|? ? IHc IHr]; subst.
          rewrite (IHc _ _ Hn), (IHrest IHr _ _ Ho). reflexivity. }
    rewrite (Hlc _ _ _ En) in *. repeat split.
    intros Hreg Hlow.
    destruct (createElementFromVNode_shows B Hreg Hlow En) as (_ & n & -> & Hs & Hw).
    now exists n.
  - split; reflexivity.
Qed.

Lemma patch_replaces_node_that_is_not_the_same_witness :
  let span := ElementNode (mkProps "SPAN" [] None false false) [TextNode "hi"] in
  let para := ElementNode (mkProps "P" [] None false false) [TextNode "hi"] in
  patch MiniHost.host true (Some span) (createVNode span) (VElement "p" [] [VText "hi"])
  = Return [para] [ReplaceChild [para]]
  /\ shows para (VElement "p" [] [VText "hi"]).
Proof.
  intros span para. split; [reflexivity|].
  destruct (@patch_replaces_node_that_is_not_the_same MiniHost.host span (createVNode span)
              (VElement "p" [] [VText "hi"]) [para] [ReplaceChild [para]] eq_refl)
    as (Hrep & _).
  destruct (Hrep eq_refl) as (_ & _ & Hshow).
  destruct Hshow as (n & E & Hs & _); [repeat constructor|repeat constructor|].
  injection E as <-. exact Hs.
Defined.

(** X5.  Rendering again what is shown.  A container whose only child is
    a well-formed node with the vnode [parseHTML] gives for the string is
    left alone by [diff] with that string as previous and as new HTML: no
    mutation is issued and the container is returned as it is. *)
Theorem diff_again_single_root_is_silent
    (B : Browser) (p : ElementProps) (el : DomNode) (html : string) :
  JsString.truthy html = true ->
  wellFormed el ->
  createVNode el = Some (parseHTML B html) ->
  diff B (ElementNode p [el]) html html = Return (ElementNode p [el]) [].
Proof. apply diff_same_html_single_root_no_mutation. Qed.

Lemma diff_again_single_root_is_silent_witness :
  let app := mkProps "DIV" [("id", "app")] None false false in
  let html := "<ul class=menu><li>a</li><li>b</li></ul>" in
  diff MiniHost.host (ElementNode app (MiniHost.parse "DIV" html)) html html
  = Return (ElementNode app (MiniHost.parse "DIV" html)) [].
Proof.
  intros app html.
  apply (@diff_again_single_root_is_silent MiniHost.host app
           (ElementNode (mkProps "UL" [("class", "menu")] None false false)
              [ElementNode (mkProps "LI" [] None false false) [TextNode "a"];
               ElementNode (mkProps "LI" [] None false false) [TextNode "b"]]) html).
  - reflexivity.
  - repeat constructor; simpl; intuition discriminate.
  - reflexivity.
Defined.

(** * Functional utilities *)

(** X6.  [compose] is [pipe] with the functions in reverse order, and
    piping through two lists in a row is piping through the first and
    then through the second. *)
Theorem compose_is_pipe_reversed (A : Type) (fs gs : list (A -> A)) (value : A) :
  Functional.compose fs value = Functional.pipe (rev fs) value
  /\ Functional.pipe (fs ++ gs) value = Functional.pipe gs (Functional.pipe fs value)
  /\ Functional.compose (fs ++ gs) value
     = Functional.compose fs (Functional.compose gs value).
Proof.
  unfold Functional.compose, Functional.pipe. repeat split.
  - rewrite <- (rev_involutive fs) at 1. now rewrite fold_left_rev_right.
  - apply fold_left_app.
  - apply fold_right_app.
Qed.

Lemma calls_collects V R (fn : list V -> R) groups : forall length bound c,
  Functional.calls fn length bound groups = Some c ->
  match c with
  | Functional.Result r =>
      r = fn (bound ++ List.concat groups)
      /\ length <= List.length (List.concat groups)
  | Functional.Waiting length' bound' =>
      bound' = bound ++ List.concat groups
      /\ length' = length - List.length (List.concat groups)
      /\ (groups = [] \/ List.length (List.concat groups) < length)
  end.
Proof.
  induction groups as [|args rest IH]; intros length bound c H; simpl in H.
  - injection H as <-. simpl. rewrite app_nil_r, Nat.sub_0_r. auto.
  - unfold Functional.curry in H.
    destruct (length <=? List.length args) eqn:E.
    + apply Nat.leb_le in E. destruct rest; [|discriminate].
      injection H as <-. simpl. rewrite app_nil_r. auto.
    + apply Nat.leb_gt in E. apply IH in H. simpl. rewrite length_app.
      destruct c as [r|length' bound'].
      * destruct H as (-> & Hl). rewrite <- app_assoc. split; [reflexivity|lia].
      * destruct H as (-> & -> & Hl). rewrite <- app_assoc.
        repeat split; [lia|]. right. destruct Hl as [->|Hl]; simpl; lia.
Qed.

(** X7.  [curry]: however the arguments are spread over the calls, the
    function is called once its length is reached, with all the arguments
    given so far in the order given, those beyond its length included;
    until then each call returns a function that still waits for the
    missing number of arguments. *)
Theorem curry_collects_arguments
    (V R : Type) (fn : list V -> R) (length : nat) (groups : list (list V))
    (c : Functional.Curried V R) :
  Functional.calls fn length [] groups = Some c ->
  match c with
  | Functional.Result r =>
      r = fn (List.concat groups) /\ length <= List.length (List.concat groups)
  | Functional.Waiting length' bound =>
      bound = List.concat groups
      /\ length' = length - List.length (List.concat groups)
      /\ (groups = [] \/ List.length (List.concat groups) < length)
  end.
Proof. intros H. exact (calls_collects fn groups length [] H). Qed.

Lemma curry_collects_arguments_witness :
  let add := fun args : list nat => fold_left Nat.add args 0 in
  Functional.calls add 3 [] [[1]; []; [2; 3; 4]] = Some (Functional.Result 10)
  /\ 10 = add [1; 2; 3; 4].
Proof.
  intros add. split; [reflexivity|].
  exact (proj1 (@curry_collects_arguments nat nat add 3 [[1]; []; [2; 3; 4]]
                  (Functional.Result 10) eq_refl)).
Defined.

(** * [escapeHTML] *)

Section ReplaceAll.

Import TemplateEngine.

Lemma append_assoc (s t u : string) :
  String.append (String.append s t) u = String.append s (String.append t u).
Proof. induction s as [|a s IH]; simpl; [reflexivity|]. now rewrite IH. Qed.

Lemma replaceAll_append c by_ s t :
  replaceAll c by_ (String.append s t)
  = String.append (replaceAll c by_ s) (replaceAll c by_ t).
Proof.
  induction s as [|a s IH]; simpl; [reflexivity|].
  destruct (Ascii.eqb a c); simpl; rewrite IH; [|reflexivity].
  now rewrite append_assoc.
Qed.

Lemma length_append (s t : string) :
  String.length (String.append s t) = String.length s + String.length t.
Proof. induction s as [|a s IH]; simpl; [reflexivity|]. now rewrite IH. Qed.

Lemma append_empty_r (s : string) : String.append s "" = s.
Proof. induction s as [|a s IH]; simpl; [reflexivity|]. now rewrite IH. Qed.

Lemma escapeEach_append s t :
  escapeEach (String.append s t) = String.append (escapeEach s) (escapeEach t).
Proof.
  induction s as [|a s IH]; simpl; [reflexivity|]. now rewrite IH, append_assoc.
Qed.

Lemma escapeHTML_cons c s :
  escapeHTML (Some (String c s))
  = String.append (escapeChar c) (escapeHTML (Some s)).
Proof.
  unfold escapeHTML, escapeChar.
  change (String c s) with (String.append (String c "") s).
  rewrite !replaceAll_append.
  destruct (Ascii.eqb c "&") eqn:E1; [apply Ascii.eqb_eq in E1; subst; reflexivity|].
  destruct (Ascii.eqb c "<") eqn:E2; [apply Ascii.eqb_eq in E2; subst; reflexivity|].
  destruct (Ascii.eqb c ">") eqn:E3; [apply Ascii.eqb_eq in E3; subst; reflexivity|].
  destruct (Ascii.eqb c quot) eqn:E4; [apply Ascii.eqb_eq in E4; subst; reflexivity|].
  destruct (Ascii.eqb c apos) eqn:E5; [apply Ascii.eqb_eq in E5; subst; reflexivity|].
  simpl. rewrite E1. simpl. rewrite E2. simpl. rewrite E3. simpl. rewrite E4. simpl.
  rewrite E5. reflexivity.
Qed.

Lemma escapeHTML_escapeEach s : escapeHTML (Some s) = escapeEach s.
Proof.
  induction s as [|c s IH]; [reflexivity|].
  rewrite escapeHTML_cons, IH. reflexivity.
Qed.

Lemma occurs_append c s t :
  occurs c (String.append s t) = occurs c s || occurs c t.
Proof.
  induction s as [|a s IH]; simpl; [reflexivity|]. now rewrite IH, orb_assoc.
Qed.

Lemma escapeChar_cases c :
  (special c = false /\ escapeChar c = String c "")
  \/ (special c = true
      /\ (escapeChar c = "&amp;" \/ escapeChar c = "&lt;" \/ escapeChar c = "&gt;"
          \/ escapeChar c = "&quot;" \/ escapeChar c = "&#039;")).
Proof.
  unfold escapeChar, special.
  destruct (Ascii.eqb c "&"); [right; simpl; auto|].
  destruct (Ascii.eqb c "<"); [right; simpl; auto|].
  destruct (Ascii.eqb c ">"); [right; simpl; auto|].
  destruct (Ascii.eqb c quot); [right; simpl; auto 6|].
  destruct (Ascii.eqb c apos); [right; simpl; auto 6|].
  left. auto.
Qed.

End ReplaceAll.

(** X8.  The five replacements in a row amount to one pass that writes
    each character's own text: the entities written by an earlier
    replacement are not touched by a later one.  Hence the escaped text of
    a concatenation is the concatenation of the escaped texts. *)
Theorem escapeHTML_character_by_character (s t : string) :
  TemplateEngine.escapeHTML (Some s) = TemplateEngine.escapeEach s
  /\ TemplateEngine.escapeHTML (Some (String.append s t))
     = String.append (TemplateEngine.escapeHTML (Some s))
                     (TemplateEngine.escapeHTML (Some t)).
Proof.
  split; [apply escapeHTML_escapeEach|].
  rewrite !escapeHTML_escapeEach. apply escapeEach_append.
Qed.

(** X9.  The escaped text has none of the characters [<], [>], the
    double quote and the apostrophe, whatever the argument. *)
Theorem escapeHTML_has_no_markup_character (str : option string) (c : ascii) :
  c = "<"%char \/ c = ">"%char \/ c = TemplateEngine.quot \/ c = TemplateEngine.apos ->
  TemplateEngine.occurs c (TemplateEngine.escapeHTML str) = false.
Proof.
  intros Hc. destruct str as [s|]; [|reflexivity].
  rewrite escapeHTML_escapeEach.
  induction s as [|a s IH]; [reflexivity|].
  simpl. rewrite occurs_append, IH, orb_false_r.
  unfold TemplateEngine.escapeChar.
  destruct (Ascii.eqb a "&") eqn:E1;
    [destruct Hc as [-> | [-> | [-> | -> ]]]; reflexivity|].
  destruct (Ascii.eqb a "<") eqn:E2;
    [destruct Hc as [-> | [-> | [-> | -> ]]]; reflexivity|].
  destruct (Ascii.eqb a ">") eqn:E3;
    [destruct Hc as [-> | [-> | [-> | -> ]]]; reflexivity|].
  destruct (Ascii.eqb a TemplateEngine.quot) eqn:E4;
    [destruct Hc as [-> | [-> | [-> | -> ]]]; reflexivity|].
  destruct (Ascii.eqb a TemplateEngine.apos) eqn:E5;
    [destruct Hc as [-> | [-> | [-> | -> ]]]; reflexivity|].
  simpl. rewrite orb_false_r.
  destruct Hc as [-> | [-> | [-> | -> ]]]; assumption.
Qed.

Lemma escapeHTML_has_no_markup_character_witness :
  TemplateEngine.occurs "<"%char
    (TemplateEngine.escapeHTML (Some "<script>alert('x')</script>")) = false.
Proof.
  apply escapeHTML_has_no_markup_character. left. reflexivity.
Defined.

(** X10.  Escaping loses nothing: two texts with the same escaped text
    are the same text. *)
Theorem escapeHTML_injective (s t : string) :
  TemplateEngine.escapeHTML (Some s) = TemplateEngine.escapeHTML (Some t) -> s = t.
Proof.
  rewrite !escapeHTML_escapeEach. revert t.
  induction s as [|a s IH]; intros [|b t] H.
  - reflexivity.
  - exfalso. simpl in H.
    destruct (escapeChar_cases b) as [(_ & E)|(_ & [E|[E|[E|[E|E]]]])];
      rewrite E in H; discriminate.
  - exfalso. simpl in H.
    destruct (escapeChar_cases a) as [(_ & E)|(_ & [E|[E|[E|[E|E]]]])];
      rewrite E in H; discriminate.
  - simpl in H.
    assert (Hab : a = b /\ TemplateEngine.escapeEach s = TemplateEngine.escapeEach t).
    { unfold TemplateEngine.escapeChar in H.
      destruct (Ascii.eqb a "&") eqn:A1; [apply Ascii.eqb_eq in A1|];
      [|destruct (Ascii.eqb a "<") eqn:A2; [apply Ascii.eqb_eq in A2|];
        [|destruct (Ascii.eqb a ">") eqn:A3; [apply Ascii.eqb_eq in A3|];
          [|destruct (Ascii.eqb a TemplateEngine.quot) eqn:A4; [apply Ascii.eqb_eq in A4|];
            [|destruct (Ascii.eqb a TemplateEngine.apos) eqn:A5;
              [apply Ascii.eqb_eq in A5|]]]]];
      (destruct (Ascii.eqb b "&") eqn:B1; [apply Ascii.eqb_eq in B1|];
       [|destruct (Ascii.eqb b "<") eqn:B2; [apply Ascii.eqb_eq in B2|];
         [|destruct (Ascii.eqb b ">") eqn:B3; [apply Ascii.eqb_eq in B3|];
           [|destruct (Ascii.eqb b TemplateEngine.quot) eqn:B4; [apply Ascii.eqb_eq in B4|];
             [|destruct (Ascii.eqb b TemplateEngine.apos) eqn:B5;
               [apply Ascii.eqb_eq in B5|]]]]]);
      subst; simpl in H; try discriminate;
      try (injection H as H; split; [reflexivity|exact H]);
      try (injection H as Hc H; subst;
           first [discriminate
                 | rewrite Ascii.eqb_refl in *; discriminate
                 | split; [reflexivity|exact H]]). }
    destruct Hab as (-> & Hst). f_equal. now apply IH.
Qed.

Lemma escapeHTML_injective_witness :
  TemplateEngine.escapeHTML (Some "a<b") = "a&lt;b" /\ "a<b" = "a<b".
Proof.
  split; [reflexivity|].
  apply (@escapeHTML_injective "a<b" "a<b"). reflexivity.
Defined.

(** X11.  The text comes back unchanged exactly when it has none of the
    five characters; a text that has one grows, so that escaping twice is
    not escaping once. *)
Theorem escapeHTML_unchanged_iff_nothing_to_escape (s : string) :
  (TemplateEngine.escapeHTML (Some s) = s <-> TemplateEngine.anySpecial s = false)
  /\ (TemplateEngine.anySpecial s = true ->
      String.length s < String.length (TemplateEngine.escapeHTML (Some s))
      /\ TemplateEngine.escapeHTML (Some (TemplateEngine.escapeHTML (Some s)))
         <> TemplateEngine.escapeHTML (Some s)).
Proof.
  assert (Hlen : forall u, String.length u <= String.length (TemplateEngine.escapeEach u)
                 /\ (TemplateEngine.anySpecial u = true ->
                     String.length u < String.length (TemplateEngine.escapeEach u))).
  { induction u as [|a u [IH1 IH2]]; [split; [auto|discriminate]|].
    simpl. rewrite length_append.
    destruct (escapeChar_cases a) as [(Hs & E)|(Hs & [E|[E|[E|[E|E]]]])];
      rewrite E, Hs; simpl; (split; [lia|]); intros H; try lia.
    apply IH2 in H. lia. }
  assert (Hfix : forall u, TemplateEngine.anySpecial u = false ->
                           TemplateEngine.escapeEach u = u).
  { induction u as [|a u IH]; [reflexivity|]. simpl. intros H.
    apply orb_false_iff in H. destruct H as (Ha & Hu).
    destruct (escapeChar_cases a) as [(_ & E)|(Hs & _)]; [|congruence].
    rewrite E, IH by exact Hu. reflexivity. }
  assert (Hamp : forall u, TemplateEngine.anySpecial u = true ->
                           TemplateEngine.anySpecial (TemplateEngine.escapeEach u) = true).
  { assert (Hap : forall x y, TemplateEngine.anySpecial (String.append x y)
                              = TemplateEngine.anySpecial x || TemplateEngine.anySpecial y).
    { induction x as [|a x IH]; intros y; simpl; [reflexivity|].
      now rewrite IH, orb_assoc. }
    induction u as [|a u IH]; [discriminate|]. simpl. intros H. rewrite Hap.
    destruct (escapeChar_cases a) as [(Hs & E)|(Hs & [E|[E|[E|[E|E]]]])];
      rewrite E; try reflexivity.
    rewrite Hs in H. simpl in H. simpl. rewrite Hs. simpl. now apply IH. }
  rewrite !escapeHTML_escapeEach. split; [split|intros Hs; split].
  - intros H. destruct (TemplateEngine.anySpecial s) eqn:E; [|reflexivity].
    destruct (Hlen s) as (_ & Hlt). specialize (Hlt E). rewrite H in Hlt. lia.
  - apply Hfix.
  - now apply Hlen.
  - intros H.
    destruct (Hlen (TemplateEngine.escapeEach s)) as (_ & Hlt).
    specialize (Hlt (Hamp s Hs)). rewrite H in Hlt. lia.
Qed.

Lemma escapeHTML_unchanged_iff_nothing_to_escape_witness :
  TemplateEngine.escapeHTML (Some (TemplateEngine.escapeHTML (Some "a&b")))
  <> TemplateEngine.escapeHTML (Some "a&b").
Proof.
  apply (escapeHTML_unchanged_iff_nothing_to_escape "a&b"). reflexivity.
Defined.

(** * [Router] *)

Section RouterPaths.

Import Router.

Lemma endsWith_slash_append b r :
  r <> "" -> endsWith "/" (String.append b r) = endsWith "/" r.
Proof.
  intros Hr. induction b as [|c b IH]; [reflexivity|].
  assert (E : String.eqb (String c (String.append b r)) "/" = false).
  { apply String.eqb_neq. intros H. apply (f_equal String.length) in H.
    simpl in H. rewrite length_append in H. destruct r; [now elim Hr|simpl in H; lia]. }
  change (endsWith "/" (String.append (String c b) r))
    with (String.eqb (String c (String.append b r)) "/"
          || endsWith "/" (String.append b r)).
  now rewrite E, IH.
Qed.

Lemma dropLast_append_char b c : dropLast (String.append b (String c "")) = b.
Proof.
  induction b as [|a b IH]; [reflexivity|].
  simpl String.append. simpl dropLast. rewrite IH.
  destruct b; reflexivity.
Qed.

Lemma length_dropLast s : s <> "" -> S (String.length (dropLast s)) = String.length s.
Proof.
  induction s as [|a s IH]; intros H; [now elim H|].
  destruct s as [|a' s']; [reflexivity|].
  change (dropLast (String a (String a' s')))
    with (String a (dropLast (String a' s'))).
  change (String.length (String a (dropLast (String a' s'))))
    with (S (String.length (dropLast (String a' s')))).
  rewrite IH by discriminate. reflexivity.
Qed.

Lemma norm_fixed s :
  norm s = s -> s = "" \/ s = "/" \/ endsWith "/" s = false.
Proof.
  unfold norm. intros H.
  destruct (endsWith "/" s) eqn:E; [|auto].
  destruct (String.eqb s "/") eqn:E'; [apply String.eqb_eq in E'; auto|].
  simpl in H. destruct s as [|a s]; [auto|].
  assert (Hl := @length_dropLast (String a s)). rewrite H in Hl.
  specialize (Hl ltac:(discriminate)). lia.
Qed.

Lemma prefix_append b x : String.prefix b (String.append b x) = true.
Proof.
  induction b as [|a b IH]; simpl; [now destruct x|].
  destruct (ascii_dec a a) as [_|N]; [exact IH|now elim N].
Qed.

Lemma sliceFrom_append b r : sliceFrom (String.length b) (String.append b r) = r.
Proof. induction b as [|a b IH]; simpl; [now destruct r|exact IH]. Qed.

Lemma eqb_append_longer b r : r <> "" -> String.eqb (String.append b r) b = false.
Proof.
  intros Hr. apply String.eqb_neq. intros H. apply (f_equal String.length) in H.
  rewrite length_append in H. destruct r; [now elim Hr|simpl in H; lia].
Qed.

Lemma startsWith_slash rel :
  exists t, (if startsWith "/" rel then rel else String.append "/" rel) = String "/" t.
Proof.
  unfold startsWith. destruct rel as [|a rel]; [now exists ""|].
  cbn [String.prefix]. destruct (ascii_dec "/" a) as [<-|N].
  - destruct rel; eexists; reflexivity.
  - eexists; reflexivity.
Qed.

Lemma stripBase_addBase_fixed basePath rel :
  norm basePath = basePath ->
  norm (if startsWith "/" rel then rel else String.append "/" rel)
  = (if startsWith "/" rel then rel else String.append "/" rel) ->
  stripBase basePath (addBase basePath rel)
  = (if startsWith "/" rel then rel else String.append "/" rel).
Proof.
  intros Hb. unfold addBase.
  destruct (startsWith_slash rel) as (t & ->). intros Hr.
  destruct basePath as [|b0 bs].
  - simpl JsString.truthy. cbv iota. unfold stripBase. simpl JsString.truthy.
    simpl negb. cbv iota. rewrite Hr. reflexivity.
  - set (base := String b0 bs) in *. simpl JsString.truthy. cbv iota.
    destruct (norm_fixed Hr) as [Hr'|[Hr'|Hr']]; [discriminate| |].
    + injection Hr' as ->.
      assert (En : norm (String.append base "/") = base).
      { unfold norm. rewrite endsWith_slash_append by discriminate.
        assert (E : String.eqb (String.append base "/") "/" = false).
        { apply String.eqb_neq. intros H. apply (f_equal String.length) in H.
          rewrite length_append in H. simpl in H. lia. }
        rewrite E. change (endsWith "/" "/") with true. cbn [andb negb].
        apply dropLast_append_char. }
      rewrite En. unfold stripBase. rewrite Hb. simpl JsString.truthy. simpl negb.
      cbv iota. now rewrite String.eqb_refl.
    + assert (En : norm (String.append base (String "/" t))
                   = String.append base (String "/" t)).
      { unfold norm. rewrite endsWith_slash_append by discriminate. now rewrite Hr'. }
      rewrite En. unfold stripBase. rewrite En. simpl JsString.truthy. simpl negb.
      cbv iota. rewrite eqb_append_longer by discriminate.
      assert (Ep : startsWith (String.append base "/")
                              (String.append base (String "/" t)) = true).
      { unfold startsWith.
        change (String "/" t) with (String.append "/" t).
        rewrite <- append_assoc. apply prefix_append. }
      rewrite Ep, sliceFrom_append. reflexivity.
Qed.

End RouterPaths.

(** X12.  Adding the base path and stripping it again.  With a base
    path that [norm] leaves as it is, and a relative path that, once it
    starts with a slash, [norm] leaves as it is (no slash at the end, or
    the root path itself), [stripBase] of [addBase] is the relative path
    with its leading slash. *)
Theorem stripBase_addBase_round_trip (b : option string) (rel : string) :
  let basePath := Router.setBase b in
  let r := if Router.startsWith "/" rel then rel else String.append "/" rel in
  Router.norm basePath = basePath ->
  Router.norm r = r ->
  Router.stripBase basePath (Router.addBase basePath rel) = r.
Proof. intros basePath r Hb Hr. now apply stripBase_addBase_fixed. Qed.

Lemma stripBase_addBase_round_trip_witness :
  Router.setBase (Some "/app/") = "/app"
  /\ Router.addBase "/app" "users/7" = "/app/users/7"
  /\ Router.stripBase "/app" (Router.addBase "/app" "users/7") = "/users/7".
Proof.
  split; [reflexivity|]. split; [reflexivity|].
  apply (@stripBase_addBase_round_trip (Some "/app/") "users/7"); reflexivity.
Defined.

Section RouterMatching.

Import Router.

Variable sanitizeParam : string -> option string.

Lemma nth_error_after (pre : list string) parts :
  nth_error (pre ++ parts) (List.length pre) = nth_error parts 0.
Proof. induction pre as [|x pre IH]; [reflexivity|exact IH]. Qed.

Lemma skipn_after (pre : list string) parts :
  skipn (List.length pre) (pre ++ parts) = parts.
Proof. induction pre as [|x pre IH]; [reflexivity|exact IH]. Qed.

Lemma extractFrom_matchParts rest : forall pre parts params,
  extractFrom sanitizeParam rest (pre ++ parts)
              (List.length pre + List.length rest) (List.length pre) params
  = matchParts sanitizeParam rest parts params.
Proof.
  induction rest as [|patternPart rest IH]; intros pre parts params.
  - simpl. rewrite length_app, Nat.add_0_r.
    destruct parts as [|part parts]; simpl.
    + now rewrite Nat.add_0_r, Nat.eqb_refl.
    + assert (E : (List.length pre + S (List.length parts) =? List.length pre) = false)
        by (apply Nat.eqb_neq; lia).
      now rewrite E.
  - cbn [extractFrom matchParts]. unfold isStar, isParam.
    rewrite nth_error_after, skipn_after.
    destruct (String.eqb patternPart "*"); [reflexivity|].
    assert (Hnext : forall part parts' q,
               extractFrom sanitizeParam rest (pre ++ part :: parts')
                           (List.length pre + List.length (patternPart :: rest))
                           (S (List.length pre)) q
               = matchParts sanitizeParam rest parts' q).
    { intros part parts' q.
      assert (G := IH (pre ++ [part]) parts' q).
      rewrite <- app_assoc, length_app in G. simpl in G.
      rewrite Nat.add_1_r in G. simpl. rewrite <- plus_n_Sm. exact G. }
    destruct parts as [|part parts']; simpl nth_error.
    + simpl. now destruct (startsWith ":" patternPart).
    + simpl truthyValue. simpl strictEq.
      destruct (startsWith ":" patternPart).
      * destruct (JsString.truthy part); [|reflexivity].
        destruct (sanitizeParam part); [apply Hnext|reflexivity].
      * destruct (String.eqb patternPart part); [apply Hnext|reflexivity].
Qed.

Lemma extractParams_matchParts pattern path :
  extractParams sanitizeParam pattern path
  = matchParts sanitizeParam (split "/" pattern) (split "/" path) JsObject.empty.
Proof.
  unfold extractParams. exact (extractFrom_matchParts (split "/" pattern) [] _ _).
Qed.

Lemma split_not_nil sep s : split sep s <> [].
Proof.
  destruct s as [|c s]; simpl; [discriminate|].
  destruct (Ascii.eqb c sep); [discriminate|]. destruct (split sep s); discriminate.
Qed.

Lemma join_split s : join "/" (split "/" s) = s.
Proof.
  induction s as [|c s IH]; [reflexivity|].
  cbn [split]. destruct (Ascii.eqb c "/") eqn:E.
  - apply Ascii.eqb_eq in E. subst c.
    assert (Hn := @split_not_nil "/" s).
    cbn [join]. destruct (split "/" s) as [|p ps]; [now elim Hn|].
    rewrite IH. reflexivity.
  - assert (Hn := @split_not_nil "/" s).
    destruct (split "/" s) as [|p ps]; [now elim Hn|].
    cbn [join] in *. destruct ps as [|p' ps'].
    + now rewrite IH.
    + rewrite <- IH. reflexivity.
Qed.

Lemma split_injective s t : split "/" s = split "/" t -> s = t.
Proof. intros H. rewrite <- (join_split s), <- (join_split t). now rewrite H. Qed.

Lemma matchParts_literal rest : forall parts params,
  Forall (fun p => literalPart p = true) rest ->
  (parts = rest -> matchParts sanitizeParam rest parts params = Some (Some params))
  /\ (parts <> rest -> matchParts sanitizeParam rest parts params = Some None).
Proof.
  induction rest as [|pp rest IH]; intros parts params Hlit.
  - simpl. split; [now intros ->|]. destruct parts; [now intros H; elim H|reflexivity].
  - inversion Hlit as [|? ? Hpp Hrest]; subst.
    unfold literalPart in Hpp. apply andb_true_iff in Hpp. destruct Hpp as (Hs & Hp).
    apply negb_true_iff in Hs. apply negb_true_iff in Hp.
    cbn [matchParts]. rewrite Hs.
    destruct parts as [|part parts'].
    + split; [discriminate|reflexivity].
    + rewrite Hp. destruct (IH parts' params Hrest) as (IH1 & IH2).
      destruct (String.eqb pp part) eqn:E.
      * apply String.eqb_eq in E. subst part. split.
        -- intros H. injection H as H. now apply IH1.
        -- intros H. apply IH2. intros ->. now elim H.
      * apply String.eqb_neq in E. split; [|reflexivity].
        intros H. injection H as H _. now elim E.
Qed.

Lemma matchParts_accepts rest : forall parts params,
  Forall (fun p => isStar p = false) rest ->
  (exists out, matchParts sanitizeParam rest parts params = Some (Some out))
  <-> Forall2 (accepts sanitizeParam) rest parts.
Proof.
  induction rest as [|pp rest IH]; intros parts params Hstar.
  - simpl. split.
    + intros (out & H). destruct parts; [constructor|discriminate].
    + intros H. inversion H. now eexists.
  - inversion Hstar as [|? ? Hpp Hrest]; subst.
    cbn [matchParts]. rewrite Hpp.
    destruct parts as [|part parts'].
    + split; [intros (out & H); discriminate|intros H; inversion H].
    + split.
      * intros (out & H). destruct (isParam pp) eqn:Ep.
        -- destruct (JsString.truthy part) eqn:Et; [|discriminate].
           destruct (sanitizeParam part) as [v|] eqn:Es; [|discriminate].
           constructor.
           ++ unfold accepts. rewrite Ep.
              split; [intros ->; discriminate|congruence].
           ++ apply (IH parts' (JsObject.set (sliceFrom 1 pp) v params) Hrest).
              now exists out.
        -- destruct (String.eqb pp part) eqn:E; [|discriminate].
           apply String.eqb_eq in E. constructor.
           ++ unfold accepts. now rewrite Ep.
           ++ apply (IH parts' params Hrest). now exists out.
      * intros H. inversion H as [|? ? ? ? Ha Hrest2]; subst.
        unfold accepts in Ha. destruct (isParam pp).
        -- destruct Ha as (Hne & Hsan).
           destruct part; [now elim Hne|]. simpl JsString.truthy. cbv iota.
           destruct (sanitizeParam _) as [v|]; [|now elim Hsan].
           now apply (IH parts' _ Hrest).
        -- subst part. rewrite String.eqb_refl. now apply (IH parts' _ Hrest).
Qed.

Lemma matchParts_keeps key rest : forall parts params out,
  Forall (fun p => isStar p = false) rest ->
  Forall (fun p => isParam p = true -> sliceFrom 1 p <> key) rest ->
  matchParts sanitizeParam rest parts params = Some (Some out) ->
  JsObject.get key out = JsObject.get key params.
Proof.
  induction rest as [|pp rest IH]; intros parts params out Hstar Hkey H.
  - simpl in H. destruct parts; [|discriminate]. now injection H as <-.
  - inversion Hstar as [|? ? Hpp Hrest]; subst.
    inversion Hkey as [|? ? Hk Hkrest]; subst.
    cbn [matchParts] in H. rewrite Hpp in H.
    destruct parts as [|part parts']; [discriminate|].
    destruct (isParam pp).
    + destruct (JsString.truthy part); [|discriminate].
      destruct (sanitizeParam part) as [v|]; [|discriminate].
      rewrite (IH _ _ _ Hrest Hkrest H).
      apply get_assign_other. intros E. now apply (Hk eq_refl).
    + destruct (String.eqb pp part); [|discriminate].
      exact (IH _ _ _ Hrest Hkrest H).
Qed.

Lemma get_assign_proto k v o :
  JsObject.get "__proto__" (JsObject.set k v o) = JsObject.get "__proto__" o.
Proof.
  unfold JsObject.set. destruct (String.eqb k "__proto__") eqn:E; [reflexivity|].
  apply String.eqb_neq in E. apply get_set_other. congruence.
Qed.

Lemma matchParts_proto rest : forall parts params out,
  Forall (fun p => isStar p = false) rest ->
  matchParts sanitizeParam rest parts params = Some (Some out) ->
  JsObject.get "__proto__" out = JsObject.get "__proto__" params.
Proof.
  induction rest as [|pp rest IH]; intros parts params out Hstar H.
  - simpl in H. destruct parts; [|discriminate]. now injection H as <-.
  - inversion Hstar as [|? ? Hpp Hrest]; subst.
    cbn [matchParts] in H. rewrite Hpp in H.
    destruct parts as [|part parts']; [discriminate|].
    destruct (isParam pp).
    + destruct (JsString.truthy part); [|discriminate].
      destruct (sanitizeParam part) as [v|]; [|discriminate].
      rewrite (IH _ _ _ Hrest H). apply get_assign_proto.
    + destruct (String.eqb pp part); [|discriminate].
      exact (IH _ _ _ Hrest H).
Qed.

Lemma matchParts_param rest : forall parts params out i pp part,
  Forall (fun p => isStar p = false) rest ->
  matchParts sanitizeParam rest parts params = Some (Some out) ->
  nth_error rest i = Some pp -> isParam pp = true ->
  nth_error parts i = Some part ->
  sliceFrom 1 pp <> "__proto__" ->
  Forall (fun p => isParam p = true -> sliceFrom 1 p <> sliceFrom 1 pp)
         (skipn (S i) rest) ->
  JsObject.get (sliceFrom 1 pp) out = sanitizeParam part.
Proof.
  induction rest as [|pp0 rest IH];
    intros parts params out i pp part Hstar H Hi Hp Hpart Hown Hlater.
  - destruct i; discriminate.
  - inversion Hstar as [|? ? Hpp Hrest]; subst.
    cbn [matchParts] in H. rewrite Hpp in H.
    destruct parts as [|part0 parts']; [discriminate|].
    destruct i as [|i].
    + injection Hi as ->. injection Hpart as ->. rewrite Hp in H.
      destruct (JsString.truthy part); [|discriminate].
      destruct (sanitizeParam part) as [v|]; [|discriminate].
      cbn [skipn] in Hlater.
      rewrite (@matchParts_keeps (sliceFrom 1 pp) rest parts' _ out Hrest Hlater H).
      now apply get_assign_same.
    + cbn [nth_error skipn] in Hi, Hpart, Hlater.
      destruct (isParam pp0).
      * destruct (JsString.truthy part0); [|discriminate].
        destruct (sanitizeParam part0) as [v|]; [|discriminate].
        exact (IH _ _ _ _ _ _ Hrest H Hi Hp Hpart Hown Hlater).
      * destruct (String.eqb pp0 part0); [|discriminate].
        exact (IH _ _ _ _ _ _ Hrest H Hi Hp Hpart Hown Hlater).
Qed.

Lemma matchParts_star lits : forall after rest params,
  Forall (fun p => literalPart p = true) lits ->
  matchParts sanitizeParam (lits ++ "*" :: after) (lits ++ rest) params
  = match sanitizeAll sanitizeParam rest with
    | None => None
    | Some vs => Some (Some (JsObject.set "wildcard" (join "/" vs) params))
    end.
Proof.
  induction lits as [|pp lits IH]; intros after rest params Hlit.
  - reflexivity.
  - inversion Hlit as [|? ? Hpp Hrest]; subst.
    unfold literalPart in Hpp. apply andb_true_iff in Hpp. destruct Hpp as (Hs & Hp).
    apply negb_true_iff in Hs. apply negb_true_iff in Hp.
    simpl app. cbn [matchParts]. rewrite Hs, Hp, String.eqb_refl.
    now apply IH.
Qed.

End RouterMatching.

Lemma extractParams_literal
    (sanitizeParam : string -> option string) (pattern path : string) :
  Forall (fun p => Router.literalPart p = true) (Router.split "/" pattern) ->
  Router.extractParams sanitizeParam pattern path
  = Some (if String.eqb path pattern then Some JsObject.empty else None).
Proof.
  intros Hlit. rewrite extractParams_matchParts.
  destruct (matchParts_literal sanitizeParam (Router.split "/" path) JsObject.empty Hlit)
    as (H1 & H2).
  destruct (String.eqb path pattern) eqn:E.
  - apply String.eqb_eq in E. subst. now apply H1.
  - apply String.eqb_neq in E. apply H2. intros H. apply E. now apply split_injective.
Qed.

(** X13.  A pattern without parameter and without star matches one
    path, itself: [extractParams] returns the empty object on it and
    [null] on every other path, and [sanitizeParam] is not called. *)
Theorem extractParams_literal_pattern
    (sanitizeParam : string -> option string) (pattern path : string) :
  Forall (fun p => Router.literalPart p = true) (Router.split "/" pattern) ->
  Router.extractParams sanitizeParam pattern path
  = Some (if String.eqb path pattern then Some JsObject.empty else None).
Proof. exact (@extractParams_literal sanitizeParam pattern path). Qed.

Lemma extractParams_literal_pattern_witness :
  Router.extractParams (fun _ => None) "/about/team" "/about/team"
  = Some (Some JsObject.empty)
  /\ Router.extractParams (fun _ => None) "/about/team" "/about/team/"
     = Some None.
Proof.
  split; apply (@extractParams_literal_pattern (fun _ => None) "/about/team");
    vm_compute; repeat constructor.
Defined.

(** X14.  A pattern without star matches a path exactly when both have
    the same number of parts and each pattern part accepts the path part
    at its place: a parameter accepts a part that is not empty and that
    [sanitizeParam] decodes, any other part accepts itself only.  In the
    object returned, a parameter whose name is not [__proto__] and that
    no later parameter bears holds the sanitized path part of its place;
    a parameter named [__proto__] is not stored. *)
Theorem extractParams_matches_part_by_part
    (sanitizeParam : string -> option string) (pattern path : string) :
  Forall (fun p => Router.isStar p = false) (Router.split "/" pattern) ->
  ((exists params, Router.extractParams sanitizeParam pattern path = Some (Some params))
   <-> Forall2 (Router.accepts sanitizeParam)
               (Router.split "/" pattern) (Router.split "/" path))
  /\ (forall params i patternPart part,
        Router.extractParams sanitizeParam pattern path = Some (Some params) ->
        nth_error (Router.split "/" pattern) i = Some patternPart ->
        Router.isParam patternPart = true ->
        nth_error (Router.split "/" path) i = Some part ->
        Router.sliceFrom 1 patternPart <> "__proto__" ->
        Forall (fun p => Router.isParam p = true ->
                         Router.sliceFrom 1 p <> Router.sliceFrom 1 patternPart)
               (skipn (S i) (Router.split "/" pattern)) ->
        JsObject.get (Router.sliceFrom 1 patternPart) params = sanitizeParam part)
  /\ (forall params,
        Router.extractParams sanitizeParam pattern path = Some (Some params) ->
        JsObject.get "__proto__" params = None).
Proof.
  intros Hstar. split; [|split].
  - rewrite extractParams_matchParts. now apply matchParts_accepts.
  - intros params i patternPart part H. rewrite extractParams_matchParts in H.
    intros Hi Hp Hpart Hown Hlater.
    exact (matchParts_param sanitizeParam _ _ _ Hstar H Hi Hp Hpart Hown Hlater).
  - intros params H. rewrite extractParams_matchParts in H.
    exact (matchParts_proto sanitizeParam _ _ Hstar H).
Qed.

Lemma extractParams_matches_part_by_part_witness :
  Router.extractParams (fun s => Some s) "/users/:id/posts/:post" "/users/7/posts/42"
  = Some (Some [("id", "7"); ("post", "42")])
  /\ JsObject.get "id" [("id", "7"); ("post", "42")] = Some "7".
Proof.
  split; [reflexivity|].
  destruct (@extractParams_matches_part_by_part (fun s => Some s)
              "/users/:id/posts/:post" "/users/7/posts/42") as (_ & H & _).
  - vm_compute. repeat constructor.
  - apply (H [("id", "7"); ("post", "42")] 2 ":id" "7"); try reflexivity.
    + discriminate.
    + vm_compute. repeat constructor; discriminate.
Defined.

(** X15.  The star.  When the pattern has the star after parts without
    parameter and the path starts with these parts, [extractParams]
    returns an object whose [wildcard] is the sanitized rest of the path,
    joined by slashes: the empty string when the path ends there, and
    whatever the pattern has after the star.  It throws when a part of
    that rest does not decode. *)
Theorem extractParams_star
    (sanitizeParam : string -> option string) (pattern path : string)
    (lits after rest : list string) :
  Forall (fun p => Router.literalPart p = true) lits ->
  Router.split "/" pattern = lits ++ "*" :: after ->
  Router.split "/" path = lits ++ rest ->
  Router.extractParams sanitizeParam pattern path
  = match Router.sanitizeAll sanitizeParam rest with
    | None => None
    | Some vs => Some (Some [("wildcard", Router.join "/" vs)])
    end.
Proof.
  intros Hlit Hpat Hpath. rewrite extractParams_matchParts, Hpat, Hpath.
  now rewrite matchParts_star.
Qed.

Lemma extractParams_star_witness :
  Router.extractParams (fun s => Some s) "/files/*/raw" "/files/a/b.txt"
  = Some (Some [("wildcard", "a/b.txt")])
  /\ Router.extractParams (fun s => Some s) "/files/*/raw" "/files"
     = Some (Some [("wildcard", "")]).
Proof.
  split.
  - apply (@extractParams_star (fun s => Some s) "/files/*/raw" "/files/a/b.txt"
             [""; "files"] ["raw"] ["a"; "b.txt"]); try reflexivity.
    repeat constructor.
  - reflexivity.
Defined.

Section RouterFind.

Import Router.

Variable sanitizeParam : string -> option string.
Variable Handler : Type.

Lemma lookup_add_same path (handler : Handler) routes :
  lookup path (add path handler routes) = Some handler.
Proof.
  induction routes as [|[k h] routes IH]; simpl.
  - now rewrite String.eqb_refl.
  - destruct (String.eqb path k) eqn:E; simpl; rewrite E; [reflexivity|exact IH].
Qed.

Lemma findPattern_literal path (routes : Routes Handler) :
  Forall (fun e => Forall (fun p => literalPart p = true) (split "/" (fst e))) routes ->
  lookup path routes = None ->
  findPattern sanitizeParam routes path = Some None.
Proof.
  induction routes as [|[k h] routes IH]; intros Hlit Hl; [reflexivity|].
  inversion Hlit as [|? ? Hk Hrest]; subst. simpl in Hk, Hl |- *.
  rewrite (@extractParams_literal sanitizeParam k path Hk).
  destruct (String.eqb path k); [discriminate|]. now apply IH.
Qed.

End RouterFind.

(** X16.  With routes that have neither parameter nor star, [findRoute]
    is the lookup of the path among the routes: the handler registered
    under the path with an empty parameter object, and [null] for a path
    that is no route. *)
Theorem findRoute_literal_routes
    (sanitizeParam : string -> option string) (Handler : Type)
    (routes : Router.Routes Handler) (path : string) :
  Forall (fun e => Forall (fun p => Router.literalPart p = true)
                          (Router.split "/" (fst e))) routes ->
  Router.findRoute sanitizeParam routes path
  = Some (match Router.lookup path routes with
          | Some handler => Some (handler, JsObject.empty)
          | None => None
          end).
Proof.
  intros Hlit. unfold Router.findRoute.
  destruct (Router.lookup path routes) eqn:E; [reflexivity|].
  now apply findPattern_literal.
Qed.

Lemma findRoute_literal_routes_witness :
  Router.findRoute (fun s => Some s) [("/", 1); ("/about", 2)] "/about"
  = Some (Some (2, JsObject.empty)).
Proof.
  apply (@findRoute_literal_routes (fun s => Some s) nat [("/", 1); ("/about", 2)] "/about").
  vm_compute. repeat constructor.
Defined.

(** X17.  A route added under a path answers that path, whatever
    patterns were registered before it: the exact match is tried first,
    the parameters are empty and [sanitizeParam] is not called. *)
Theorem findRoute_after_add
    (sanitizeParam : string -> option string) (Handler : Type)
    (routes : Router.Routes Handler) (path : string) (handler : Handler) :
  Router.findRoute sanitizeParam (Router.add path handler routes) path
  = Some (Some (handler, JsObject.empty)).
Proof. unfold Router.findRoute. now rewrite lookup_add_same. Qed.

(** * [Lifecycle] *)

Section LifecycleRuns.

Import Lifecycle.

Variable Cb : Type.

Lemma step_settled (s : Lifecycle.t Cb) op : settled s -> settled (fst (step s op)).
Proof.
  unfold settled. destruct op; simpl; auto.
  - unfold triggerUnload. destruct (mountedOnce s) eqn:E; simpl; auto.
  - intros _ H. discriminate.
Qed.

Lemma run_cons (s : Lifecycle.t Cb) op ops :
  run s (op :: ops)
  = (fst (run (fst (step s op)) ops), snd (step s op) ++ snd (run (fst (step s op)) ops)).
Proof.
  simpl. destruct (step s op) as [s1 e1]. simpl.
  now destruct (run s1 ops) as [s2 e2].
Qed.

Lemma run_settled ops : forall s : Lifecycle.t Cb, settled s -> settled (fst (run s ops)).
Proof.
  induction ops as [|op ops IH]; intros s H; [exact H|].
  rewrite run_cons. simpl. apply IH. now apply step_settled.
Qed.

Lemma run_app ops1 : forall (s : Lifecycle.t Cb) ops2,
  run s (ops1 ++ ops2)
  = (fst (run (fst (run s ops1)) ops2),
     snd (run s ops1) ++ snd (run (fst (run s ops1)) ops2)).
Proof.
  induction ops1 as [|op ops1 IH]; intros s ops2.
  - simpl. now destruct (run s ops2).
  - change ((op :: ops1) ++ ops2) with (op :: (ops1 ++ ops2)).
    rewrite (run_cons s op (ops1 ++ ops2)), (run_cons s op ops1), IH.
    cbn [fst snd]. now rewrite app_assoc.
Qed.

Lemma loaded_app (e1 e2 : list (Event Cb)) : loaded (e1 ++ e2) = loaded e1 ++ loaded e2.
Proof. apply flat_map_app. Qed.

Lemma unloaded_app (e1 e2 : list (Event Cb)) :
  unloaded (e1 ++ e2) = unloaded e1 ++ unloaded e2.
Proof. apply flat_map_app. Qed.

Lemma loaded_Loaded (l : list Cb) : loaded (map (@Loaded Cb) l) = l.
Proof. induction l as [|x l IH]; simpl; [reflexivity|]. now rewrite IH. Qed.

Lemma loaded_Unloaded (l : list Cb) : loaded (map (@Unloaded Cb) l) = [].
Proof. induction l as [|x l IH]; simpl; [reflexivity|exact IH]. Qed.

Lemma unloaded_Unloaded (l : list Cb) : unloaded (map (@Unloaded Cb) l) = l.
Proof. induction l as [|x l IH]; simpl; [reflexivity|]. now rewrite IH. Qed.

Lemma unloaded_Loaded (l : list Cb) : unloaded (map (@Loaded Cb) l) = [].
Proof. induction l as [|x l IH]; simpl; [reflexivity|exact IH]. Qed.

Lemma actions_conserve actions : forall s : Lifecycle.t Cb,
  settled s ->
  let r := run s (flat_map (@opsOf Cb) actions) in
  loaded (snd r) ++ onLoadCallbacks (next (fst r))
  = onLoadCallbacks (next s) ++ loadsOf actions
  /\ unloaded (snd r) ++ onUnloadCallbacks (current (fst r))
       ++ onUnloadCallbacks (next (fst r))
     = onUnloadCallbacks (current s) ++ onUnloadCallbacks (next s)
       ++ unloadsOf actions.
Proof.
  induction actions as [|a actions IH]; intros s Hs.
  - simpl. now rewrite !app_nil_r.
  - cbv zeta. cbn [flat_map]. rewrite run_app.
    assert (Hs1 : settled (fst (run s (opsOf a)))) by now apply run_settled.
    destruct (IH _ Hs1) as (IH1 & IH2).
    cbn [fst snd]. rewrite loaded_app, unloaded_app, <- !app_assoc.
    rewrite IH1, IH2. clear IH IH1 IH2 Hs1.
    destruct a as [cb|cb|]; simpl.
    + now rewrite <- !app_assoc.
    + now rewrite <- !app_assoc.
    + unfold triggerUnload. destruct (mountedOnce s) eqn:E; simpl.
      * rewrite !app_nil_r, loaded_app, unloaded_app, loaded_Unloaded, loaded_Loaded,
          unloaded_Unloaded, unloaded_Loaded.
        simpl. rewrite ?app_nil_r, <- ?app_assoc. split; reflexivity.
      * rewrite !app_nil_r, (Hs E), loaded_Loaded, unloaded_Loaded. simpl.
        split; reflexivity.
Qed.

End LifecycleRuns.

(** X18.  Whatever methods were called before, in whatever order,
    [triggerUnload] calls every [onUnload] callback of the current page,
    in the order of registration, and leaves none behind: while nothing
    has been mounted there is no current callback, so that the early
    return skips nothing. *)
Theorem triggerUnload_calls_all_current_callbacks
    (Cb : Type) (ops : list (Lifecycle.Op Cb)) :
  let s := fst (Lifecycle.run (Lifecycle.initial Cb) ops) in
  snd (Lifecycle.triggerUnload s)
  = map (@Lifecycle.Unloaded Cb) (Lifecycle.onUnloadCallbacks (Lifecycle.current s))
  /\ Lifecycle.current (fst (Lifecycle.triggerUnload s)) = Lifecycle.noHooks Cb.
Proof.
  intros s.
  assert (Hs : Lifecycle.settled s).
  { apply run_settled. intros _. reflexivity. }
  unfold Lifecycle.triggerUnload.
  destruct (Lifecycle.mountedOnce s) eqn:E; simpl; [split; reflexivity|].
  rewrite (Hs E). split; reflexivity.
Qed.

(** X19.  Registrations and renders in any order, a render being
    [triggerUnload] followed by [promoteAndLoad].  No callback is called
    twice and none is lost: the [onLoad] callbacks called so far, followed
    by those waiting for the next render, are the callbacks registered,
    in the order of registration; and so are the [onUnload] callbacks
    called so far, followed by those of the current page and by those
    waiting. *)
Theorem lifecycle_callbacks_called_once_in_order
    (Cb : Type) (actions : list (Lifecycle.Action Cb)) :
  let r := Lifecycle.run (Lifecycle.initial Cb)
                         (flat_map (@Lifecycle.opsOf Cb) actions) in
  Lifecycle.loaded (snd r) ++ Lifecycle.onLoadCallbacks (Lifecycle.next (fst r))
  = Lifecycle.loadsOf actions
  /\ Lifecycle.unloaded (snd r)
       ++ Lifecycle.onUnloadCallbacks (Lifecycle.current (fst r))
       ++ Lifecycle.onUnloadCallbacks (Lifecycle.next (fst r))
     = Lifecycle.unloadsOf actions.
Proof.
  intros r.
  assert (Hs : Lifecycle.settled (Lifecycle.initial Cb)) by (intros _; reflexivity).
  exact (actions_conserve actions Hs).
Qed.

(** * [helpers.throttle] *)

Section Throttle.

Import Helpers.

Lemma throttled_apart delay clock : forall lastCall,
  apart delay lastCall (throttled delay lastCall clock).
Proof.
  induction clock as [|now clock IH]; intros lastCall; [exact I|].
  simpl. unfold throttle.
  destruct (now - lastCall >=? delay)%Z eqn:E.
  - split; [|apply IH]. apply Z.geb_le in E. lia.
  - apply IH.
Qed.

Lemma throttled_subsequence delay clock : forall lastCall,
  subsequence (throttled delay lastCall clock) clock.
Proof.
  induction clock as [|now clock IH]; intros lastCall; [constructor|].
  simpl. unfold throttle.
  destruct (now - lastCall >=? delay)%Z; constructor; apply IH.
Qed.

Lemma apart_all delay : forall times previous,
  (0 <= delay)%Z -> apart delay previous times ->
  Forall (fun t => (t - previous >= delay)%Z) times.
Proof.
  induction times as [|t times IH]; intros previous Hd H; [constructor|].
  destruct H as (Ht & H). constructor; [exact Ht|].
  apply IH in H; [|exact Hd]. apply Forall_impl with (2 := H). intros; lia.
Qed.

Lemma apart_sorted delay : forall times previous,
  (0 <= delay)%Z -> apart delay previous times ->
  StronglySorted (fun a b => (b - a >= delay)%Z) times.
Proof.
  induction times as [|t times IH]; intros previous Hd H; [constructor|].
  destruct H as (_ & H). constructor; [now apply (IH t)|now apply apart_all].
Qed.

End Throttle.

(** X20.  The calls that reach [fn] are calls that were made, in the
    order made: a call that is dropped is not made up for later.  Each one
    reads a clock at least [delay] after the reading of the one before,
    and the first at least [delay] after zero; with a delay that is not
    negative, any two of them are at least [delay] apart. *)
Theorem throttle_calls_are_apart (delay : Z) (clock : list Z) :
  Helpers.subsequence (Helpers.throttled delay 0 clock) clock
  /\ Helpers.apart delay 0 (Helpers.throttled delay 0 clock)
  /\ ((0 <= delay)%Z ->
      StronglySorted (fun a b => (b - a >= delay)%Z) (Helpers.throttled delay 0 clock)).
Proof.
  split; [apply throttled_subsequence|]. split; [apply throttled_apart|].
  intros Hd. apply (@apart_sorted delay _ 0%Z Hd). apply throttled_apart.
Qed.

Lemma throttle_calls_are_apart_witness :
  Helpers.throttled 100 0 [1000; 1050; 1100; 1199; 1200]%Z = [1000; 1100; 1200]%Z
  /\ StronglySorted (fun a b => (b - a >= 100)%Z) [1000; 1100; 1200]%Z.
Proof.
  split; [reflexivity|].
  apply (throttle_calls_are_apart 100 [1000; 1050; 1100; 1199; 1200]%Z). lia.
Defined.

(** * [State] *)

Section StateStore.

Import State.

Variables V Cb : Type.
Variable sameCallback : Cb -> Cb -> bool.

Lemma mapGet_mapSet_same A key (v : A) m : mapGet key (mapSet key v m) = Some v.
Proof.
  induction m as [|[k w] m IH]; simpl.
  - now rewrite String.eqb_refl.
  - destruct (String.eqb key k) eqn:E; simpl; rewrite E; [reflexivity|exact IH].
Qed.

Lemma mapGet_mapSet_other A key key' (v : A) m :
  key' <> key -> mapGet key' (mapSet key v m) = mapGet key' m.
Proof.
  intros Hne. induction m as [|[k w] m IH]; simpl.
  - apply String.eqb_neq in Hne. now rewrite Hne.
  - destruct (String.eqb key k) eqn:E; simpl.
    + apply String.eqb_eq in E. subst k.
      apply String.eqb_neq in Hne. now rewrite Hne.
    + now rewrite IH.
Qed.

Lemma indexOf_fresh callback (l : list Cb) :
  (forall cb, In cb l -> sameCallback cb callback = false) ->
  sameCallback callback callback = true ->
  indexOf sameCallback callback (l ++ [callback]) = Some (List.length l).
Proof.
  intros Hl Hc. induction l as [|cb l IH]; simpl.
  - now rewrite Hc.
  - rewrite (Hl cb (or_introl eq_refl)), IH; [reflexivity|].
    intros cb' Hin. apply Hl. now right.
Qed.

Lemma splice1_last (l : list Cb) callback :
  splice1 (List.length l) (l ++ [callback]) = l.
Proof.
  unfold splice1. induction l as [|cb l IH]; [reflexivity|].
  simpl in *. now rewrite IH.
Qed.

Lemma mapGet_collect key keys (st : list (string * V)) : forall toSave,
  mapGet key (collect keys st toSave)
  = if setHas key keys && negb (String.eqb key "__proto__")
    then match mapGet key st with
         | Some v => Some v
         | None => mapGet key toSave
         end
    else mapGet key toSave.
Proof.
  induction keys as [|k keys IH]; intros toSave; [reflexivity|].
  simpl. rewrite IH. destruct (String.eqb key k) eqn:E; simpl.
  - apply String.eqb_eq in E. subst k. unfold assign.
    destruct (String.eqb key "__proto__") eqn:Ep.
    + rewrite andb_false_r. now destruct (mapGet key st).
    + rewrite andb_true_r.
      destruct (mapGet key st) as [v|] eqn:Ev.
      * rewrite mapGet_mapSet_same. now destruct (setHas key keys).
      * now destruct (setHas key keys).
  - assert (Hne : key <> k) by now apply String.eqb_neq.
    destruct (mapGet k st) as [v|]; [|reflexivity].
    unfold assign. destruct (String.eqb k "__proto__"); [reflexivity|].
    now rewrite (mapGet_mapSet_other v toSave Hne).
Qed.

End StateStore.

(** X21.  Subscribing and unsubscribing.  For a callback that is not
    yet among the subscribers of the key, the function [subscribe]
    returns undoes the subscription: every key has the subscribers it
    had, and the store and the persisted keys are untouched. *)
Theorem unsubscribe_undoes_subscribe
    (V Cb : Type) (sameCallback : Cb -> Cb -> bool)
    (key : string) (callback : Cb) (s : State.t V Cb) :
  sameCallback callback callback = true ->
  (forall cb, In cb (State.subscribersOf key s) -> sameCallback cb callback = false) ->
  let s' := State.unsubscribe sameCallback key callback (State.subscribe key callback s) in
  (forall k, State.subscribersOf k s' = State.subscribersOf k s)
  /\ State.store s' = State.store s
  /\ State.persistKeys s' = State.persistKeys s.
Proof.
  intros Hc Hfresh s'. subst s'. unfold State.subscribe, State.mapHas.
  assert (Hget : State.mapGet key
                   (if negb match State.mapGet key (State.subscribers s) with
                            | Some _ => true | None => false end
                    then State.mapSet key [] (State.subscribers s)
                    else State.subscribers s)
                 = Some (State.subscribersOf key s)).
  { unfold State.subscribersOf.
    destruct (State.mapGet key (State.subscribers s)) as [l|] eqn:E; simpl.
    - exact E.
    - apply mapGet_mapSet_same. }
  rewrite Hget. unfold State.unsubscribe. cbn [State.subscribers].
  rewrite mapGet_mapSet_same,
    (@indexOf_fresh Cb sameCallback callback (State.subscribersOf key s) Hfresh Hc),
    splice1_last.
  cbn [State.store State.persistKeys]. repeat split.
  intros k. unfold State.subscribersOf at 1. cbn [State.subscribers].
  destruct (String.eqb k key) eqn:E.
  - apply String.eqb_eq in E. subst k. now rewrite mapGet_mapSet_same.
  - apply String.eqb_neq in E.
    rewrite !(@mapGet_mapSet_other _ key k _ _ E).
    unfold State.subscribersOf.
    destruct (State.mapGet key (State.subscribers s)) as [l|] eqn:Ek; simpl;
      [reflexivity|].
    now rewrite (@mapGet_mapSet_other _ key k _ _ E).
Qed.

Lemma unsubscribe_undoes_subscribe_witness :
  let s := State.mk [("n", 1)] [("n", [7; 8])] [] in
  State.subscribersOf "n"
    (State.unsubscribe Nat.eqb "n" 9 (State.subscribe "n" 9 s)) = [7; 8].
Proof.
  intros s.
  destruct (@unsubscribe_undoes_subscribe nat nat Nat.eqb "n" 9 s) as (H & _).
  - reflexivity.
  - intros cb [<-|[<-|[]]]; reflexivity.
  - exact (H "n").
Defined.

(** X22.  What is saved.  Every object that [set], [update] and
    [persist] hand over for saving holds, for each persisted key other
    than [__proto__] that is in the store, the value the store has for it
    after the call, and nothing else: the key [__proto__] is never
    saved. *)
Theorem saved_object_is_persisted_part_of_store
    (V Cb : Type) (hasLocalStorage : bool)
    (key : string) (value : V) (updater : option V -> V) (s : State.t V Cb)
    (toSave : list (string * V)) :
  let right := fun s' : State.t V Cb =>
    forall k, State.mapGet k toSave
              = if State.setHas k (State.persistKeys s')
                   && negb (String.eqb k "__proto__")
                then State.mapGet k (State.store s')
                else None in
  (In (State.Saved Cb toSave) (snd (State.set hasLocalStorage key value s)) ->
   right (fst (State.set hasLocalStorage key value s)))
  /\ (In (State.Saved Cb toSave) (snd (State.update hasLocalStorage key updater s)) ->
      right (fst (State.update hasLocalStorage key updater s)))
  /\ (In (State.Saved Cb toSave) (snd (State.persist hasLocalStorage key s)) ->
      right (fst (State.persist hasLocalStorage key s))).
Proof.
  intros right.
  assert (Hsave : forall s' : State.t V Cb,
             In (State.Saved Cb toSave) (State.savePersisted hasLocalStorage s') ->
             right s').
  { intros s' Hin k. unfold State.savePersisted in Hin.
    destruct hasLocalStorage; [|destruct Hin].
    destruct Hin as [E|[]]. injection E as <-.
    rewrite mapGet_collect.
    destruct (State.setHas k (State.persistKeys s') && negb (String.eqb k "__proto__"));
      [|reflexivity].
    now destruct (State.mapGet k (State.store s')). }
  assert (Hnot : forall k (v : V) (s' : State.t V Cb),
             ~ In (State.Saved Cb toSave) (State.notifySubscribers k v s')).
  { intros k v s'. unfold State.notifySubscribers.
    induction (State.subscribersOf k s') as [|cb l IH]; simpl; [tauto|].
    intros [E|H]; [discriminate|now apply IH]. }
  repeat split.
  - unfold State.set. cbn [fst snd]. intros Hin. apply in_app_or in Hin.
    destruct Hin as [Hin|Hin]; [now apply Hnot in Hin|].
    match type of Hin with
    | In _ (if ?c then _ else _) => destruct c; [now apply Hsave|destruct Hin]
    end.
  - unfold State.update. cbn [fst snd]. intros Hin. apply in_app_or in Hin.
    destruct Hin as [Hin|Hin]; [now apply Hnot in Hin|].
    match type of Hin with
    | In _ (if ?c then _ else _) => destruct c; [now apply Hsave|destruct Hin]
    end.
  - unfold State.persist. cbn [fst snd]. apply Hsave.
Qed.

Lemma saved_object_is_persisted_part_of_store_witness :
  let s := State.mk [("theme", 1); ("draft", 2); ("__proto__", 3)]
                    ([] : list (string * list nat))
                    ["theme"; "user"; "__proto__"] in
  snd (State.set true "theme" 5 s) = [State.Saved nat [("theme", 5)]]
  /\ State.mapGet "draft" [("theme", 5)] = None
  /\ State.mapGet "__proto__" [("theme", 5)] = None.
Proof.
  intros s. split; [reflexivity|].
  destruct (@saved_object_is_persisted_part_of_store nat nat true "theme" 5
              (fun _ => 0) s [("theme", 5)]) as (H & _).
  split.
  - exact (H (or_introl eq_refl) "draft").
  - exact (H (or_introl eq_refl) "__proto__").
Defined.

Section StateComputed.

Import State.

Variables V R : Type.
Variable sameValue : V -> V -> bool.
Hypothesis sameValue_eq : forall a b, sameValue a b = true <-> a = b.

Lemma someDiffers_false values : forall cached,
  List.length cached = List.length values ->
  someDiffers sameValue values cached = false -> values = cached.
Proof.
  induction values as [|v values IH]; intros [|c cached] Hlen H; try discriminate.
  - reflexivity.
  - simpl in H. apply orb_false_iff in H. destruct H as (Hd & H).
    injection Hlen as Hlen. rewrite (IH cached Hlen H). f_equal.
    destruct v as [a|], c as [b|]; simpl in Hd; try discriminate; [|reflexivity].
    apply negb_false_iff, sameValue_eq in Hd. now subst.
Qed.

Lemma compute_right keys computer st (m : Memo V R) :
  memoRight keys computer m ->
  fst (fst (compute sameValue keys computer st m))
  = computer (map (fun key => mapGet key st) keys)
  /\ memoRight keys computer (snd (fst (compute sameValue keys computer st m))).
Proof.
  intros Hm. unfold compute.
  set (values := map (fun key => mapGet key st) keys).
  assert (Hvalues : List.length values = List.length keys) by apply length_map.
  destruct (isInitialized m) eqn:Ei; simpl negb; cbn [orb].
  - destruct (Hm Ei) as (Hlen & Hval).
    destruct (someDiffers sameValue values (cachedKeys m)) eqn:Es.
    + destruct (computer values) as [r|] eqn:Ec; cbn [fst snd]; split;
        try reflexivity.
      * intros _. cbn [cachedKeys cachedValue]. now split.
      * exact Hm.
    + cbn [fst snd]. apply someDiffers_false in Es; [|congruence].
      rewrite Es. split; [exact Hval|exact Hm].
  - destruct (computer values) as [r|] eqn:Ec; cbn [fst snd]; split;
      try reflexivity.
    + intros _. cbn [cachedKeys cachedValue]. now split.
    + exact Hm.
Qed.

Lemma computeAll_right keys computer stores : forall m : Memo V R,
  memoRight keys computer m ->
  computeAll sameValue keys computer stores m
  = map (fun st => computer (map (fun key => mapGet key st) keys)) stores.
Proof.
  induction stores as [|st stores IH]; intros m Hm; [reflexivity|].
  simpl. destruct (@compute_right keys computer st m Hm) as (H1 & H2).
  now rewrite H1, (IH _ H2).
Qed.

End StateComputed.

(** X23.  The memo of [computed] does not show.  With values that [===]
    tells apart exactly when they differ, every call of [compute] returns
    what [computer] returns on the values the store has for the keys at
    that call ([undefined] where it throws), whatever the store was at
    the calls before. *)
Theorem computed_is_computer_on_current_values
    (V R : Type) (sameValue : V -> V -> bool)
    (keys : list string) (computer : list (option V) -> option R)
    (stores : list (list (string * V))) :
  (forall a b, sameValue a b = true <-> a = b) ->
  State.computeAll sameValue keys computer stores (State.noMemo V R)
  = map (fun st => computer (map (fun key => State.mapGet key st) keys)) stores.
Proof.
  intros Heq. apply computeAll_right; [exact Heq|]. intros H. discriminate.
Qed.

Lemma computed_is_computer_on_current_values_witness :
  State.computeAll Nat.eqb ["a"; "b"]
    (fun values => match values with
                   | [Some x; Some y] => Some (x + y)
                   | _ => None
                   end)
    [[("a", 1)]; [("a", 1); ("b", 2)]; [("a", 1); ("b", 2)]; [("a", 5); ("b", 2)]]
    (State.noMemo nat nat)
  = [None; Some 3; Some 3; Some 7].
Proof.
  rewrite (@computed_is_computer_on_current_values nat nat Nat.eqb); [reflexivity|].
  intros a b. apply Nat.eqb_eq.
Defined.

(** * [TemplateEngine.compile] *)

Section CompileCache.

Import TemplateEngine.

Variable Data : Type.
Variable cacheKeyOf : string -> Data -> string + Thrown.
Variables compileEach compileIf compileUnless compileVariables
  : string -> Data -> string.
Variable messageOf : Exn -> option string.

Lemma length_set key v (o : Assoc.t) :
  List.length (Assoc.set key v o) <= S (List.length o).
Proof.
  induction o as [|[k w] o IH]; simpl; [lia|].
  destruct (String.eqb key k); simpl; lia.
Qed.

Lemma length_remove key (o : Assoc.t) :
  List.length (Assoc.remove key o) <= List.length o.
Proof.
  induction o as [|[k w] o IH]; simpl; [lia|].
  destruct (String.eqb key k); simpl; lia.
Qed.

Lemma compile_bounded data template cache :
  List.length cache <= MAX_CACHE_SIZE ->
  List.length (snd (compile cacheKeyOf compileEach compileIf compileUnless
                            compileVariables messageOf data template cache))
  <= MAX_CACHE_SIZE.
Proof.
  intros H. unfold compile.
  destruct (cacheKeyOf template data) as [cacheKey|error];
    [|now destruct (message messageOf error)].
  destruct (Assoc.get cacheKey cache); [exact H|].
  cbn [snd]. set (result := Functional.pipe _ template). clearbody result.
  destruct (MAX_CACHE_SIZE <=? List.length cache) eqn:E.
  - destruct cache as [|[k w] cache]; [simpl; unfold MAX_CACHE_SIZE; lia|].
    cbn [Assoc.keys map fst Assoc.remove]. rewrite String.eqb_refl.
    assert (H1 := length_set cacheKey result (Assoc.remove k cache)).
    assert (H2 := length_remove k cache). simpl in H. lia.
  - apply Nat.leb_gt in E.
    assert (H1 := length_set cacheKey result cache). lia.
Qed.

Lemma compile_again data template data' template' cacheKey cache :
  cacheKeyOf template data = inl cacheKey ->
  cacheKeyOf template' data' = inl cacheKey ->
  compile cacheKeyOf compileEach compileIf compileUnless compileVariables messageOf
          data' template'
          (snd (compile cacheKeyOf compileEach compileIf compileUnless
                        compileVariables messageOf data template cache))
  = compile cacheKeyOf compileEach compileIf compileUnless compileVariables messageOf
            data template cache.
Proof.
  intros Hk Hk'. unfold compile. rewrite Hk, Hk'.
  destruct (Assoc.get cacheKey cache) as [cached|] eqn:E; cbn [snd].
  - now rewrite E.
  - now rewrite get_set_same.
Qed.

Lemma compile_repeat data template cache :
  compile cacheKeyOf compileEach compileIf compileUnless compileVariables messageOf
          data template
          (snd (compile cacheKeyOf compileEach compileIf compileUnless
                        compileVariables messageOf data template cache))
  = compile cacheKeyOf compileEach compileIf compileUnless compileVariables messageOf
            data template cache.
Proof.
  destruct (cacheKeyOf template data) as [cacheKey|error] eqn:Hk.
  - exact (@compile_again data template data template cacheKey cache Hk Hk).
  - unfold compile. rewrite Hk. now destruct (message messageOf error).
Qed.

(** [compile] throws exactly when [JSON.stringify] throws a value whose
    message the [catch] block cannot read. *)
Lemma compile_throws data template cache thrown :
  fst (compile cacheKeyOf compileEach compileIf compileUnless compileVariables messageOf
               data template cache) = inr thrown
  <-> exists error, cacheKeyOf template data = inr error
                    /\ message messageOf error = inr thrown.
Proof.
  unfold compile. destruct (cacheKeyOf template data) as [cacheKey|error].
  - split; [|intros (e & E & _); discriminate].
    destruct (Assoc.get cacheKey cache); discriminate.
  - split.
    + intros H. exists error. split; [reflexivity|].
      destruct (message messageOf error); [discriminate|]. simpl in H. congruence.
    + intros (e & E & H). injection E as <-. now rewrite H.
Qed.

End CompileCache.

(** X24.  The cache holds at most [MAX_CACHE_SIZE] entries: a call of
    [compile] on a cache within the bound leaves it within the bound. *)
Theorem compile_keeps_cache_bounded
    (Data : Type) (cacheKeyOf : string -> Data -> string + TemplateEngine.Thrown)
    (compileEach compileIf compileUnless compileVariables : string -> Data -> string)
    (messageOf : Exn -> option string)
    (data : Data) (template : string) (cache : Assoc.t) :
  List.length cache <= TemplateEngine.MAX_CACHE_SIZE ->
  List.length (snd (TemplateEngine.compile cacheKeyOf compileEach compileIf
                      compileUnless compileVariables messageOf data template cache))
  <= TemplateEngine.MAX_CACHE_SIZE.
Proof. apply compile_bounded. Qed.

Lemma compile_keeps_cache_bounded_witness :
  List.length (snd (TemplateEngine.compile (fun t (_ : unit) => inl t)
                      (fun t _ => t) (fun t _ => t) (fun t _ => t)
                      (fun t _ => String.append t "!") (fun _ => None) tt "hello" []))
  <= TemplateEngine.MAX_CACHE_SIZE.
Proof.
  apply compile_keeps_cache_bounded. unfold TemplateEngine.MAX_CACHE_SIZE. simpl. lia.
Defined.

(** X25.  The cache answers by key.  A call whose template and data
    have the JSON text of an earlier call returns the text that call
    returned, without running the passes, and leaves the cache as it is:
    the answer is the earlier one even where the passes would give
    another text on these data. *)
Theorem compile_same_key_same_text
    (Data : Type) (cacheKeyOf : string -> Data -> string + TemplateEngine.Thrown)
    (compileEach compileIf compileUnless compileVariables : string -> Data -> string)
    (messageOf : Exn -> option string)
    (data data' : Data) (template template' cacheKey : string) (cache : Assoc.t) :
  cacheKeyOf template data = inl cacheKey ->
  cacheKeyOf template' data' = inl cacheKey ->
  TemplateEngine.compile cacheKeyOf compileEach compileIf compileUnless
    compileVariables messageOf data' template'
    (snd (TemplateEngine.compile cacheKeyOf compileEach compileIf compileUnless
            compileVariables messageOf data template cache))
  = TemplateEngine.compile cacheKeyOf compileEach compileIf compileUnless
      compileVariables messageOf data template cache.
Proof. apply compile_again. Qed.

Lemma compile_same_key_same_text_witness :
  let key := fun (t : string) (_ : nat) => @inl string TemplateEngine.Thrown t in
  let pass := fun (t : string) (_ : nat) => t in
  let last := fun (t : string) (n : nat) => if n =? 0 then t else String.append t "!" in
  fst (TemplateEngine.compile key pass pass pass last (fun _ => None) 1 "hi"
         (snd (TemplateEngine.compile key pass pass pass last (fun _ => None) 0 "hi" [])))
  = inl "hi".
Proof.
  intros key pass last.
  rewrite (@compile_same_key_same_text nat key pass pass pass last (fun _ => None)
             0 1 "hi" "hi" "hi" [] eq_refl eq_refl).
  reflexivity.
Defined.

(** * [render] *)

Section RenderRuns.

Import App.

Variable B : Browser.
Variables Cb Data : Type.
Variable cacheKeyOf : string -> Data -> string + TemplateEngine.Thrown.
Variables compileEach compileIf compileUnless compileVariables
  : string -> Data -> string.
Variable messageOf : Exn -> option string.

Lemma diff_returns container oldHTML newHTML :
  exists c log, diff B container oldHTML newHTML = Return c log.
Proof.
  unfold diff. destruct (diffTry B container oldHTML newHTML) as [c lg|e lg].
  - now exists c, lg.
  - destruct container; simpl; now eexists _, _.
Qed.

Lemma show_returns useDiff html (app : App.t Cb) :
  exists el log,
    show B useDiff html app
    = Return (el, if useDiff then html else lastHTML app) log.
Proof.
  unfold show. destruct useDiff.
  - destruct (diff_returns (element app) (lastHTML app) html) as (c & log & E).
    rewrite E. simpl. rewrite app_nil_r. now exists c, log.
  - destruct (element app); simpl; now eexists _, _.
Qed.

Lemma show_first html (app : App.t Cb) :
  lastHTML app = "" ->
  exists el,
    show B true html app = Return (el, html) [SetInnerHTML html]
    /\ show B false html app = Return (el, "") [SetInnerHTML html].
Proof.
  intros H. unfold show. rewrite H. unfold diff, diffTry. simpl JsString.truthy.
  cbv iota. simpl orb. cbv iota.
  destruct (element app); simpl; eexists; split; reflexivity.
Qed.

(** [render] as one call of [show] on the text it shows. *)
Lemma render_shown useDiff template data (app : App.t Cb) html :
  let compiled := TemplateEngine.compile cacheKeyOf compileEach compileIf
                    compileUnless compileVariables messageOf data template
                    (cache app) in
  shownText messageOf (fst compiled) = Some html ->
  forall shown log,
    show B useDiff html app = Return shown log ->
    render B cacheKeyOf compileEach compileIf compileUnless compileVariables
           messageOf useDiff template data app
    = Rendered
        (mk (fst (Lifecycle.promoteAndLoad
                    (fst (Lifecycle.triggerUnload (lifecycle app)))))
            (fst shown) (snd shown) (snd compiled))
        (map (@Called Cb) (snd (Lifecycle.triggerUnload (lifecycle app)))
         ++ map (@Mutated Cb) log
         ++ map (@Called Cb)
                (snd (Lifecycle.promoteAndLoad
                        (fst (Lifecycle.triggerUnload (lifecycle app)))))).
Proof.
  intros compiled Ht shown log E. unfold render. fold compiled.
  unfold shownText in Ht. destruct (fst compiled) as [text|error].
  - injection Ht as ->. now rewrite E.
  - destruct (TemplateEngine.message messageOf error) as [text|next]; [|discriminate].
    injection Ht as <-. now rewrite E.
Qed.

Lemma mutations_Called (l : list (Lifecycle.Event Cb)) :
  mutations (map (@Called Cb) l) = [].
Proof. induction l as [|x l IH]; simpl; [reflexivity|exact IH]. Qed.

Lemma mutations_Mutated (l : list Mutation) : mutations (map (@Mutated Cb) l) = l.
Proof. induction l as [|x l IH]; simpl; [reflexivity|now rewrite IH]. Qed.

Lemma mutations_app (a b : list (Event Cb)) :
  mutations (a ++ b) = mutations a ++ mutations b.
Proof. apply flat_map_app. Qed.

End RenderRuns.

(** X26.  [render] and its [catch] block.  When [compile] returns a
    text, [render] returns and the [catch] block is not reached: the text
    is shown by [diff] or by [innerHTML], and [lastHTML] is the compiled
    text when diffing is on.  When [compile] throws (its own [catch]
    block reads the message of a thrown [null] or [undefined]), the
    [catch] block of [render] runs: it shows the render error with the
    message of the exception in the same way and [render] returns, unless
    that message cannot be read either, and then the exception leaves
    [render] before the document is touched.  The [onUnload] callbacks of
    the page that leaves are called before the document is touched, the
    [onLoad] callbacks of the page that comes after it. *)
Theorem render_returns
    (B : Browser) (Cb Data : Type)
    (cacheKeyOf : string -> Data -> string + TemplateEngine.Thrown)
    (compileEach compileIf compileUnless compileVariables : string -> Data -> string)
    (messageOf : Exn -> option string)
    (useDiff : bool) (template : string) (data : Data) (app : App.t Cb) :
  let compiled := TemplateEngine.compile cacheKeyOf compileEach compileIf
                    compileUnless compileVariables messageOf data template
                    (App.cache app) in
  let unload := Lifecycle.triggerUnload (App.lifecycle app) in
  let load := Lifecycle.promoteAndLoad (fst unload) in
  let rendered := fun html =>
    exists el log,
      App.show B useDiff html app
      = Return (el, if useDiff then html else App.lastHTML app) log
      /\ App.render B cacheKeyOf compileEach compileIf compileUnless compileVariables
                    messageOf useDiff template data app
         = App.Rendered
             (App.mk (fst load) el
                     (if useDiff then html else App.lastHTML app)
                     (snd compiled))
             (map (@App.Called Cb) (snd unload) ++ map (@App.Mutated Cb) log
              ++ map (@App.Called Cb) (snd load)) in
  match fst compiled with
  | inl html => rendered html
  | inr error =>
      match TemplateEngine.message messageOf error with
      | inl text => rendered (App.renderError text)
      | inr _ =>
          App.render B cacheKeyOf compileEach compileIf compileUnless compileVariables
                     messageOf useDiff template data app
          = App.Failed (map (@App.Called Cb) (snd unload))
      end
  end.
Proof.
  intros compiled unload load rendered.
  assert (Hshown : forall html,
             App.shownText messageOf (fst compiled) = Some html -> rendered html).
  { intros html Ht.
    destruct (show_returns B useDiff html app) as (el & log & E).
    exists el, log. split; [exact E|].
    exact (render_shown B cacheKeyOf compileEach compileIf compileUnless
             compileVariables messageOf useDiff template data app Ht E). }
  destruct (fst compiled) as [html|error] eqn:Ec.
  - now apply Hshown.
  - destruct (TemplateEngine.message messageOf error) as [text|next] eqn:Em.
    + apply Hshown. simpl. now rewrite Em.
    + unfold App.render. fold compiled. rewrite Ec, Em. fold unload.
      now rewrite app_nil_r.
Qed.

(** X26 where [JSON.stringify] throws [null]: the [catch] block of
    [compile] throws a [TypeError], the [catch] block of [render] shows
    the render error with its message, and [lastHTML] is that text. *)
Lemma render_returns_witness :
  let app := App.mk (Lifecycle.initial nat)
                    (ElementNode (mkProps "DIV" [("id", "app")] None false false) [])
                    "" [] in
  let messageOf := fun _ : Exn => Some "Cannot read properties of null" in
  exists app1 events,
    App.render MiniHost.host (fun _ (_ : unit) => inr TemplateEngine.Nullish)
               (fun t _ => t) (fun t _ => t) (fun t _ => t) (fun t _ => t)
               messageOf true "<p>hi</p>" tt app
    = App.Rendered app1 events
    /\ App.lastHTML app1 = App.renderError (Some "Cannot read properties of null").
Proof.
  intros app messageOf.
  assert (H := @render_returns MiniHost.host nat unit
                 (fun _ _ => inr TemplateEngine.Nullish)
                 (fun t _ => t) (fun t _ => t) (fun t _ => t) (fun t _ => t)
                 messageOf true "<p>hi</p>" tt app).
  cbv beta zeta iota delta [TemplateEngine.compile TemplateEngine.message fst] in H.
  destruct H as (el & log & _ & H).
  eexists _, _. split; [exact H|reflexivity].
Defined.

(** X27.  The first render, with [lastHTML] still empty, is the same
    with and without diffing: one write of [innerHTML] with the text
    shown (the compiled text, or the render error where [compile]
    throws), the same element and the same events. *)
Theorem first_render_sets_innerHTML
    (B : Browser) (Cb Data : Type)
    (cacheKeyOf : string -> Data -> string + TemplateEngine.Thrown)
    (compileEach compileIf compileUnless compileVariables : string -> Data -> string)
    (messageOf : Exn -> option string)
    (template : string) (data : Data) (app : App.t Cb) (html : string) :
  App.lastHTML app = "" ->
  App.shownText messageOf
    (fst (TemplateEngine.compile cacheKeyOf compileEach compileIf
            compileUnless compileVariables messageOf data template (App.cache app)))
  = Some html ->
  exists app1 app2 events,
    App.render B cacheKeyOf compileEach compileIf compileUnless compileVariables
               messageOf true template data app = App.Rendered app1 events
    /\ App.render B cacheKeyOf compileEach compileIf compileUnless compileVariables
                  messageOf false template data app = App.Rendered app2 events
    /\ App.element app1 = App.element app2
    /\ App.lastHTML app1 = html
    /\ App.mutations events = [SetInnerHTML html].
Proof.
  intros Hlast Ht.
  destruct (show_first B html app Hlast) as (el & E1 & E2).
  rewrite (render_shown B cacheKeyOf compileEach compileIf compileUnless
             compileVariables messageOf true template data app Ht E1),
          (render_shown B cacheKeyOf compileEach compileIf compileUnless
             compileVariables messageOf false template data app Ht E2).
  eexists _, _, _. split; [reflexivity|]. split; [reflexivity|].
  split; [reflexivity|]. split; [reflexivity|].
  now rewrite !mutations_app, !mutations_Called, mutations_Mutated.
Qed.

Lemma first_render_sets_innerHTML_witness :
  let app := App.mk (Lifecycle.initial nat)
                    (ElementNode (mkProps "DIV" [("id", "app")] None false false) [])
                    "" [] in
  exists app1 events,
    App.render MiniHost.host (fun t (_ : unit) => inl t)
               (fun t _ => t) (fun t _ => t) (fun t _ => t) (fun t _ => t)
               (fun _ => None) true "<p>hi</p>" tt app
    = App.Rendered app1 events
    /\ App.mutations events = [SetInnerHTML "<p>hi</p>"].
Proof.
  intros app.
  destruct (@first_render_sets_innerHTML MiniHost.host nat unit
              (fun t _ => inl t) (fun t _ => t) (fun t _ => t) (fun t _ => t)
              (fun t _ => t) (fun _ => None) "<p>hi</p>" tt app "<p>hi</p>"
              eq_refl eq_refl)
    as (app1 & app2 & events & H1 & _ & _ & _ & Hm).
  exists app1, events. split; [exact H1|exact Hm].
Defined.

(** X28.  Rendering again what is shown.  After a first render whose
    text (the compiled text, or the render error where [compile] throws)
    the parser turns into one well-formed node with the vnode [parseHTML]
    gives for that text, a second render of the same template and data
    shows the same text and leaves the document as it is: it issues no
    mutation. *)
Theorem render_again_is_silent
    (B : Browser) (Cb Data : Type)
    (cacheKeyOf : string -> Data -> string + TemplateEngine.Thrown)
    (compileEach compileIf compileUnless compileVariables : string -> Data -> string)
    (messageOf : Exn -> option string)
    (template : string) (data : Data) (app app1 : App.t Cb) (html : string)
    (p : ElementProps) (cs : list DomNode) (el : DomNode) (events : list (App.Event Cb)) :
  App.shownText messageOf
    (fst (TemplateEngine.compile cacheKeyOf compileEach compileIf
            compileUnless compileVariables messageOf data template (App.cache app)))
  = Some html ->
  App.lastHTML app = "" ->
  App.element app = ElementNode p cs ->
  JsString.truthy html = true ->
  parseFragment B (tagName p) html = [el] ->
  wellFormed el ->
  createVNode el = Some (parseHTML B html) ->
  App.render B cacheKeyOf compileEach compileIf compileUnless compileVariables
             messageOf true template data app = App.Rendered app1 events ->
  exists app2 events2,
    App.render B cacheKeyOf compileEach compileIf compileUnless compileVariables
               messageOf true template data app1 = App.Rendered app2 events2
    /\ App.mutations events2 = []
    /\ App.element app2 = App.element app1
    /\ App.element app1 = ElementNode p [el]
    /\ App.lastHTML app2 = html.
Proof.
  intros Hshown Hlast Hel Ht Hparse Hwf Hv Hr.
  destruct (show_first B html app Hlast) as (el1 & E1 & _).
  assert (Hel1 : el1 = ElementNode p [el]).
  { unfold App.show in E1. rewrite Hlast, Hel in E1.
    unfold diff, diffTry in E1. simpl in E1. rewrite Hparse in E1.
    now injection E1 as <-. }
  rewrite (render_shown B cacheKeyOf compileEach compileIf compileUnless
             compileVariables messageOf true template data app Hshown E1) in Hr.
  injection Hr as <- <-.
  match goal with
  | |- context [App.render _ _ _ _ _ _ _ _ _ _ ?a] => set (app1 := a)
  end.
  assert (Hshown1 : App.shownText messageOf
            (fst (TemplateEngine.compile cacheKeyOf compileEach compileIf
                    compileUnless compileVariables messageOf data template
                    (App.cache app1))) = Some html).
  { unfold app1. cbn [App.cache]. now rewrite compile_repeat. }
  assert (E2 : App.show B true html app1 = Return (ElementNode p [el], html) []).
  { unfold App.show, app1. cbn [App.element App.lastHTML fst snd].
    rewrite Hel1, (@diff_same_html_single_root_no_mutation B p el html Ht Hwf Hv).
    reflexivity. }
  rewrite (render_shown B cacheKeyOf compileEach compileIf compileUnless
             compileVariables messageOf true template data app1 Hshown1 E2).
  eexists _, _. split; [reflexivity|]. cbn [App.element App.lastHTML fst snd].
  split; [|unfold app1; cbn [App.element]; rewrite Hel1; repeat split; reflexivity].
  now rewrite !mutations_app, !mutations_Called.
Qed.

Lemma render_again_is_silent_witness :
  let render := App.render MiniHost.host (fun t (_ : unit) => inl t)
                  (fun t _ => t) (fun t _ => t) (fun t _ => t) (fun t _ => t)
                  (fun _ => None) true "<ul><li>a</li></ul>" tt in
  let app := App.mk (Lifecycle.initial nat)
                    (ElementNode (mkProps "DIV" [("id", "app")] None false false) [])
                    "" [] in
  exists app1 events app2 events2,
    render app = App.Rendered app1 events
    /\ render app1 = App.Rendered app2 events2
    /\ App.mutations events2 = [].
Proof.
  intros render app.
  assert (H1 : exists app1 events, render app = App.Rendered app1 events)
    by (eexists _, _; reflexivity).
  destruct H1 as (app1 & events & H1).
  destruct (@render_again_is_silent MiniHost.host nat unit
              (fun t _ => inl t) (fun t _ => t) (fun t _ => t) (fun t _ => t)
              (fun t _ => t) (fun _ => None) "<ul><li>a</li></ul>" tt app app1
              "<ul><li>a</li></ul>"
              (mkProps "DIV" [("id", "app")] None false false) []
              (ElementNode (mkProps "UL" [] None false false)
                 [ElementNode (mkProps "LI" [] None false false) [TextNode "a"]])
              events eq_refl eq_refl eq_refl eq_refl eq_refl)
    as (app2 & events2 & H2 & Hm & _).
  - repeat constructor; simpl; intuition discriminate.
  - reflexivity.
  - exact H1.
  - exists app1, events, app2, events2. repeat split; assumption.
Defined.
